(** * The evaluation pipeline of the interview backend (backend/index.js)

    A shallow embedding of [withRetries], [extractTextFromResponse],
    [safeParseJSON] and the [POST /evaluate] handler, with the fragment of
    JavaScript they rely on: dynamically typed values, truthiness,
    (optional) property chains, completions ([return] / [throw]) and the
    effects of an asynchronous call (invocations of the remote operation,
    draws of [Math.random], [console.warn], timers). *)

From Stdlib Require Import String Ascii List Bool Arith ZArith Lia.
From Stdlib Require Import QArith Qround Qpower Qabs Lqa.
From Stdlib Require Import DecimalString.
Import ListNotations.
Open Scope string_scope.

(** ** JavaScript values *)

(** A number is an IEEE double: a finite one is the rational it stands
    for, [JInf] is an infinity and [JNaN] is [NaN]; the two zeros are one,
    the code never tells them apart.  Where the code can round (the numbers
    [JSON.parse] reads, the sum and the average of the session score, a
    number written out as text) the rounding is [to_double]; the delays of
    [withRetries] are computed on exact rationals: the whole milliseconds
    and the powers of two it multiplies are exact in a double too.
    Strings are sequences of 8-bit units, the UTF-8 form of the text.  An
    object is the list of its own properties in insertion order. *)
#[warnings="-register-all"]
Inductive JsVal : Type :=
| JUndefined
| JNull
| JBool (b : bool)
| JNum (q : Q)
| JInf (negative : bool)
| JNaN
| JStr (s : string)
| JArr (items : list JsVal)
| JObj (props : list (string * JsVal)).

(** What an evaluation ends in: a value, or a thrown (rejected) value. *)
Inductive Completion (A : Type) : Type :=
| Normal (a : A)
| Throw (e : JsVal).
Arguments Normal {A} a.
Arguments Throw {A} e.

(** [new Error(msg)], [new TypeError(msg)]: only [message] is ever read. *)
Definition new_Error (msg : string) : JsVal := JObj [("message", JStr msg)].

(** [!!v] *)
Definition truthy (v : JsVal) : bool :=
  match v with
  | JUndefined | JNull => false
  | JBool b => b
  | JNum q => negb (Qeq_bool q 0)
  | JInf _ => true
  | JNaN => false
  | JStr s => negb (String.eqb s EmptyString)
  | JArr _ | JObj _ => true
  end.

(** [v == null], the test of [?.] and [??] *)
Definition nullish (v : JsVal) : bool :=
  match v with
  | JUndefined | JNull => true
  | _ => false
  end.

(** [typeof v] *)
Definition typeof (v : JsVal) : string :=
  match v with
  | JUndefined => "undefined"
  | JNull => "object"
  | JBool _ => "boolean"
  | JNum _ | JInf _ | JNaN => "number"
  | JStr _ => "string"
  | JArr _ | JObj _ => "object"
  end.

(** [a || b] and [a ?? b] *)
Definition js_or (a b : JsVal) : JsVal := if truthy a then a else b.
Definition js_coalesce (a b : JsVal) : JsVal := if nullish a then b else a.

(** [v === lit] for a primitive [lit]; objects and arrays are equal only to
    themselves (by reference), never to a literal. *)
Definition strict_eq (v lit : JsVal) : bool :=
  match v, lit with
  | JUndefined, JUndefined => true
  | JNull, JNull => true
  | JBool a, JBool b => Bool.eqb a b
  | JNum a, JNum b => Qeq_bool a b
  | JInf a, JInf b => Bool.eqb a b
  | JStr a, JStr b => String.eqb a b
  | _, _ => false
  end.

(** *** Property access *)

Inductive Key : Type :=
| Field (name : string)     (* [.name]  *)
| Index (i : nat).          (* [[i]]    *)

Fixpoint lookup (k : string) (props : list (string * JsVal)) : JsVal :=
  match props with
  | [] => JUndefined
  | (k', v) :: rest => if String.eqb k k' then v else lookup k rest
  end.

Definition index_name (i : nat) : string :=
  NilEmpty.string_of_uint (Nat.to_uint i).

Definition char_at (s : string) (i : nat) : JsVal :=
  match String.get i s with
  | Some c => JStr (String c EmptyString)
  | None => JUndefined
  end.

(** [v[k]] on a value that is neither [null] nor [undefined].  Of the
    inherited properties only [length] is a data property; the methods of
    the prototypes are never read as values by the code. *)
Definition get (v : JsVal) (k : Key) : JsVal :=
  match v, k with
  | JObj props, Field name => lookup name props
  | JObj props, Index i => lookup (index_name i) props
  | JArr items, Index i => nth i items JUndefined
  | JArr items, Field name =>
      if String.eqb name "length" then JNum (inject_Z (Z.of_nat (List.length items)))
      else JUndefined
  | JStr s, Index i => char_at s i
  | JStr s, Field name =>
      if String.eqb name "length" then JNum (inject_Z (Z.of_nat (String.length s)))
      else JUndefined
  | _, _ => JUndefined
  end.

Definition key_name (k : Key) : string :=
  match k with
  | Field name => name
  | Index i => index_name i
  end.

(** How an error message names a base that is [null] or [undefined]. *)
Definition nullish_name (v : JsVal) : string :=
  match v with
  | JNull => "null"
  | _ => "undefined"
  end.

(** The [TypeError] of reading [k] from the base [v]. *)
Definition cannot_read (v : JsVal) (k : Key) : JsVal :=
  new_Error ("Cannot read properties of " ++ nullish_name v
             ++ " (reading '" ++ key_name k ++ "')").

(** [v.k1.k2...]: a [TypeError] as soon as a base is [null] or [undefined]. *)
Fixpoint chain (v : JsVal) (ks : list Key) : Completion JsVal :=
  match ks with
  | [] => Normal v
  | k :: ks' => if nullish v then Throw (cannot_read v k) else chain (get v k) ks'
  end.

(** [v?.k1?.k2...]: [undefined] as soon as a base is [null] or [undefined]. *)
Fixpoint opt_chain (v : JsVal) (ks : list Key) : JsVal :=
  match ks with
  | [] => v
  | k :: ks' => if nullish v then JUndefined else opt_chain (get v k) ks'
  end.

(** [try { body } catch { handler }] *)
Definition try_catch {A} (body : Completion A) (handler : JsVal -> Completion A)
  : Completion A :=
  match body with
  | Normal a => Normal a
  | Throw e => handler e
  end.

(** One evaluation after another: a throw ends both. *)
Definition and_then {A B} (c : Completion A) (k : A -> Completion B) : Completion B :=
  match c with
  | Normal a => k a
  | Throw e => Throw e
  end.

(** ** extractTextFromResponse *)

Definition candidates_parts_text : list Key :=
  [Field "candidates"; Index 0; Field "content"; Field "parts"; Index 0; Field "text"].
Definition candidates_content_text : list Key :=
  [Field "candidates"; Index 0; Field "content"; Field "text"].
Definition output_content_text : list Key :=
  [Field "output"; Index 0; Field "content"; Index 0; Field "text"].
Definition top_text : list Key := [Field "text"].

Definition extractTextFromResponse_body (response : JsVal) : Completion JsVal :=
  if truthy (opt_chain response candidates_parts_text) then
    chain response candidates_parts_text
  else if truthy (opt_chain response candidates_content_text) then
    chain response candidates_content_text
  else if truthy (opt_chain response output_content_text) then
    chain response output_content_text
  else if String.eqb (typeof response) "string" then Normal response
  else if truthy (opt_chain response top_text) then chain response top_text
  else Normal JNull.

Definition extractTextFromResponse (response : JsVal) : Completion JsVal :=
  try_catch (extractTextFromResponse_body response) (fun _ => Normal JNull).

(** ** Effects of an asynchronous call *)

(** What a request does to the outside world, most recent event first. *)
Inductive Event : Type :=
| EvInvoke (outcome : Completion JsVal)   (* [await fn()] settled with [outcome] *)
| EvRandom (r : Q)                        (* [Math.random()] returned [r] *)
| EvWarn (status : JsVal) (attempt : Z) (retries : Q) (ms : Q)  (* [console.warn] *)
| EvSleep (ms : Q)                        (* [await] of a [setTimeout(r, ms)] *)
| EvError (error : JsVal).                (* [console.error] *)

Definition History : Type := list Event.

(** The number of times the operation has been invoked so far. *)
Fixpoint invocations (h : History) : nat :=
  match h with
  | [] => O
  | EvInvoke _ :: t => S (invocations t)
  | _ :: t => invocations t
  end.

(** The timer delays waited so far, oldest first. *)
Fixpoint sleeps (h : History) : list Q :=
  match h with
  | [] => []
  | EvSleep ms :: t => sleeps t ++ [ms]
  | _ :: t => sleeps t
  end.

(** The attempt numbers logged by [console.warn] so far, oldest first. *)
Fixpoint warned_attempts (h : History) : list Z :=
  match h with
  | [] => []
  | EvWarn _ attempt _ _ :: t => warned_attempts t ++ [attempt]
  | _ :: t => warned_attempts t
  end.

(** *** The arithmetic of [Math] *)

Definition js_lt (a b : Q) : bool := negb (Qle_bool b a).
Definition Math_min (a b : Q) : Q := if Qle_bool a b then a else b.
Definition Math_floor (a : Q) : Q := inject_Z (Qfloor a).
Definition Math_pow (b : Q) (e : Z) : Q := Qpower b e.

(** ** Numbers *)

(** The binary exponent of a positive rational: the [e] with
    [2^e <= a < 2^(e+1)]. *)
Definition binade (a : Q) : Z :=
  if Qle_bool 1 a then Z.log2 (Qfloor a)
  else (- Z.log2_up (Qceiling (/ a)))%Z.

(** The nearest integer, a half going to the even one. *)
Definition round_half_even (q : Q) : Z :=
  let f := Qfloor q in
  match Qcompare (q - inject_Z f) (1 # 2) with
  | Lt => f
  | Gt => (f + 1)%Z
  | Eq => if Z.even f then f else (f + 1)%Z
  end.

(** The double nearest to a rational (IEEE 754 binary64, round to nearest,
    ties to even): 53 bits of mantissa, exponents from -1022, below which
    the spacing stays that of the subnormal numbers, and an infinity from
    [2^1024] on. *)
Definition to_double (q : Q) : JsVal :=
  let a := Qabs q in
  if Qeq_bool a 0 then JNum 0
  else
    let ulp := Qpower 2 (Z.max (binade a) (-1022) - 52) in
    let magnitude := inject_Z (round_half_even (a / ulp)) * ulp in
    let negative := negb (Qle_bool 0 q) in
    if Qle_bool (Qpower 2 1024) magnitude then JInf negative
    else JNum (Qred (if negative then - magnitude else magnitude)).

(** [a + b] on two numbers. *)
Definition Number_add (a b : JsVal) : JsVal :=
  match a, b with
  | JNum x, JNum y => to_double (x + y)
  | JInf s, JInf t => if Bool.eqb s t then JInf s else JNaN
  | JInf s, JNum _ => JInf s
  | JNum _, JInf t => JInf t
  | _, _ => JNaN
  end.

(** [a / n] for a number [a] and the length [n], not 0, of an array. *)
Definition Number_div (a : JsVal) (n : nat) : JsVal :=
  match a with
  | JNum x => to_double (x / inject_Z (Z.of_nat n))
  | JInf s => JInf s
  | _ => JNaN
  end.

(** *** A number written out: [Number.prototype.toString] *)

Definition decimal (n : Z) : string := NilEmpty.string_of_uint (N.to_uint (Z.to_N n)).

Definition digit_count (n : Z) : Z := Z.of_nat (String.length (decimal n)).

(** The decimal exponent of a positive rational: the [n] with
    [10^(n-1) <= x < 10^n]. *)
Definition decimal_position (x : Q) : Z :=
  if Qle_bool 1 x then digit_count (Qfloor x)
  else (1 - digit_count (Qceiling (/ x) - 1))%Z.

Definition same_double (x c : Q) : bool :=
  match to_double c with
  | JNum d => Qeq_bool d x
  | _ => false
  end.

(** The shortest decimal that reads back as the double [x]: the least
    number [k] of digits for which one of the two [k]-digit decimals around
    [x] rounds to [x], and of the two the nearer one (the even one if they
    are as near).  The result is [(s, e)] for the decimal [s * 10^e]; 17
    digits are enough for every double. *)
Fixpoint shortest_digits (fuel : nat) (k : Z) (x : Q) (n : Z) : Z * Z :=
  let scale := Qpower 10 (n - k) in
  let scaled := x / scale in
  let lo := Qfloor scaled in
  let hi := (lo + 1)%Z in
  match fuel with
  | O => (lo, (n - k)%Z)
  | S fuel' =>
      let ok_lo := same_double x (inject_Z lo * scale) in
      let ok_hi := same_double x (inject_Z hi * scale) in
      let d_lo := scaled - inject_Z lo in
      let d_hi := inject_Z hi - scaled in
      if ok_lo && (negb ok_hi || js_lt d_lo d_hi || (Qeq_bool d_lo d_hi && Z.even lo))
      then (lo, (n - k)%Z)
      else if ok_hi then (hi, (n - k)%Z)
      else shortest_digits fuel' (k + 1) x n
  end.

Fixpoint drop_zeros (cs : list ascii) : list ascii :=
  match cs with
  | c :: t => if Ascii.eqb c "0" then drop_zeros t else cs
  | [] => []
  end.

Fixpoint zeros (n : nat) : string :=
  match n with
  | O => EmptyString
  | S n' => String "0" (zeros n')
  end.

(** The digits of a number and its decimal exponent [n] as text: plain
    notation for [n] from -5 to 21, exponent notation otherwise. *)
Definition format_number (digits : string) (n : Z) : string :=
  let k := Z.of_nat (String.length digits) in
  if (-5 <=? n)%Z && (n <=? 21)%Z then
    if (k <=? n)%Z then digits ++ zeros (Z.to_nat (n - k))
    else if (0 <? n)%Z then
      substring 0 (Z.to_nat n) digits ++ "."
        ++ substring (Z.to_nat n) (Z.to_nat (k - n)) digits
    else "0." ++ zeros (Z.to_nat (- n)) ++ digits
  else
    let e := (n - 1)%Z in
    let exponent := (if (0 <=? e)%Z then "+" else "-") ++ decimal (Z.abs e) in
    match digits with
    | String d EmptyString => String d ("e" ++ exponent)
    | String d rest => String d ("." ++ rest ++ "e" ++ exponent)
    | EmptyString => EmptyString
    end.

Definition positive_toString (x : Q) : string :=
  let (s, e10) := shortest_digits 17 1 x (decimal_position x) in
  let all := list_ascii_of_string (decimal s) in
  let significant := rev (drop_zeros (rev all)) in
  format_number (string_of_list_ascii significant) (e10 + Z.of_nat (List.length all)).

Definition Number_toString (v : JsVal) : string :=
  match v with
  | JNum q =>
      match to_double q with
      | JNum d =>
          if Qeq_bool d 0 then "0"
          else if Qle_bool 0 d then positive_toString d
          else "-" ++ positive_toString (- d)
      | JInf negative => if negative then "-Infinity" else "Infinity"
      | _ => "NaN"
      end
  | JInf negative => if negative then "-Infinity" else "Infinity"
  | _ => "NaN"
  end.

(** *** A value written out: the conversion of a template literal *)

Definition cannot_convert : JsVal :=
  new_Error "Cannot convert object to primitive value".

Definition has_own (name : string) (props : list (string * JsVal)) : bool :=
  existsb (fun p => String.eqb (fst p) name) props.

(** [`${v}`] for a value that [JSON.parse] has made.  An array is joined
    with commas, [null] and [undefined] items counting for nothing.  A plain
    object is written by [Object.prototype.toString], unless it has a
    [toString] property of its own: that one is data, not a function, so
    is [valueOf] or what it returns, and the conversion throws. *)
Fixpoint ToString (v : JsVal) : Completion string :=
  match v with
  | JUndefined => Normal "undefined"
  | JNull => Normal "null"
  | JBool b => Normal (if b then "true" else "false")
  | JNum _ | JInf _ | JNaN => Normal (Number_toString v)
  | JStr s => Normal s
  | JArr items =>
      (fix join (l : list JsVal) : Completion string :=
         match l with
         | [] => Normal EmptyString
         | x :: rest =>
             and_then (if nullish x then Normal EmptyString else ToString x) (fun sx =>
             and_then (join rest) (fun sr =>
             Normal (match rest with
                     | [] => sx
                     | _ => sx ++ "," ++ sr
                     end)))
         end) items
  | JObj props =>
      if has_own "toString" props then Throw cannot_convert
      else Normal "[object Object]"
  end.

(** ** withRetries *)

(** The options object [{ retries, minDelay, maxDelay }]; [None] is a
    property that is absent (or [undefined]) and takes its default. *)
Record RetryOptions : Type := {
  retries : option Q;
  minDelay : option Q;
  maxDelay : option Q
}.

(** [withRetries(fn)]: the second parameter defaults to [{}]. *)
Definition no_options : RetryOptions :=
  {| retries := None; minDelay := None; maxDelay := None |}.

Definition default {A} (o : option A) (d : A) : A :=
  match o with
  | Some a => a
  | None => d
  end.

(** [err?.status || err?.error?.code || err?.code || null] *)
Definition error_status (err : JsVal) : JsVal :=
  js_or (js_or (js_or (opt_chain err [Field "status"])
                      (opt_chain err [Field "error"; Field "code"]))
               (opt_chain err [Field "code"]))
        JNull.

(** [status === 429 || status === "RESOURCE_EXHAUSTED" ||
     status === "TOO_MANY_REQUESTS"] *)
Definition retryable (status : JsVal) : bool :=
  strict_eq status (JNum 429)
  || strict_eq status (JStr "RESOURCE_EXHAUSTED")
  || strict_eq status (JStr "TOO_MANY_REQUESTS").

Definition retries_exhausted : JsVal :=
  new_Error "Model service overloaded. Retries exhausted.".

Section WithRetries.

(** The operation and the random source are oracles over everything that
    happened before: the operation may behave differently at each
    invocation and after each wait. *)
Variable fn : History -> Completion JsVal.
Variable Math_random : History -> Q.
Variable options : RetryOptions.

(** [{ retries = 4, minDelay = 500, maxDelay = 6000 }] *)
Definition retries_ : Q := default (retries options) 4.
Definition minDelay_ : Q := default (minDelay options) 500.
Definition maxDelay_ : Q := default (maxDelay options) 6000.

(** [Math.min(maxDelay, Math.floor(minDelay * Math.pow(2, attempt - 1)))] *)
Definition backoff_delay (attempt : Z) : Q :=
  Math_min maxDelay_ (Math_floor (minDelay_ * Math_pow 2 (attempt - 1))).

(** [Math.floor(Math.random() * 200)] *)
Definition jitter_of (r : Q) : Q := Math_floor (r * 200).

(** The [while (attempt < retries)] loop and the [throw] after it.  Every
    iteration that does not leave the function increments [attempt];
    [fuel] bounds the iterations and [None] is running out of it. *)
Fixpoint retry_loop (fuel : nat) (attempt : Z) (h : History)
  : option (Completion JsVal * History) :=
  match fuel with
  | O => if js_lt (inject_Z attempt) retries_ then None
         else Some (Throw retries_exhausted, h)
  | S fuel' =>
      if js_lt (inject_Z attempt) retries_ then
        let outcome := fn h in
        let h1 := EvInvoke outcome :: h in
        match outcome with
        | Normal v => Some (Normal v, h1)
        | Throw err =>
            let status := error_status err in
            if negb (retryable status) then Some (Throw err, h1)
            else
              let attempt' := (attempt + 1)%Z in
              let delay := backoff_delay attempt' in
              let r := Math_random h1 in
              let h2 := EvRandom r :: h1 in
              let jitter := jitter_of r in
              let h3 := EvWarn status attempt' retries_ (delay + jitter) :: h2 in
              let h4 := EvSleep (delay + jitter) :: h3 in
              retry_loop fuel' attempt' h4
        end
      else Some (Throw retries_exhausted, h)
  end.

(** What one iteration that ends in a retry adds to the history [h]: the
    failed invocation, the draw, the warning and the wait. *)
Definition after_retry (attempt : Z) (err : JsVal) (h : History) : History :=
  let h1 := EvInvoke (Throw err) :: h in
  let r := Math_random h1 in
  let ms := backoff_delay (attempt + 1) + jitter_of r in
  EvSleep ms :: EvWarn (error_status err) (attempt + 1) retries_ ms
    :: EvRandom r :: h1.

(** [let attempt = 0], then the loop; no more than [ceil(retries)]
    iterations are ever needed. *)
Definition withRetries (h : History) : option (Completion JsVal * History) :=
  retry_loop (Z.to_nat (Qceiling retries_)) 0 h.

End WithRetries.

(** ** JSON.parse *)

(** [JSON.parse] is a built-in of the language.  It is modelled after the
    JSON grammar (ECMA-404): a lexer that reads the text one character at a
    time, and a push-down parser over its tokens.  Both are structural in
    the input, so the parse of every text is defined. *)

Inductive Token : Type :=
| TLBrace | TRBrace | TLBracket | TRBracket | TColon | TComma
| TString (s : string)
| TValue (v : JsVal).           (* a number, [true], [false] or [null] *)

Inductive LexState : Type :=
| LStart
| LString (acc : list ascii)                    (* inside a string, reversed *)
| LEscape (acc : list ascii)                    (* after a backslash *)
| LUnicode (acc : list ascii) (hex : list ascii) (* after [\u] *)
| LNumber (acc : list ascii)                    (* a run of number characters *)
| LWord (acc : list ascii).                     (* a run of lower-case letters *)

Definition code (c : ascii) : N := N_of_ascii c.
Definition between (lo hi : N) (c : ascii) : bool :=
  (lo <=? code c)%N && (code c <=? hi)%N.
Definition is_digit : ascii -> bool := between 48 57.
Definition is_lower : ascii -> bool := between 97 122.
Definition is_hex (c : ascii) : bool :=
  is_digit c || between 97 102 c || between 65 70 c.
Definition is_ws (c : ascii) : bool :=
  (code c =? 32)%N || (code c =? 9)%N || (code c =? 10)%N || (code c =? 13)%N.
Definition is_number_char (c : ascii) : bool :=
  is_digit c || Ascii.eqb c "-" || Ascii.eqb c "+" || Ascii.eqb c "."
  || Ascii.eqb c "e" || Ascii.eqb c "E".

Definition double_quote : ascii := ascii_of_N 34.
Definition backslash : ascii := ascii_of_N 92.

Definition hex_value (c : ascii) : N :=
  if is_digit c then code c - 48
  else if between 97 102 c then code c - 87
  else code c - 55.

Fixpoint digits_value (base : N) (hexdigits : list ascii) (acc : N) : N :=
  match hexdigits with
  | [] => acc
  | c :: t => digits_value base t (acc * base + hex_value c)
  end.

(** The UTF-8 units of a code point. *)
Definition utf8 (n : N) : list ascii :=
  if (n <? 128)%N then [ascii_of_N n]
  else if (n <? 2048)%N then
    [ascii_of_N (192 + n / 64); ascii_of_N (128 + n mod 64)]
  else if (n <? 65536)%N then
    [ascii_of_N (224 + n / 4096); ascii_of_N (128 + (n / 64) mod 64);
     ascii_of_N (128 + n mod 64)]
  else
    [ascii_of_N (240 + n / 262144); ascii_of_N (128 + (n / 4096) mod 64);
     ascii_of_N (128 + (n / 64) mod 64); ascii_of_N (128 + n mod 64)].

(** A code unit written as [\uXXXX], after the units [acc] of the string
    so far (reversed).  A low surrogate (DC00 to DFFF) that comes right
    after a high one (D800 to DBFF, three units that start with ED and a
    unit from A0 to AF) makes one code point with it; any other code unit
    stands for itself. *)
Definition push_unit (n : N) (acc : list ascii) : list ascii :=
  match acc with
  | b3 :: b2 :: b1 :: before =>
      if ((56320 <=? n) && (n <=? 57343) && (code b1 =? 237)
          && (160 <=? code b2) && (code b2 <=? 175)
          && (128 <=? code b3) && (code b3 <=? 191))%N
      then
        let high := (53248 + (code b2 - 128) * 64 + (code b3 - 128))%N in
        (rev (utf8 (65536 + (high - 55296) * 1024 + (n - 56320))) ++ before)%list
      else (rev (utf8 n) ++ acc)%list
  | _ => (rev (utf8 n) ++ acc)%list
  end.

Fixpoint span_digits (cs : list ascii) : list ascii * list ascii :=
  match cs with
  | c :: t => if is_digit c then let (d, r) := span_digits t in (c :: d, r)
              else ([], cs)
  | [] => ([], [])
  end.

Definition nonempty {A} (l : list A) : bool :=
  match l with
  | [] => false
  | _ => true
  end.

(** A JSON number and the rational it writes: an optional minus sign; an
    integer part that is 0 or starts with a non-zero digit; optionally a
    point and at least one digit; optionally e or E, a sign and at least
    one digit. *)
Definition number_of_chars (cs : list ascii) : option Q :=
  let (negative, cs1) :=
    match cs with
    | c :: t => if Ascii.eqb c "-" then (true, t) else (false, cs)
    | [] => (false, cs)
    end in
  let (int, cs2) := span_digits cs1 in
  let int_ok :=
    match int with
    | [] => false
    | c :: t => negb (Ascii.eqb c "0") || negb (nonempty t)
    end in
  let '(frac, frac_ok, cs3) :=
    match cs2 with
    | c :: t => if Ascii.eqb c "."
                then let (f, r) := span_digits t in (f, nonempty f, r)
                else ([], true, cs2)
    | [] => ([], true, cs2)
    end in
  let '(exponent, exp_ok, cs4) :=
    match cs3 with
    | c :: t =>
        if Ascii.eqb c "e" || Ascii.eqb c "E" then
          let (minus, t') :=
            match t with
            | s :: u => if Ascii.eqb s "-" then (true, u)
                        else if Ascii.eqb s "+" then (false, u) else (false, t)
            | [] => (false, t)
            end in
          let (d, r) := span_digits t' in
          let e := Z.of_N (digits_value 10 d 0) in
          ((if minus then - e else e)%Z, nonempty d, r)
        else (0%Z, true, cs3)
    | [] => (0%Z, true, cs3)
    end in
  if int_ok && frac_ok && exp_ok && negb (nonempty cs4) then
    let mantissa := inject_Z (Z.of_N (digits_value 10 (int ++ frac)%list 0)) in
    let scale := Qpower 10 (exponent - Z.of_nat (List.length frac)) in
    let magnitude := Qred (mantissa * scale) in
    Some (if negative then Qred (- magnitude) else magnitude)
  else None.

(** The number read is the double nearest to what is written. *)
Definition number_token (acc : list ascii) : option Token :=
  match number_of_chars (rev acc) with
  | Some q => Some (TValue (to_double q))
  | None => None
  end.

Definition word_token (acc : list ascii) : option Token :=
  let w := string_of_list_ascii (rev acc) in
  if String.eqb w "true" then Some (TValue (JBool true))
  else if String.eqb w "false" then Some (TValue (JBool false))
  else if String.eqb w "null" then Some (TValue JNull)
  else None.

Definition lex_start (c : ascii) : option (LexState * list Token) :=
  if is_ws c then Some (LStart, [])
  else if Ascii.eqb c "{" then Some (LStart, [TLBrace])
  else if Ascii.eqb c "}" then Some (LStart, [TRBrace])
  else if Ascii.eqb c "[" then Some (LStart, [TLBracket])
  else if Ascii.eqb c "]" then Some (LStart, [TRBracket])
  else if Ascii.eqb c ":" then Some (LStart, [TColon])
  else if Ascii.eqb c "," then Some (LStart, [TComma])
  else if Ascii.eqb c double_quote then Some (LString [], [])
  else if is_digit c || Ascii.eqb c "-" then Some (LNumber [c], [])
  else if is_lower c then Some (LWord [c], [])
  else None.

(** A token that ends where [c] begins, then [c] itself. *)
Definition close_then (tok : option Token) (c : ascii)
  : option (LexState * list Token) :=
  match tok, lex_start c with
  | Some t, Some (st, toks) => Some (st, t :: toks)
  | _, _ => None
  end.

Definition lex_step (st : LexState) (c : ascii) : option (LexState * list Token) :=
  match st with
  | LStart => lex_start c
  | LString acc =>
      if Ascii.eqb c double_quote
      then Some (LStart, [TString (string_of_list_ascii (rev acc))])
      else if Ascii.eqb c backslash then Some (LEscape acc, [])
      else if (code c <? 32)%N then None
      else Some (LString (c :: acc), [])
  | LEscape acc =>
      if Ascii.eqb c double_quote || Ascii.eqb c backslash || Ascii.eqb c "/"
      then Some (LString (c :: acc), [])
      else if Ascii.eqb c "b" then Some (LString (ascii_of_N 8 :: acc), [])
      else if Ascii.eqb c "f" then Some (LString (ascii_of_N 12 :: acc), [])
      else if Ascii.eqb c "n" then Some (LString (ascii_of_N 10 :: acc), [])
      else if Ascii.eqb c "r" then Some (LString (ascii_of_N 13 :: acc), [])
      else if Ascii.eqb c "t" then Some (LString (ascii_of_N 9 :: acc), [])
      else if Ascii.eqb c "u" then Some (LUnicode acc [], [])
      else None
  | LUnicode acc hex =>
      if is_hex c then
        let hex' := (hex ++ [c])%list in
        if (List.length hex' =? 4)%nat
        then Some (LString (push_unit (digits_value 16 hex' 0) acc), [])
        else Some (LUnicode acc hex', [])
      else None
  | LNumber acc =>
      if is_number_char c then Some (LNumber (c :: acc), [])
      else close_then (number_token acc) c
  | LWord acc =>
      if is_lower c then Some (LWord (c :: acc), [])
      else close_then (word_token acc) c
  end.

Definition lex_end (st : LexState) : option (list Token) :=
  match st with
  | LStart => Some []
  | LNumber acc => option_map (fun t => [t]) (number_token acc)
  | LWord acc => option_map (fun t => [t]) (word_token acc)
  | LString _ | LEscape _ | LUnicode _ _ => None
  end.

Fixpoint lex (st : LexState) (text : string) : option (list Token) :=
  match text with
  | EmptyString => lex_end st
  | String c rest =>
      match lex_step st c with
      | Some (st', toks) => option_map (app toks) (lex st' rest)
      | None => None
      end
  end.

(** A container under construction: the items of an array read so far
    (reversed), or the properties of an object with the key that awaits its
    value. *)
Inductive Frame : Type :=
| FArray (items : list JsVal)
| FObject (props : list (string * JsVal)) (pending : option string).

Inductive Mode : Type :=
| MValue            (* a value must follow *)
| MValueOrClose     (* just after an opening bracket *)
| MKeyOrClose       (* just after an opening brace *)
| MKey              (* after a comma inside an object *)
| MColon            (* after a key *)
| MNext             (* after a value inside a container *)
| MDone (v : JsVal). (* the top-level value is complete *)

(** Defining a property: a key met again keeps its place and takes the new
    value. *)
Fixpoint set_prop (k : string) (v : JsVal) (props : list (string * JsVal))
  : list (string * JsVal) :=
  match props with
  | [] => [(k, v)]
  | (k', v') :: rest =>
      if String.eqb k k' then (k', v) :: rest else (k', v') :: set_prop k v rest
  end.

(** A value is complete: it goes to the enclosing container, if any. *)
Definition complete (v : JsVal) (stack : list Frame) : option (list Frame * Mode) :=
  match stack with
  | [] => Some ([], MDone v)
  | FArray items :: below => Some (FArray (v :: items) :: below, MNext)
  | FObject props (Some k) :: below =>
      Some (FObject (set_prop k v props) None :: below, MNext)
  | FObject _ None :: _ => None
  end.

Definition parse_value_token (tok : Token) (stack : list Frame)
  : option (list Frame * Mode) :=
  match tok with
  | TLBrace => Some (FObject [] None :: stack, MKeyOrClose)
  | TLBracket => Some (FArray [] :: stack, MValueOrClose)
  | TString s => complete (JStr s) stack
  | TValue v => complete v stack
  | _ => None
  end.

Definition parse_key_token (tok : Token) (stack : list Frame)
  : option (list Frame * Mode) :=
  match tok, stack with
  | TString k, FObject props _ :: below => Some (FObject props (Some k) :: below, MColon)
  | _, _ => None
  end.

Definition parse_close (tok : Token) (stack : list Frame)
  : option (list Frame * Mode) :=
  match tok, stack with
  | TRBracket, FArray items :: below => complete (JArr (rev items)) below
  | TRBrace, FObject props None :: below => complete (JObj props) below
  | _, _ => None
  end.

Definition parse_step (stack : list Frame) (mode : Mode) (tok : Token)
  : option (list Frame * Mode) :=
  match mode with
  | MValue => parse_value_token tok stack
  | MValueOrClose =>
      match tok with
      | TRBracket => parse_close tok stack
      | _ => parse_value_token tok stack
      end
  | MKeyOrClose =>
      match tok with
      | TRBrace => parse_close tok stack
      | _ => parse_key_token tok stack
      end
  | MKey => parse_key_token tok stack
  | MColon =>
      match tok with
      | TColon => Some (stack, MValue)
      | _ => None
      end
  | MNext =>
      match tok, stack with
      | TComma, FArray _ :: _ => Some (stack, MValue)
      | TComma, FObject _ _ :: _ => Some (stack, MKey)
      | _, _ => parse_close tok stack
      end
  | MDone _ => None
  end.

Fixpoint parse_tokens (stack : list Frame) (mode : Mode) (toks : list Token)
  : option JsVal :=
  match toks with
  | [] =>
      match stack, mode with
      | [], MDone v => Some v
      | _, _ => None
      end
  | tok :: rest =>
      match parse_step stack mode tok with
      | Some (stack', mode') => parse_tokens stack' mode' rest
      | None => None
      end
  end.

Definition syntax_error : JsVal := new_Error "Unexpected token in JSON".

(** [JSON.parse(text)]: the value, or a thrown [SyntaxError]. *)
Definition JSON_parse (text : string) : Completion JsVal :=
  match lex LStart text with
  | Some toks =>
      match parse_tokens [] MValue toks with
      | Some v => Normal v
      | None => Throw syntax_error
      end
  | None => Throw syntax_error
  end.

(** The lexer and the parser over the first part of a text: the state
    they are left in, for what comes after. *)
Fixpoint lex_run (st : LexState) (text : string) : option (LexState * list Token) :=
  match text with
  | EmptyString => Some (st, [])
  | String c rest =>
      match lex_step st c with
      | Some (st', toks) =>
          match lex_run st' rest with
          | Some (st'', toks') => Some (st'', (toks ++ toks')%list)
          | None => None
          end
      | None => None
      end
  end.

Fixpoint parse_run (stack : list Frame) (mode : Mode) (toks : list Token)
  : option (list Frame * Mode) :=
  match toks with
  | [] => Some (stack, mode)
  | tok :: rest =>
      match parse_step stack mode tok with
      | Some (stack', mode') => parse_run stack' mode' rest
      | None => None
      end
  end.

(** The top-level value is complete, or a container is open. *)
Definition value_begun (stack : list Frame) (mode : Mode) : bool :=
  match mode, stack with
  | MDone _, _ => true
  | _, _ :: _ => true
  | _, [] => false
  end.

(** ** safeParseJSON *)

(** The longest prefix that ends in a closing brace: what [[\s\S]*}]
    matches, the star taking as much as it can. *)
Fixpoint upto_last_close (s : string) : option string :=
  match s with
  | EmptyString => None
  | String c rest =>
      match upto_last_close rest with
      | Some p => Some (String c p)
      | None => if Ascii.eqb c "}" then Some (String c EmptyString) else None
      end
  end.

(** [text.match(/{[\s\S]*}/)]: the match starts at the leftmost opening
    brace that has a closing brace after it, which is the first opening
    brace if any has, and extends to the last closing brace. [None] is the
    [null] of no match, [Some m] a match whose [[0]] is [m]. *)
Fixpoint match_brace_block (text : string) : option string :=
  match text with
  | EmptyString => None
  | String c rest =>
      if Ascii.eqb c "{" then
        match upto_last_close rest with
        | Some p => Some (String c p)
        | None => match_brace_block rest
        end
      else match_brace_block rest
  end.

Inductive ParseOutcome : Type :=
| Success (data : JsVal)                  (* [{ ok: true, data }] *)
| Failure (error : string) (raw : JsVal). (* [{ ok: false, error, raw }] *)

(** The string a value is, when [typeof] says it is one. *)
Definition string_of (v : JsVal) : string :=
  match v with
  | JStr s => s
  | _ => EmptyString
  end.

Definition safeParseJSON (text : JsVal) : Completion ParseOutcome :=
  if negb (truthy text) || negb (String.eqb (typeof text) "string")
  then Normal (Failure "No text to parse" JUndefined)
  else
    let s := string_of text in
    try_catch
      (match JSON_parse s with
       | Normal parsed => Normal (Success parsed)
       | Throw e => Throw e
       end)
      (fun _ =>
         match match_brace_block s with
         | Some m =>
             try_catch
               (match JSON_parse m with
                | Normal parsed => Normal (Success parsed)
                | Throw e => Throw e
                end)
               (fun _ => Normal (Failure "Found JSON-like block but failed to parse" (JStr m)))
         | None => Normal (Failure "Response is not valid JSON" (JStr s))
         end).

(** Writing JSON texts: the apostrophes of [s] stand for double quotes. *)
Fixpoint quoted (s : string) : string :=
  match s with
  | EmptyString => EmptyString
  | String c rest =>
      String (if Ascii.eqb c "'" then double_quote else c) (quoted rest)
  end.

(** ** The asynchronous handler *)

(** A computation that reads and extends the history, and ends in a value
    or a thrown value; [None] is a loop that ran out of fuel. *)
Definition Async (A : Type) : Type := History -> option (Completion A * History).

Definition ret {A} (a : A) : Async A := fun h => Some (Normal a, h).
Definition lift {A} (c : Completion A) : Async A := fun h => Some (c, h).
Definition emit (ev : Event) : Async unit := fun h => Some (Normal tt, ev :: h).

Definition bind {A B} (m : Async A) (k : A -> Async B) : Async B :=
  fun h =>
    match m h with
    | Some (Normal a, h') => k a h'
    | Some (Throw e, h') => Some (Throw e, h')
    | None => None
    end.

(** [try { m } catch (error) { handler }] *)
Definition catch {A} (m : Async A) (handler : JsVal -> Async A) : Async A :=
  fun h =>
    match m h with
    | Some (Normal a, h') => Some (Normal a, h')
    | Some (Throw e, h') => handler e h'
    | None => None
    end.

Notation "x <- m ;; k" := (bind m (fun x => k))
  (at level 100, m at next level, right associativity).

(** [res.status(code).json(body)]; [res.json(body)] answers 200. *)
Record Response : Type := {
  status : Z;
  body : JsVal
}.

(** The prompt sent to the remote call is a text. *)
Definition Prompt : Type := string.

(** *** Object.keys *)

(** The array index a property name is, if it is one: a decimal numeral
    without a leading zero, below [2^32 - 1]. *)
Definition array_index (name : string) : option N :=
  let cs := list_ascii_of_string name in
  match cs with
  | [] => None
  | c :: t =>
      if forallb is_digit cs && (negb (Ascii.eqb c "0") || negb (nonempty t)) then
        let n := digits_value 10 cs 0 in
        if (n <? 4294967295)%N then Some n else None
      else None
  end.

Fixpoint insert_index (k : N * string) (sorted : list (N * string)) : list (N * string) :=
  match sorted with
  | [] => [k]
  | k' :: rest =>
      if (fst k <=? fst k')%N then k :: sorted else k' :: insert_index k rest
  end.

Fixpoint split_keys (names : list string) : list (N * string) * list string :=
  match names with
  | [] => ([], [])
  | name :: rest =>
      let (indices, others) := split_keys rest in
      match array_index name with
      | Some n => (insert_index (n, name) indices, others)
      | None => (indices, name :: others)
      end
  end.

(** [Object.keys(v)]: the array indices in ascending order, then the other
    names in insertion order. *)
Definition Object_keys (v : JsVal) : list string :=
  match v with
  | JObj props =>
      let (indices, others) := split_keys (nodup string_dec (map fst props)) in
      (map snd indices ++ others)%list
  | JArr items => map index_name (seq 0 (List.length items))
  | JStr s => map index_name (seq 0 (String.length s))
  | _ => []
  end.

(** [haystack.includes(needle)] *)
Fixpoint includes (haystack needle : string) : bool :=
  String.prefix needle haystack
  || match haystack with
     | EmptyString => false
     | String _ rest => includes rest needle
     end.

(** ** POST /evaluate *)

(** The [TypeError] of [const { topic, question, answer } = req.body] for
    a body [v] that is [null] or [undefined]. *)
Definition cannot_destructure (v : JsVal) : JsVal :=
  new_Error ("Cannot destructure property 'topic' of 'req.body' as it is "
             ++ nullish_name v ++ ".").

(** [error?.status || error?.error?.code || error?.message] *)
Definition error_code (error : JsVal) : JsVal :=
  js_or (js_or (opt_chain error [Field "status"])
               (opt_chain error [Field "error"; Field "code"]))
        (opt_chain error [Field "message"]).

(** [code === 429 || code === "RESOURCE_EXHAUSTED" ||
     (typeof code === "string" && code.includes("overloaded"))] *)
Definition overloaded (code : JsVal) : bool :=
  strict_eq code (JNum 429)
  || strict_eq code (JStr "RESOURCE_EXHAUSTED")
  || (String.eqb (typeof code) "string" && includes (string_of code) "overloaded").

Definition overloaded_message : string :=
  "AI model is temporarily overloaded. Please try again in a few seconds.".

(** The [catch (error)] block of the handler. *)
Definition evaluate_catch (error : JsVal) : Response :=
  let code := error_code error in
  if overloaded code then
    {| status := 503;
       body := JObj [("success", JBool false);
                     ("error", JStr overloaded_message)] |}
  else
    {| status := 500;
       body := JObj [("success", JBool false);
                     ("error", js_coalesce (opt_chain error [Field "message"])
                                           (JStr "Server error"))] |}.

(** [!topic || !question || typeof answer === "undefined"], on the three
    properties destructured from [req.body]. *)
Definition missing_required (req_body : JsVal) : bool :=
  let topic := get req_body (Field "topic") in
  let question := get req_body (Field "question") in
  let answer := get req_body (Field "answer") in
  negb (truthy topic) || negb (truthy question)
  || String.eqb (typeof answer) "undefined".

(** The rest of the [try] block once the remote call has answered with
    [response]: extraction, then parsing. *)
Definition respond_to (response : JsVal) : Completion Response :=
  and_then (extractTextFromResponse response) (fun text =>
    if negb (truthy text) then
      Normal {| status := 502;
                body := JObj [("success", JBool false);
                              ("error", JStr "Could not extract text from model response");
                              ("debug", JObj [("topKeys",
                                 JArr (map JStr (firstn 20
                                   (Object_keys (js_or response (JObj []))))))])] |}
    else
      and_then (safeParseJSON text) (fun parsed =>
        match parsed with
        | Success data =>
            Normal {| status := 200;
                      body := JObj [("success", JBool true); ("evaluation", data)] |}
        | Failure error raw =>
            Normal {| status := 200;
                      body := JObj [("success", JBool false);
                                    ("error", JStr error);
                                    ("raw", js_coalesce raw text)] |}
        end)).

(** A value that is not an object or an array. *)
Definition primitive (v : JsVal) : bool :=
  match v with
  | JArr _ | JObj _ => false
  | _ => true
  end.

(** The template of the prompt, with the three texts in their places. *)
Definition prompt_text (topic question answer : string) : Prompt :=
  "
You are an expert interview evaluator.

Topic: " ++ topic ++ "
Question: " ++ question ++ "
Candidate Answer: " ++ answer ++ quoted "

Give JSON output with:
{
  'score': number (0-10),
  'feedback': 'string',
  'mistakes': ['point1', 'point2'],
  'missing_points': ['point1', 'point2'],
  'perfect_answer': 'string',
  'next_question': 'string'
}

Only respond in valid JSON.
".

(** The template literal: each of the three values is converted to a text
    where it stands, and a conversion that throws ends the evaluation. *)
Definition prompt_of (req_body : JsVal) : Completion Prompt :=
  and_then (ToString (get req_body (Field "topic"))) (fun topic =>
  and_then (ToString (get req_body (Field "question"))) (fun question =>
  and_then (ToString (get req_body (Field "answer"))) (fun answer =>
  Normal (prompt_text topic question answer)))).

Definition missing_fields_response : Response :=
  {| status := 400;
     body := JObj [("success", JBool false);
                   ("error", JStr "Missing required fields: topic, question, answer")] |}.

Section Evaluate.

(** [ai.models.generateContent({ model, contents: prompt })], the remote
    call, and the random source of the server. *)
Variable generateContent : Prompt -> History -> Completion JsVal.
Variable Math_random : History -> Q.

(** The [try] block of the handler, on [req.body]: destructuring, the
    validation, the prompt, the remote call under [withRetries] with its
    default options, and the answer. *)
Definition evaluate_try (req_body : JsVal) : Async Response :=
  _ <- lift (if nullish req_body then Throw (cannot_destructure req_body)
             else Normal tt) ;;
  if missing_required req_body then ret missing_fields_response
  else
    prompt <- lift (prompt_of req_body) ;;
    response <- withRetries (generateContent prompt) Math_random no_options ;;
    lift (respond_to response).

(** The handler: whatever the [try] block throws is logged and answered
    by the [catch] block. *)
Definition evaluate (req_body : JsVal) : Async Response :=
  catch (evaluate_try req_body)
        (fun error => _ <- emit (EvError error) ;; ret (evaluate_catch error)).

End Evaluate.

(** ** The specification's wording, for comparison with the code *)

(** The five response shapes of the text extractor, in priority order. *)
Definition spec_shapes (response : JsVal) : list JsVal :=
  [opt_chain response candidates_parts_text;
   opt_chain response candidates_content_text;
   opt_chain response output_content_text;
   (if String.eqb (typeof response) "string" then response else JUndefined);
   opt_chain response top_text].

(** The first non-empty match, [null] when there is none. *)
Fixpoint first_nonempty (matches : list JsVal) : JsVal :=
  match matches with
  | [] => JNull
  | v :: rest => if truthy v then v else first_nonempty rest
  end.

Definition spec_extractText (response : JsVal) : JsVal :=
  first_nonempty (spec_shapes response).

(** The text up to the closing brace that matches an opening brace already
    read, [depth] further braces being open. *)
Fixpoint upto_matching_close (depth : nat) (s : string) : option string :=
  match s with
  | EmptyString => None
  | String c rest =>
      if Ascii.eqb c "}" then
        match depth with
        | O => Some (String c EmptyString)
        | S d => option_map (String c) (upto_matching_close d rest)
        end
      else if Ascii.eqb c "{" then
        option_map (String c) (upto_matching_close (S depth) rest)
      else option_map (String c) (upto_matching_close depth rest)
  end.

(** The brace-delimited block of the glossary: from the first opening brace
    to the closing brace that matches it. *)
Fixpoint spec_brace_block (text : string) : option string :=
  match text with
  | EmptyString => None
  | String c rest =>
      if Ascii.eqb c "{" then option_map (String c) (upto_matching_close 0 rest)
      else spec_brace_block rest
  end.

(** A field of a request that is missing, or present and empty. *)
Definition missing_or_empty (v : JsVal) : bool :=
  match v with
  | JUndefined => true
  | JStr s => String.eqb s EmptyString
  | _ => false
  end.

(** [c] occurs in [s]. *)
Fixpoint occurs (c : ascii) (s : string) : bool :=
  match s with
  | EmptyString => false
  | String c' rest => Ascii.eqb c c' || occurs c rest
  end.

(** ** Sample operations, responses and requests *)

Definition rate_limited : JsVal := JObj [("status", JNum 429)].
Definition forbidden : JsVal :=
  JObj [("status", JNum 403); ("message", JStr "Forbidden")].

(** An operation that always fails with [err]. *)
Definition always_fails (err : JsVal) : History -> Completion JsVal :=
  fun _ => Throw err.

(** An operation that is rate limited [k] times and then answers [v]. *)
Definition fails_then (k : nat) (v : JsVal) : History -> Completion JsVal :=
  fun h => if (invocations h <? k)%nat then Throw rate_limited else Normal v.

Definition constant_random (r : Q) : History -> Q := fun _ => r.

(** A provider response whose first candidate carries [text]. *)
Definition candidate_response (text : JsVal) : JsVal :=
  JObj [("candidates",
         JArr [JObj [("content", JObj [("parts", JArr [JObj [("text", text)]])])]])].

Definition sample_request (answer : JsVal) : JsVal :=
  JObj [("topic", JStr "Java"); ("question", JStr "What is OOP?"); ("answer", answer)].

Definition sample_evaluation : string := quoted "{'score':7,'feedback':'ok'}".

(** A remote call that answers every prompt with [response], and one that
    fails every time with [err]. *)
Definition remote_answers (response : JsVal) : Prompt -> History -> Completion JsVal :=
  fun _ _ => Normal response.
Definition remote_fails (err : JsVal) : Prompt -> History -> Completion JsVal :=
  fun _ _ => Throw err.

(** The error of a provider whose model is overloaded: the status is 503,
    the word is in the message. *)
Definition service_unavailable : JsVal :=
  JObj [("status", JNum 503);
        ("message", JStr "The model is overloaded. Please try again later.")].

(** A request whose topic cannot be written out as text. *)
Definition unprintable_request : JsVal :=
  JObj [("topic", JObj [("toString", JNum 1)]);
        ("question", JStr "What is OOP?"); ("answer", JStr "Object.")].

(** A remote call that is rate limited [k] times and then fails with
    [err]. *)
Definition remote_fails_after (k : nat) (err : JsVal)
  : Prompt -> History -> Completion JsVal :=
  fun _ h => if (invocations h <? k)%nat then Throw rate_limited else Throw err.


(** The time waited so far, in milliseconds. *)
Definition total_wait (h : History) : Q := fold_right Qplus 0 (sleeps h).

(** ** The authentication and history routes *)

(** The calls a route makes to its collaborators (the database, [bcrypt],
    [jsonwebtoken], the console), most recent first. *)
Inductive Call : Type :=
| CFindUser (email : JsVal)                       (* [User.findOne({ email })] *)
| CHash (password : JsVal)                        (* [bcrypt.hash(password, 10)] *)
| CCreateUser (name email passwordHash : JsVal)   (* [User.create({ ... })] *)
| CCompare (password hash : JsVal)                (* [bcrypt.compare(password, hash)] *)
| CSign (userId : JsVal)                          (* [jwt.sign({ userId }, ...)] *)
| CFindSessions (user : JsVal)                    (* [Session.find({ user })...lean()] *)
| CCreateSession (user topic difficulty totalQuestions results : JsVal)
| CDeleteSessions (user : JsVal)                  (* [Session.deleteMany({ user })] *)
| CLogError (label : string) (error : JsVal).     (* [console.error(label, error)] *)

Definition Trace : Type := list Call.

(** The collaborators: what each call answers may depend on everything
    that was called before (the database changes), and each may throw. *)
Record Services : Type := {
  User_findOne : Trace -> JsVal -> Completion JsVal;
  User_create : Trace -> JsVal -> JsVal -> JsVal -> Completion JsVal;
  bcrypt_hash : Trace -> JsVal -> Completion JsVal;
  bcrypt_compare : Trace -> JsVal -> JsVal -> Completion JsVal;
  jwt_sign : Trace -> JsVal -> Completion JsVal;
  jwt_verify : string -> Completion JsVal;
  Session_find : Trace -> JsVal -> Completion JsVal;
  Session_create : Trace -> JsVal -> JsVal -> JsVal -> JsVal -> JsVal -> Completion JsVal;
  Session_deleteMany : Trace -> JsVal -> Completion JsVal
}.

(** A route: it extends the trace and ends in a value or a thrown value. *)
Definition Route (A : Type) : Type := Trace -> Completion A * Trace.

Definition done {A} (a : A) : Route A := fun t => (Normal a, t).
Definition settle {A} (c : Completion A) : Route A := fun t => (c, t).

(** A call to a collaborator: it is recorded, then answered. *)
Definition call {A} (c : Call) (answer : Trace -> Completion A) : Route A :=
  fun t => (answer t, c :: t).

Definition route_bind {A B} (m : Route A) (k : A -> Route B) : Route B :=
  fun t =>
    match m t with
    | (Normal a, t') => k a t'
    | (Throw e, t') => (Throw e, t')
    end.

Definition route_catch {A} (m : Route A) (handler : JsVal -> Route A) : Route A :=
  fun t =>
    match m t with
    | (Normal a, t') => (Normal a, t')
    | (Throw e, t') => handler e t'
    end.

Notation "x <~ m ;; k" := (route_bind m (fun x => k))
  (at level 100, m at next level, right associativity).

(** [res.status(code).json({ success: false, error })] *)
Definition failure (code : Z) (error : string) : Response :=
  {| status := code;
     body := JObj [("success", JBool false); ("error", JStr error)] |}.

(** *** authMiddleware *)

(** [s.slice(n)] for [n] within the string. *)
Fixpoint slice_from (n : nat) (s : string) : string :=
  match n, s with
  | O, _ => s
  | S n', String _ rest => slice_from n' rest
  | S _, EmptyString => EmptyString
  end.

(** What the middleware does with a request: it answers it, or it sets
    [req.userId] and calls [next()]. *)
Inductive Gate : Type :=
| Respond (res : Response)
| Next (userId : JsVal).

Definition not_a_function : JsVal := new_Error "header.startsWith is not a function".

Definition authMiddleware (S : Services) (authorization : JsVal) : Completion Gate :=
  let header := js_or authorization (JStr EmptyString) in
  match header with
  | JStr h =>
      let token :=
        if String.prefix "Bearer " h then JStr (slice_from 7 h) else JNull in
      if negb (truthy token) then Normal (Respond (failure 401 "Missing auth token"))
      else
        try_catch
          (and_then (jwt_verify S (string_of token)) (fun payload =>
           and_then (chain payload [Field "userId"]) (fun userId =>
           Normal (Next userId))))
          (fun _ => Normal (Respond (failure 401 "Invalid or expired token")))
  | _ => Throw not_a_function
  end.

(** A route behind the middleware: [app.get(path, authMiddleware, handler)]. *)
Definition behind_auth (S : Services) (authorization : JsVal)
           (handler : JsVal -> Route Response) : Route Response :=
  fun t =>
    match authMiddleware S authorization with
    | Normal (Respond res) => (Normal res, t)
    | Normal (Next userId) => handler userId t
    | Throw e => (Throw e, t)
    end.

(** *** POST /auth/register and POST /auth/login *)

(** [{ success: true, user: { id, name, email }, token }] *)
Definition session_opened (user token : JsVal) : Response :=
  {| status := 200;
     body := JObj [("success", JBool true);
                   ("user", JObj [("id", get user (Field "_id"));
                                  ("name", get user (Field "name"));
                                  ("email", get user (Field "email"))]);
                   ("token", token)] |}.

Definition register (S : Services) (req_body : JsVal) : Route Response :=
  route_catch
    (let fields := js_or req_body (JObj []) in
     let name := get fields (Field "name") in
     let email := get fields (Field "email") in
     let password := get fields (Field "password") in
     if negb (truthy name) || negb (truthy email) || negb (truthy password) then
       done (failure 400 "Name, email, and password are required")
     else
       existing <~ call (CFindUser email) (fun t => User_findOne S t email) ;;
       if truthy existing then done (failure 409 "Email already registered")
       else
         passwordHash <~ call (CHash password) (fun t => bcrypt_hash S t password) ;;
         user <~ call (CCreateUser name email passwordHash)
                      (fun t => User_create S t name email passwordHash) ;;
         userId <~ settle (chain user [Field "_id"]) ;;
         token <~ call (CSign userId) (fun t => jwt_sign S t userId) ;;
         done (session_opened user token))
    (fun err =>
       _ <~ call (CLogError "Register error:" err) (fun _ => Normal tt) ;;
       done (failure 500 "Registration failed")).

Definition login (S : Services) (req_body : JsVal) : Route Response :=
  route_catch
    (let fields := js_or req_body (JObj []) in
     let email := get fields (Field "email") in
     let password := get fields (Field "password") in
     if negb (truthy email) || negb (truthy password) then
       done (failure 400 "Email and password are required")
     else
       user <~ call (CFindUser email) (fun t => User_findOne S t email) ;;
       if negb (truthy user) then done (failure 401 "Invalid credentials")
       else
         let hash := get user (Field "passwordHash") in
         ok <~ call (CCompare password hash)
                    (fun t => bcrypt_compare S t password hash) ;;
         if negb (truthy ok) then done (failure 401 "Invalid credentials")
         else
           let userId := get user (Field "_id") in
           token <~ call (CSign userId) (fun t => jwt_sign S t userId) ;;
           done (session_opened user token))
    (fun err =>
       _ <~ call (CLogError "Login error:" err) (fun _ => Normal tt) ;;
       done (failure 500 "Login failed")).

(** *** The history routes *)

(** [Array.isArray(v)] *)
Definition Array_isArray (v : JsVal) : bool :=
  match v with
  | JArr _ => true
  | _ => false
  end.

Definition history_get (S : Services) (authorization : JsVal) : Route Response :=
  behind_auth S authorization (fun userId =>
    route_catch
      (sessions <~ call (CFindSessions userId) (fun t => Session_find S t userId) ;;
       done {| status := 200;
               body := JObj [("success", JBool true); ("sessions", sessions)] |})
      (fun err =>
         _ <~ call (CLogError "History fetch error:" err) (fun _ => Normal tt) ;;
         done (failure 500 "Failed to fetch history"))).

Definition history_post (S : Services) (authorization req_body : JsVal)
  : Route Response :=
  behind_auth S authorization (fun userId =>
    route_catch
      (let fields := js_or req_body (JObj []) in
       let topic := get fields (Field "topic") in
       let difficulty := get fields (Field "difficulty") in
       let totalQuestions := get fields (Field "totalQuestions") in
       let results := get fields (Field "results") in
       let stored := if Array_isArray results then results else JArr [] in
       session <~ call (CCreateSession userId topic difficulty totalQuestions stored)
                       (fun t => Session_create S t userId topic difficulty
                                                totalQuestions stored) ;;
       sessions <~ call (CFindSessions userId) (fun t => Session_find S t userId) ;;
       done {| status := 200;
               body := JObj [("success", JBool true); ("session", session);
                             ("sessions", sessions)] |})
      (fun err =>
         _ <~ call (CLogError "History save error:" err) (fun _ => Normal tt) ;;
         done (failure 500 "Failed to save session"))).

Definition history_delete (S : Services) (authorization : JsVal) : Route Response :=
  behind_auth S authorization (fun userId =>
    route_catch
      (_ <~ call (CDeleteSessions userId) (fun t => Session_deleteMany S t userId) ;;
       done {| status := 200; body := JObj [("success", JBool true)] |})
      (fun err =>
         _ <~ call (CLogError "History delete error:" err) (fun _ => Normal tt) ;;
         done (failure 500 "Failed to clear history"))).

(** The user a call to the sessions collection is about. *)
Definition session_call_user (c : Call) : option JsVal :=
  match c with
  | CFindSessions user => Some user
  | CCreateSession user _ _ _ _ => Some user
  | CDeleteSessions user => Some user
  | _ => None
  end.

(** The calls that reach the database. *)
Definition database_call (c : Call) : bool :=
  match c with
  | CFindUser _ | CCreateUser _ _ _ => true
  | CFindSessions _ | CCreateSession _ _ _ _ _ | CDeleteSessions _ => true
  | _ => false
  end.

(** Collaborators for the examples: one registered user, whose password
    hash is the password between brackets; a token is the word [token-]
    followed by nothing else, and verifies to that user. *)
Definition alice : JsVal :=
  JObj [("_id", JStr "u1"); ("name", JStr "Alice");
        ("email", JStr "alice@example.com"); ("passwordHash", JStr "[secret]")].

Definition sample_services : Services :=
  {| User_findOne := fun _ email =>
       Normal (if strict_eq email (JStr "alice@example.com") then alice else JNull);
     User_create := fun _ name email passwordHash =>
       Normal (JObj [("_id", JStr "u2"); ("name", name); ("email", email);
                     ("passwordHash", passwordHash)]);
     bcrypt_hash := fun _ password => Normal (JStr ("[" ++ string_of password ++ "]"));
     bcrypt_compare := fun _ password hash =>
       Normal (JBool (String.eqb ("[" ++ string_of password ++ "]") (string_of hash)));
     jwt_sign := fun _ _ => Normal (JStr "token-1");
     jwt_verify := fun token =>
       if String.eqb token "token-1" then Normal (JObj [("userId", JStr "u1")])
       else Throw (new_Error "invalid signature");
     Session_find := fun _ _ => Normal (JArr []);
     Session_create := fun _ user topic _ _ results =>
       Normal (JObj [("user", user); ("topic", topic); ("results", results)]);
     Session_deleteMany := fun _ _ => Normal (JObj [("deletedCount", JNum 0)]) |}.

(** ** The client: what it sends and what it does with an evaluation *)

(** The properties of the characters of a string, from index [i]. *)
Fixpoint string_chars (s : string) (i : nat) : list (string * JsVal) :=
  match s with
  | EmptyString => []
  | String c rest =>
      (index_name i, JStr (String c EmptyString)) :: string_chars rest (S i)
  end.

(** What the spread [{ ...v }] copies: the own enumerable properties. *)
Definition own_properties (v : JsVal) : list (string * JsVal) :=
  match v with
  | JObj props => props
  | JArr items => combine (map index_name (seq 0 (List.length items))) items
  | JStr s => string_chars s 0
  | _ => []
  end.

(** [Array.isArray(v) ? v : (v ? [v] : [])] *)
Definition as_points (v : JsVal) : JsVal :=
  if Array_isArray v then v else if truthy v then JArr [v] else JArr [].

Definition normalizeEval (ev : JsVal) : JsVal :=
  if negb (truthy ev) then JNull
  else
    JObj (set_prop "missing_points" (as_points (get ev (Field "missing_points")))
            (set_prop "mistakes" (as_points (get ev (Field "mistakes")))
               (own_properties ev))).

(** [v.slice(0, 3)]: arrays and strings have the method. *)
Definition slice_0_3 (v : JsVal) : Completion JsVal :=
  match v with
  | JArr items => Normal (JArr (firstn 3 items))
  | JStr s => Normal (JStr (substring 0 3 s))
  | _ => Throw (new_Error "norm.missing_points.slice is not a function")
  end.

Definition topWeaknesses (ev : JsVal) : Completion JsVal :=
  let norm := normalizeEval ev in
  if negb (truthy norm) then Normal (JArr [])
  else if negb (truthy (get norm (Field "missing_points"))) then Normal (JArr [])
  else slice_0_3 (get norm (Field "missing_points")).

(** [r.evaluation && typeof r.evaluation.score === "number"
     ? r.evaluation.score : null] *)
Definition score_or_null (r : JsVal) : Completion JsVal :=
  and_then (chain r [Field "evaluation"]) (fun evaluation =>
    if truthy evaluation
       && String.eqb (typeof (get evaluation (Field "score"))) "number"
    then Normal (get evaluation (Field "score"))
    else Normal JNull).

(** [results.map(f)] for an [f] that may throw. *)
Fixpoint map_completion (f : JsVal -> Completion JsVal) (items : list JsVal)
  : Completion (list JsVal) :=
  match items with
  | [] => Normal []
  | x :: rest =>
      and_then (f x) (fun y =>
      and_then (map_completion f rest) (fun ys => Normal (y :: ys)))
  end.

(** [Math.round(v)] for a number: the nearest integer, a half going up;
    an integer is exact in a double whenever the number it rounds is. *)
Definition Math_round (v : JsVal) : JsVal :=
  match v with
  | JNum q => JNum (inject_Z (Qfloor (q + (1 # 2))))
  | JInf negative => JInf negative
  | _ => JNaN
  end.

(** The scores that are left by [filter(Boolean)] are numbers, so the [+]
    of [reduce] is the addition of doubles, from 0 on, and so is the
    division by the length. *)
Definition calculateSessionScore (results : list JsVal) : Completion JsVal :=
  and_then (map_completion score_or_null results) (fun scores =>
    let numericScores := filter truthy scores in
    if (List.length numericScores =? 0)%nat then Normal (JNum 0)
    else
      let avg := Number_div (fold_left Number_add numericScores (JNum 0))
                            (List.length numericScores) in
      Normal (Math_round avg)).

(** [s.replace(/c/g, by)] for a single character [c]. *)
Fixpoint replace_char (c : ascii) (by_ : string) (s : string) : string :=
  match s with
  | EmptyString => EmptyString
  | String x rest =>
      if Ascii.eqb x c then by_ ++ replace_char c by_ rest
      else String x (replace_char c by_ rest)
  end.

Section EscapeHtml.

(** [String(v)], the conversion of the language. *)
Variable String_ : JsVal -> string.

Definition escapeHtml (s : JsVal) : string :=
  if negb (truthy s) && negb (strict_eq s (JNum 0)) then EmptyString
  else
    replace_char ">" "&gt;"
      (replace_char "<" "&lt;"
         (replace_char "&" "&amp;" (String_ s))).

End EscapeHtml.

(** The entity of a character, in one pass. *)
Definition html_entity (c : ascii) : string :=
  if Ascii.eqb c "&" then "&amp;"
  else if Ascii.eqb c "<" then "&lt;"
  else if Ascii.eqb c ">" then "&gt;"
  else String c EmptyString.

Fixpoint escape_each (s : string) : string :=
  match s with
  | EmptyString => EmptyString
  | String c rest => html_entity c ++ escape_each rest
  end.

(** The body [handleSubmitAnswer] posts to [/evaluate]. *)
Definition submit_payload (topic difficulty question transcript : JsVal) : JsVal :=
  JObj [("topic", topic); ("difficulty", difficulty); ("question", question);
        ("answer", js_or transcript (JStr "(no answer given)"))].

(** A session result with a score, for the examples. *)
Definition scored (score : JsVal) : JsVal :=
  JObj [("question", JStr "What is OOP?");
        ("evaluation", JObj [("score", score); ("feedback", JStr "ok")])].

(** * Properties *)

(** ** extractTextFromResponse *)

(** A property read through a chain whose optional reading is truthy is
    read without a [TypeError], and is that same value. *)
Lemma chain_of_opt_chain (ks : list Key) :
  forall v, truthy (opt_chain v ks) = true -> chain v ks = Normal (opt_chain v ks).
Proof.
  induction ks as [|k ks IH]; intros v Hv; simpl in *.
  - reflexivity.
  - destruct (nullish v); [discriminate | now apply IH].
Qed.

Ltac try_shape ks :=
  match goal with
  | |- context [truthy (opt_chain ?r ks)] =>
      let H := fresh "Hshape" in
      destruct (truthy (opt_chain r ks)) eqn:H;
      [ rewrite (chain_of_opt_chain ks r H) | ]
  end.

(** The [catch] of the extractor is dead code on plain data. *)
Lemma extractTextFromResponse_body_normal (response : JsVal) :
  exists v, extractTextFromResponse_body response = Normal v.
Proof.
  unfold extractTextFromResponse_body.
  try_shape candidates_parts_text; [eauto|].
  try_shape candidates_content_text; [eauto|].
  try_shape output_content_text; [eauto|].
  destruct (String.eqb (typeof response) "string"); [eauto|].
  try_shape top_text; eauto.
Qed.

Lemma typeof_string (v : JsVal) :
  String.eqb (typeof v) "string" = true -> exists s, v = JStr s.
Proof. destruct v; simpl; try discriminate; eauto. Qed.

(** The code returns a plain-string response before it looks at whether the
    string is empty; everywhere else it agrees with the first non-empty
    match of the five shapes. *)
Lemma extractTextFromResponse_shapes (response : JsVal) :
  extractTextFromResponse response =
  Normal (if strict_eq response (JStr EmptyString) then response
          else spec_extractText response).
Proof.
  destruct (strict_eq response (JStr EmptyString)) eqn:Hempty.
  - destruct response; simpl in Hempty; try discriminate.
    apply String.eqb_eq in Hempty; subst; reflexivity.
  - unfold extractTextFromResponse, extractTextFromResponse_body,
      spec_extractText, spec_shapes, first_nonempty.
    try_shape candidates_parts_text; [reflexivity|].
    try_shape candidates_content_text; [reflexivity|].
    try_shape output_content_text; [reflexivity|].
    destruct (String.eqb (typeof response) "string") eqn:Hty.
    + destruct (typeof_string _ Hty) as [s ->]. simpl in *.
      rewrite Hempty. reflexivity.
    + replace (truthy JUndefined) with false by reflexivity.
      try_shape top_text; reflexivity.
Qed.

(** C5 (as the code has it). The extractor tries the five shapes in the
    fixed order and never throws; its result is the first non-empty match,
    or [null] when there is none, except that a response that is a plain
    string is returned as it is even when it is the empty string.  The three
    examples of the specification hold. *)
Theorem extractText_priority :
  (forall response,
      extractTextFromResponse response
      = Normal (if strict_eq response (JStr EmptyString) then response
                else spec_extractText response))
  /\ extractTextFromResponse (candidate_response (JStr "X")) = Normal (JStr "X")
  /\ extractTextFromResponse (JObj []) = Normal JNull
  /\ extractTextFromResponse (JStr "X") = Normal (JStr "X").
Proof.
  split; [exact extractTextFromResponse_shapes|].
  repeat split; reflexivity.
Qed.

(** C5 as stated fails on the empty string: it is a plain string, so the
    code returns it, while no shape has a non-empty match and the claim
    asks for [null]. *)
Lemma extractText_empty_string_counterexample :
  extractTextFromResponse (JStr EmptyString) = Normal (JStr EmptyString)
  /\ spec_extractText (JStr EmptyString) = JNull
  /\ extractTextFromResponse (JStr EmptyString)
     <> Normal (spec_extractText (JStr EmptyString)).
Proof.
  repeat split; try reflexivity. discriminate.
Qed.

(** ** withRetries *)

Lemma js_lt_true (a b : Q) : js_lt a b = true <-> a < b.
Proof.
  unfold js_lt. rewrite negb_true_iff, <- not_true_iff_false, Qle_bool_iff.
  split; [apply Qnot_le_lt | apply Qlt_not_le].
Qed.

Lemma js_lt_false (a b : Q) : js_lt a b = false <-> b <= a.
Proof.
  unfold js_lt. rewrite negb_false_iff. apply Qle_bool_iff.
Qed.

(** One iteration of the loop, for each way the operation can settle. *)
Section LoopSteps.

Variable fn : History -> Completion JsVal.
Variable Math_random : History -> Q.
Variable options : RetryOptions.


Lemma loop_exit fuel attempt h :
  js_lt (inject_Z attempt) (retries_ options) = false ->
  retry_loop fn Math_random options fuel attempt h
  = Some (Throw retries_exhausted, h).
Proof.
  intros Hcond. destruct fuel; simpl; rewrite Hcond; reflexivity.
Qed.

Lemma loop_success fuel attempt h v :
  js_lt (inject_Z attempt) (retries_ options) = true ->
  fn h = Normal v ->
  retry_loop fn Math_random options (S fuel) attempt h
  = Some (Normal v, EvInvoke (Normal v) :: h).
Proof.
  intros Hcond Hfn. simpl. rewrite Hcond, Hfn. reflexivity.
Qed.

Lemma loop_fatal fuel attempt h err :
  js_lt (inject_Z attempt) (retries_ options) = true ->
  fn h = Throw err ->
  retryable (error_status err) = false ->
  retry_loop fn Math_random options (S fuel) attempt h
  = Some (Throw err, EvInvoke (Throw err) :: h).
Proof.
  intros Hcond Hfn Hfatal. simpl. rewrite Hcond, Hfn, Hfatal.
  reflexivity.
Qed.

Lemma loop_retry fuel attempt h err :
  js_lt (inject_Z attempt) (retries_ options) = true ->
  fn h = Throw err ->
  retryable (error_status err) = true ->
  retry_loop fn Math_random options (S fuel) attempt h
  = retry_loop fn Math_random options fuel (attempt + 1)%Z
      (after_retry Math_random options attempt err h).
Proof.
  intros Hcond Hfn Hretry. simpl. rewrite Hcond, Hfn, Hretry.
  reflexivity.
Qed.

Lemma invocations_after_retry attempt err h :
  invocations (after_retry Math_random options attempt err h) = S (invocations h).
Proof. reflexivity. Qed.

(** The iterations left never exceed [ceil(retries) - attempt]. *)
Lemma loop_total fuel :
  forall attempt h,
    (Qceiling (retries_ options) - attempt <= Z.of_nat fuel)%Z ->
    exists c h', retry_loop fn Math_random options fuel attempt h = Some (c, h').
Proof.
  induction fuel as [|fuel IH]; intros attempt h Hfuel.
  - exists (Throw retries_exhausted), h. apply loop_exit.
    apply js_lt_false.
    apply Qle_trans with (inject_Z (Qceiling (retries_ options))).
    + apply Qle_ceiling.
    + rewrite <- Zle_Qle. lia.
  - destruct (js_lt (inject_Z attempt) (retries_ options)) eqn:Hcond.
    + destruct (fn h) as [v|err] eqn:Hfn.
      * rewrite (loop_success _ _ _ _ Hcond Hfn). eauto.
      * destruct (retryable (error_status err)) eqn:Hretry.
        -- rewrite (loop_retry _ _ _ _ Hcond Hfn Hretry). apply IH. lia.
        -- rewrite (loop_fatal _ _ _ _ Hcond Hfn Hretry). eauto.
    + rewrite (loop_exit _ _ _ Hcond). eauto.
Qed.

(** [m] retryable failures in a row up to the budget: the loop makes
    exactly those [m] invocations and gives up. *)
Lemma loop_exhausts (budget : Z) (m : nat) :
  retries_ options == inject_Z budget ->
  forall fuel attempt h,
    (attempt + Z.of_nat m = budget)%Z ->
    (m <= fuel)%nat ->
    (forall h', (invocations h' < invocations h + m)%nat ->
                exists err, fn h' = Throw err /\ retryable (error_status err) = true) ->
    exists h', retry_loop fn Math_random options fuel attempt h
               = Some (Throw retries_exhausted, h')
               /\ invocations h' = (invocations h + m)%nat.
Proof.
  intros Hbudget. induction m as [|m IH]; intros fuel attempt h Hleft Hfuel Hfails.
  - exists h. split; [|lia]. apply loop_exit. apply js_lt_false.
    rewrite Hbudget, <- Zle_Qle. lia.
  - destruct fuel as [|fuel]; [lia|].
    assert (Hcond : js_lt (inject_Z attempt) (retries_ options) = true).
    { apply js_lt_true. rewrite Hbudget, <- Zlt_Qlt. lia. }
    destruct (Hfails h) as (err & Hfn & Hretry); [lia|].
    rewrite (loop_retry _ _ _ _ Hcond Hfn Hretry).
    destruct (IH fuel (attempt + 1)%Z (after_retry Math_random options attempt err h))
      as (h' & Hrun & Hcount).
    + lia.
    + lia.
    + intros h'' Hlt. apply Hfails.
      rewrite invocations_after_retry in Hlt. lia.
    + exists h'. split; [exact Hrun|].
      rewrite Hcount, invocations_after_retry. lia.
Qed.

(** [k] retryable failures within the budget, then a success: the loop
    returns the value of invocation [k + 1]. *)
Lemma loop_recovers (v : JsVal) (k : nat) :
  forall fuel attempt h,
    inject_Z (attempt + Z.of_nat k) < retries_ options ->
    (0 <= attempt)%Z ->
    (k < fuel)%nat ->
    (forall h', (invocations h' < invocations h + k)%nat ->
                exists err, fn h' = Throw err /\ retryable (error_status err) = true) ->
    (forall h', invocations h' = (invocations h + k)%nat -> fn h' = Normal v) ->
    exists h', retry_loop fn Math_random options fuel attempt h = Some (Normal v, h')
               /\ invocations h' = (invocations h + k + 1)%nat.
Proof.
  induction k as [|k IH]; intros fuel attempt h Hin Hpos Hfuel Hfails Hok.
  - destruct fuel as [|fuel]; [lia|].
    assert (Hcond : js_lt (inject_Z attempt) (retries_ options) = true).
    { apply js_lt_true. now rewrite Z.add_0_r in Hin. }
    rewrite (loop_success _ _ _ v Hcond) by (apply Hok; lia).
    eexists; split; [reflexivity|]. simpl. lia.
  - destruct fuel as [|fuel]; [lia|].
    assert (Hcond : js_lt (inject_Z attempt) (retries_ options) = true).
    { apply js_lt_true. eapply Qle_lt_trans; [|exact Hin].
      rewrite <- Zle_Qle. lia. }
    destruct (Hfails h) as (err & Hfn & Hretry); [lia|].
    rewrite (loop_retry _ _ _ _ Hcond Hfn Hretry).
    destruct (IH fuel (attempt + 1)%Z (after_retry Math_random options attempt err h))
      as (h' & Hrun & Hcount).
    + now replace (attempt + 1 + Z.of_nat k)%Z with (attempt + Z.of_nat (S k))%Z by lia.
    + lia.
    + lia.
    + intros h'' Hlt. apply Hfails.
      rewrite invocations_after_retry in Hlt. lia.
    + intros h'' Heq. apply Hok.
      rewrite invocations_after_retry in Heq. lia.
    + exists h'. split; [exact Hrun|].
      rewrite Hcount, invocations_after_retry. lia.
Qed.

End LoopSteps.

(** The jitter is a whole number of milliseconds from 0 to 199. *)
Lemma jitter_range (r : Q) :
  0 <= r -> r < 1 -> (0 <= Qfloor (r * 200) <= 199)%Z.
Proof.
  intros Hlo Hhi. split.
  - change 0%Z with (Qfloor (inject_Z 0)) at 1. apply Qfloor_resp_le.
    change (inject_Z 0) with (0 * 200). apply Qmult_le_compat_r; [exact Hlo|easy].
  - assert (Hlt : inject_Z (Qfloor (r * 200)) < inject_Z 200).
    { apply Qle_lt_trans with (r * 200); [apply Qfloor_le|].
      change (inject_Z 200) with (1 * 200). apply Qmult_lt_compat_r; [easy|exact Hhi]. }
    rewrite <- Zlt_Qlt in Hlt. lia.
Qed.

Section LoopWaits.

Variable fn : History -> Completion JsVal.
Variable Math_random : History -> Q.
Variable options : RetryOptions.
Hypothesis random_range : forall h, 0 <= Math_random h /\ Math_random h < 1.

(** What the loop adds to the timers and to the log: the wait after the
    failure of attempt [attempt + i] is the backoff of the incremented
    counter plus a jitter. *)
Lemma loop_waits fuel :
  forall attempt h c h',
    retry_loop fn Math_random options fuel attempt h = Some (c, h') ->
    exists waits,
      sleeps h' = (sleeps h ++ waits)%list
      /\ warned_attempts h' =
         (warned_attempts h
            ++ map (fun i => (attempt + 1 + Z.of_nat i)%Z) (seq 0 (List.length waits)))%list
      /\ forall i d, nth_error waits i = Some d ->
           exists j, (0 <= j <= 199)%Z
             /\ d = backoff_delay options (attempt + 1 + Z.of_nat i) + inject_Z j.
Proof.
  induction fuel as [|fuel IH]; intros attempt h c h' Hrun.
  - simpl in Hrun.
    destruct (js_lt (inject_Z attempt) (retries_ options)); [discriminate|].
    injection Hrun as <- <-. exists []. rewrite !app_nil_r.
    repeat split; intros [|i] d Hd; discriminate.
  - destruct (js_lt (inject_Z attempt) (retries_ options)) eqn:Hcond.
    2:{ rewrite (loop_exit _ _ _ _ _ _ Hcond) in Hrun. injection Hrun as <- <-.
        exists []. rewrite !app_nil_r.
        repeat split; intros [|i] d Hd; discriminate. }
    destruct (fn h) as [v|err] eqn:Hfn.
    { rewrite (loop_success _ _ _ _ _ _ _ Hcond Hfn) in Hrun.
      injection Hrun as <- <-. exists []. simpl. rewrite !app_nil_r.
      repeat split; intros [|i] d Hd; discriminate. }
    destruct (retryable (error_status err)) eqn:Hretry.
    2:{ rewrite (loop_fatal _ _ _ _ _ _ _ Hcond Hfn Hretry) in Hrun.
        injection Hrun as <- <-. exists []. simpl. rewrite !app_nil_r.
        repeat split; intros [|i] d Hd; discriminate. }
    rewrite (loop_retry _ _ _ _ _ _ _ Hcond Hfn Hretry) in Hrun.
    destruct (IH _ _ _ _ Hrun) as (waits & Hsleeps & Hwarn & Hwaits).
    set (r := Math_random (EvInvoke (Throw err) :: h)) in *.
    exists ((backoff_delay options (attempt + 1) + jitter_of r) :: waits).
    split; [|split].
    + rewrite Hsleeps. simpl. now rewrite <- app_assoc.
    + rewrite Hwarn. simpl. rewrite <- app_assoc. simpl.
      rewrite Z.add_0_r. do 2 f_equal.
      rewrite <- seq_shift, map_map. apply map_ext. intros i. lia.
    + intros [|i] d Hd; simpl in Hd.
      * injection Hd as <-. exists (Qfloor (r * 200)). split.
        -- apply jitter_range; apply random_range.
        -- rewrite Z.add_0_r. reflexivity.
      * destruct (Hwaits i d Hd) as (j & Hj & ->). exists j. split; [exact Hj|].
        do 2 f_equal. lia.
Qed.

End LoopWaits.

(** With a whole number of milliseconds for [minDelay] the rounding of
    [Math.floor] changes nothing. *)
Lemma whole_minDelay_no_rounding (options : RetryOptions) (m n : Z) :
  minDelay_ options == inject_Z m ->
  (1 <= n)%Z ->
  Math_floor (minDelay_ options * Math_pow 2 (n - 1))
  == minDelay_ options * Math_pow 2 (n - 1).
Proof.
  intros Hm Hn. unfold Math_floor, Math_pow.
  assert (Hprod : minDelay_ options * 2 ^ (n - 1) == inject_Z (m * 2 ^ (n - 1))).
  { rewrite inject_Z_mult. apply Qmult_comp; [exact Hm|].
    symmetry. apply (Zpower_Qpower 2). lia. }
  rewrite (Qfloor_comp _ _ Hprod), Qfloor_Z. symmetry. exact Hprod.
Qed.

(** The retryable statuses are the number 429 and the two strings. *)
Lemma retryable_iff (status : JsVal) :
  retryable status = true <->
  (exists q, status = JNum q /\ q == 429)
  \/ status = JStr "RESOURCE_EXHAUSTED"
  \/ status = JStr "TOO_MANY_REQUESTS".
Proof.
  unfold retryable. rewrite !orb_true_iff. split.
  - intros [[H|H]|H]; destruct status; simpl in H; try discriminate.
    + left. exists q. split; [reflexivity | now apply Qeq_bool_iff].
    + right; left. apply String.eqb_eq in H. now subst.
    + right; right. apply String.eqb_eq in H. now subst.
  - intros [(q & -> & Hq)|[->| ->]]; simpl; auto.
    left; left. now apply Qeq_bool_iff.
Qed.

(** The loop always comes to an end: [withRetries] settles. *)
Lemma withRetries_total fn Math_random options h :
  exists c h', withRetries fn Math_random options h = Some (c, h').
Proof.
  unfold withRetries. apply loop_total.
  destruct (Qceiling (retries_ options)); simpl; lia.
Qed.

(** C1. An operation that fails with a retryable status at each of its
    first [n] invocations, under a retry budget of [n]: [withRetries]
    invokes it exactly [n] times and then throws the terminal error, an
    [Error] whose message is "Model service overloaded. Retries
    exhausted." *)
Theorem withRetries_exhausts_budget
  (fn : History -> Completion JsVal) (Math_random : History -> Q)
  (options : RetryOptions) (h : History) (n : nat) :
  retries_ options == inject_Z (Z.of_nat n) ->
  (forall h', (invocations h' < invocations h + n)%nat ->
              exists err, fn h' = Throw err /\ retryable (error_status err) = true) ->
  exists h',
    withRetries fn Math_random options h
    = Some (Throw (JObj [("message",
                          JStr "Model service overloaded. Retries exhausted.")]), h')
    /\ invocations h' = (invocations h + n)%nat.
Proof.
  intros Hbudget Hfails. unfold withRetries.
  rewrite (Qceiling_comp _ _ Hbudget), Qceiling_Z, Nat2Z.id.
  apply (loop_exhausts fn Math_random options (Z.of_nat n) n Hbudget);
    [lia | lia | exact Hfails].
Qed.

Lemma withRetries_exhausts_budget_witness :
  retries_ no_options == inject_Z (Z.of_nat 4)
  /\ exists h',
       withRetries (always_fails rate_limited) (constant_random 0) no_options []
       = Some (Throw (JObj [("message",
                             JStr "Model service overloaded. Retries exhausted.")]), h')
       /\ invocations h' = 4%nat.
Proof.
  split; [reflexivity|].
  apply (withRetries_exhausts_budget
           (always_fails rate_limited) (constant_random 0) no_options [] 4).
  - reflexivity.
  - intros h' _. exists rate_limited. split; reflexivity.
Defined.

(** C2. An operation whose first invocation fails with a status that is
    not retryable: [withRetries] throws that same error, and all it has
    done is that one invocation: no timer, no second attempt. *)
Theorem withRetries_fatal_propagates
  (fn : History -> Completion JsVal) (Math_random : History -> Q)
  (options : RetryOptions) (h : History) (err : JsVal) :
  0 < retries_ options ->
  fn h = Throw err ->
  retryable (error_status err) = false ->
  withRetries fn Math_random options h
  = Some (Throw err, EvInvoke (Throw err) :: h).
Proof.
  intros Hbudget Hfn Hfatal. unfold withRetries.
  assert (Hceil : (0 < Qceiling (retries_ options))%Z).
  { rewrite Zlt_Qlt. eapply Qlt_le_trans; [exact Hbudget | apply Qle_ceiling]. }
  destruct (Z.to_nat (Qceiling (retries_ options))) as [|fuel] eqn:Hfuel; [lia|].
  apply loop_fatal; [|exact Hfn|exact Hfatal].
  apply js_lt_true. exact Hbudget.
Qed.

Lemma withRetries_fatal_propagates_witness :
  0 < retries_ no_options
  /\ retryable (error_status forbidden) = false
  /\ withRetries (always_fails forbidden) (constant_random 0) no_options []
     = Some (Throw forbidden, [EvInvoke (Throw forbidden)]).
Proof.
  split; [reflexivity|]. split; [reflexivity|].
  apply (withRetries_fatal_propagates
           (always_fails forbidden) (constant_random 0) no_options [] forbidden);
    reflexivity.
Defined.

(** C3. An operation that fails with a retryable status at each of its
    first [k] invocations, [k] below the retry budget, and then succeeds
    with [v]: [withRetries] returns [v], after [k + 1] invocations. *)
Theorem withRetries_recovers
  (fn : History -> Completion JsVal) (Math_random : History -> Q)
  (options : RetryOptions) (h : History) (v : JsVal) (k : nat) :
  inject_Z (Z.of_nat k) < retries_ options ->
  (forall h', (invocations h' < invocations h + k)%nat ->
              exists err, fn h' = Throw err /\ retryable (error_status err) = true) ->
  (forall h', invocations h' = (invocations h + k)%nat -> fn h' = Normal v) ->
  exists h',
    withRetries fn Math_random options h = Some (Normal v, h')
    /\ invocations h' = (invocations h + k + 1)%nat.
Proof.
  intros Hbudget Hfails Hok. unfold withRetries.
  apply (loop_recovers fn Math_random options v k); try assumption; try lia.
  assert (Hceil : (Z.of_nat k < Qceiling (retries_ options))%Z).
  { rewrite Zlt_Qlt. eapply Qlt_le_trans; [exact Hbudget | apply Qle_ceiling]. }
  lia.
Qed.

Lemma withRetries_recovers_witness :
  inject_Z (Z.of_nat 3) < retries_ no_options
  /\ exists h',
       withRetries (fails_then 3 (JStr "done")) (constant_random (1 # 2)) no_options []
       = Some (Normal (JStr "done"), h')
       /\ invocations h' = 4%nat.
Proof.
  split; [reflexivity|].
  apply (withRetries_recovers
           (fails_then 3 (JStr "done")) (constant_random (1 # 2)) no_options []
           (JStr "done") 3).
  - reflexivity.
  - intros h' Hlt. exists rate_limited. split; [|reflexivity].
    unfold fails_then. simpl in Hlt.
    apply Nat.ltb_lt in Hlt. rewrite Hlt. reflexivity.
  - intros h' Heq. unfold fails_then. simpl in Heq. rewrite Heq. reflexivity.
Defined.




(** ** safeParseJSON *)

Lemma upto_last_close_none (s : string) :
  upto_last_close s = None <-> occurs "}" s = false.
Proof.
  induction s as [|c s IH]; cbn [upto_last_close occurs].
  - tauto.
  - rewrite (Ascii.eqb_sym "}" c).
    destruct (upto_last_close s); destruct (Ascii.eqb c "}"); cbn [orb];
      try exact IH; split; intros H; try discriminate.
    apply IH in H. discriminate.
Qed.

Lemma upto_last_close_app (mid post : string) :
  occurs "}" post = false ->
  upto_last_close (mid ++ "}" ++ post) = Some (mid ++ "}").
Proof.
  intros Hpost. induction mid as [|c mid IH]; cbn [append upto_last_close].
  - apply upto_last_close_none in Hpost. rewrite Hpost, Ascii.eqb_refl. reflexivity.
  - cbn [append] in IH. rewrite IH. reflexivity.
Qed.

Lemma upto_last_close_some (s p : string) :
  upto_last_close s = Some p ->
  exists mid post,
    s = mid ++ "}" ++ post /\ occurs "}" post = false /\ p = mid ++ "}".
Proof.
  revert p. induction s as [|c s IH]; cbn [upto_last_close]; intros p Hp;
    [discriminate|].
  destruct (upto_last_close s) as [p'|] eqn:Hrest.
  - injection Hp as <-.
    destruct (IH p' eq_refl) as (mid & post & -> & Hpost & ->).
    exists (String c mid), post. auto.
  - destruct (Ascii.eqb c "}") eqn:Hc; [|discriminate].
    injection Hp as <-. apply Ascii.eqb_eq in Hc. subst c.
    exists EmptyString, s. repeat split. now apply upto_last_close_none.
Qed.

Lemma occurs_app (c : ascii) (a b : string) :
  occurs c (a ++ b) = occurs c a || occurs c b.
Proof.
  induction a as [|x a IH]; cbn [append occurs orb]; [reflexivity|].
  rewrite IH. apply orb_assoc.
Qed.

Lemma occurs_head (c : ascii) (s : string) : occurs c (String c s) = true.
Proof. cbn [occurs]. now rewrite Ascii.eqb_refl. Qed.

(** The match of the regular expression is leftmost (no opening brace
    before it) and longest (no closing brace after it). *)
Lemma match_brace_block_spec (text m : string) :
  match_brace_block text = Some m <->
  exists pre mid post,
    text = pre ++ "{" ++ mid ++ "}" ++ post
    /\ occurs "{" pre = false
    /\ occurs "}" post = false
    /\ m = "{" ++ mid ++ "}".
Proof.
  induction text as [|c text IH]; cbn [match_brace_block].
  - split; [discriminate|].
    intros (pre & mid & post & H & _). destruct pre; discriminate.
  - destruct (Ascii.eqb c "{") eqn:Hc.
    + apply Ascii.eqb_eq in Hc. subst c.
      destruct (upto_last_close text) as [p|] eqn:Hrest.
      * split.
        -- intros Hm. injection Hm as <-.
           destruct (upto_last_close_some _ _ Hrest) as (mid & post & -> & Hpost & ->).
           exists EmptyString, mid, post. auto.
        -- intros (pre & mid & post & Htext & Hpre & Hpost & ->).
           destruct pre as [|x pre]; cbn [append] in Htext.
           ++ injection Htext as ->.
              rewrite (upto_last_close_app _ _ Hpost) in Hrest.
              injection Hrest as <-. reflexivity.
           ++ injection Htext as <- _. rewrite occurs_head in Hpre. discriminate.
      * apply upto_last_close_none in Hrest. split.
        -- intros Hm. apply IH in Hm.
           destruct Hm as (pre & mid & post & -> & _).
           rewrite !occurs_app, occurs_head, !orb_true_r in Hrest. discriminate.
        -- intros (pre & mid & post & Htext & Hpre & Hpost & ->).
           destruct pre as [|x pre]; cbn [append] in Htext.
           ++ injection Htext as ->.
              rewrite occurs_app, occurs_head, orb_true_r in Hrest. discriminate.
           ++ injection Htext as <- _. rewrite occurs_head in Hpre. discriminate.
    + rewrite IH. split.
      * intros (pre & mid & post & -> & Hpre & Hpost & ->).
        exists (String c pre), mid, post. cbn [occurs append].
        rewrite Ascii.eqb_sym, Hc. auto.
      * intros (pre & mid & post & Htext & Hpre & Hpost & ->).
        destruct pre as [|x pre]; cbn [append] in Htext.
        -- injection Htext as -> _. rewrite Ascii.eqb_refl in Hc. discriminate.
        -- injection Htext as <- ->. cbn [occurs] in Hpre.
           apply orb_false_iff in Hpre. exists pre, mid, post. tauto.
Qed.

Lemma match_brace_block_nonempty (text m : string) :
  match_brace_block text = Some m -> truthy (JStr text) = true.
Proof. destruct text; [discriminate | reflexivity]. Qed.

Lemma truthy_string (s : string) : truthy (JStr s) = true <-> s <> EmptyString.
Proof.
  destruct s; simpl; split; intros H; congruence.
Qed.

(** On a non-empty string the parser is its three-step policy. *)
Lemma safeParseJSON_string (s : string) :
  s <> EmptyString ->
  safeParseJSON (JStr s) =
  match JSON_parse s with
  | Normal v => Normal (Success v)
  | Throw _ =>
      match match_brace_block s with
      | Some m =>
          match JSON_parse m with
          | Normal v => Normal (Success v)
          | Throw _ => Normal (Failure "Found JSON-like block but failed to parse" (JStr m))
          end
      | None => Normal (Failure "Response is not valid JSON" (JStr s))
      end
  end.
Proof.
  intros Hs. apply truthy_string in Hs. unfold safeParseJSON.
  rewrite Hs. cbn [negb orb typeof string_of].
  replace (String.eqb "string" "string") with true by reflexivity.
  cbn [negb]. unfold try_catch.
  destruct (JSON_parse s); [reflexivity|].
  destruct (match_brace_block s) as [m|]; [|reflexivity].
  destruct (JSON_parse m); reflexivity.
Qed.

Lemma safeParseJSON_no_text (text : JsVal) :
  truthy text = false \/ String.eqb (typeof text) "string" = false ->
  safeParseJSON text = Normal (Failure "No text to parse" JUndefined).
Proof.
  intros [H|H]; unfold safeParseJSON; rewrite H; cbn [negb orb];
    [|rewrite orb_true_r]; reflexivity.
Qed.

Lemma safeParseJSON_normal (text : JsVal) :
  exists outcome, safeParseJSON text = Normal outcome.
Proof.
  destruct (truthy text) eqn:Htruthy.
  2:{ rewrite safeParseJSON_no_text by auto. eauto. }
  destruct (String.eqb (typeof text) "string") eqn:Hty.
  2:{ rewrite safeParseJSON_no_text by auto. eauto. }
  destruct (typeof_string _ Hty) as [s ->].
  rewrite safeParseJSON_string by now apply truthy_string.
  destruct (JSON_parse s); eauto.
  destruct (match_brace_block s) as [m|]; eauto.
  destruct (JSON_parse m); eauto.
Qed.

(** C6. [safeParseJSON] never throws and always returns a [Success] or a
    [Failure]: "No text to parse" for an empty or non-string input; the
    parsed value when the whole text parses; otherwise, when the text has a
    brace block, the parsed value of the block or "Found JSON-like block
    but failed to parse" with the block; and "Response is not valid JSON"
    with the whole text when it has no brace block.  The two examples of
    the specification hold. *)
Theorem safeParseJSON_policy :
  (forall text, exists outcome, safeParseJSON text = Normal outcome)
  /\ (forall text,
        truthy text = false \/ String.eqb (typeof text) "string" = false ->
        safeParseJSON text = Normal (Failure "No text to parse" JUndefined))
  /\ (forall s v,
        s <> EmptyString -> JSON_parse s = Normal v ->
        safeParseJSON (JStr s) = Normal (Success v))
  /\ (forall s e m v,
        JSON_parse s = Throw e -> match_brace_block s = Some m ->
        JSON_parse m = Normal v ->
        safeParseJSON (JStr s) = Normal (Success v))
  /\ (forall s e m e',
        JSON_parse s = Throw e -> match_brace_block s = Some m ->
        JSON_parse m = Throw e' ->
        safeParseJSON (JStr s)
        = Normal (Failure "Found JSON-like block but failed to parse" (JStr m)))
  /\ (forall s e,
        s <> EmptyString -> JSON_parse s = Throw e ->
        match_brace_block s = None ->
        safeParseJSON (JStr s)
        = Normal (Failure "Response is not valid JSON" (JStr s)))
  /\ safeParseJSON
       (JStr (quoted "Here is the answer: {'score':5,'feedback':'fine'} Thanks!"))
     = Normal (Success (JObj [("score", JNum 5); ("feedback", JStr "fine")]))
  /\ safeParseJSON (JStr "no json here")
     = Normal (Failure "Response is not valid JSON" (JStr "no json here")).
Proof.
  split; [exact safeParseJSON_normal|].
  split; [exact safeParseJSON_no_text|].
  split.
  { intros s v Hs Hparse. now rewrite safeParseJSON_string, Hparse. }
  split.
  { intros s e m v Hparse Hblock Hm.
    rewrite safeParseJSON_string, Hparse, Hblock, Hm; [reflexivity|].
    apply truthy_string. exact (match_brace_block_nonempty _ _ Hblock). }
  split.
  { intros s e m e' Hparse Hblock Hm.
    rewrite safeParseJSON_string, Hparse, Hblock, Hm; [reflexivity|].
    apply truthy_string. exact (match_brace_block_nonempty _ _ Hblock). }
  split.
  { intros s e Hs Hparse Hblock.
    now rewrite safeParseJSON_string, Hparse, Hblock. }
  split; vm_compute; reflexivity.
Qed.

Lemma safeParseJSON_policy_witness :
  JSON_parse (quoted "Score: {'score':9} (final)") = Throw syntax_error
  /\ match_brace_block (quoted "Score: {'score':9} (final)")
     = Some (quoted "{'score':9}")
  /\ JSON_parse (quoted "{'score':9}") = Normal (JObj [("score", JNum 9)])
  /\ safeParseJSON (JStr (quoted "Score: {'score':9} (final)"))
     = Normal (Success (JObj [("score", JNum 9)])).
Proof.
  split; [vm_compute; reflexivity|].
  split; [vm_compute; reflexivity|].
  split; [vm_compute; reflexivity|].
  apply (proj1 (proj2 (proj2 (proj2 safeParseJSON_policy)))
           (quoted "Score: {'score':9} (final)") syntax_error
           (quoted "{'score':9}") (JObj [("score", JNum 9)]));
    vm_compute; reflexivity.
Defined.

(** *** No text goes on after a complete object *)

Lemma lex_app (s t : string) :
  forall st,
    lex st (s ++ t)
    = match lex_run st s with
      | Some (st', toks) => option_map (app toks) (lex st' t)
      | None => None
      end.
Proof.
  induction s as [|c s IH]; intros st; cbn [append lex lex_run].
  - destruct (lex st t); reflexivity.
  - destruct (lex_step st c) as [[st' toks]|]; [|reflexivity].
    rewrite IH. destruct (lex_run st' s) as [[st'' toks']|]; [|reflexivity].
    destruct (lex st'' t) as [toks''|]; cbn [option_map]; [|reflexivity].
    now rewrite app_assoc.
Qed.

Lemma lex_whole (s : string) :
  forall st,
    lex st s
    = match lex_run st s with
      | Some (st', toks) => option_map (app toks) (lex_end st')
      | None => None
      end.
Proof.
  induction s as [|c s IH]; intros st; cbn [lex lex_run].
  - destruct (lex_end st); reflexivity.
  - destruct (lex_step st c) as [[st' toks]|]; [|reflexivity].
    rewrite IH. destruct (lex_run st' s) as [[st'' toks']|]; [|reflexivity].
    destruct (lex_end st'') as [toks''|]; cbn [option_map]; [|reflexivity].
    now rewrite app_assoc.
Qed.

Lemma parse_tokens_app (a b : list Token) :
  forall stack mode,
    parse_tokens stack mode (a ++ b)
    = match parse_run stack mode a with
      | Some (stack', mode') => parse_tokens stack' mode' b
      | None => None
      end.
Proof.
  induction a as [|tok a IH]; intros stack mode; cbn [app parse_tokens parse_run].
  - reflexivity.
  - destruct (parse_step stack mode tok) as [[stack' mode']|]; [apply IH | reflexivity].
Qed.

Lemma close_then_tokens tok c st toks :
  close_then tok c = Some (st, toks) -> toks <> [].
Proof.
  unfold close_then. destruct tok; [|discriminate].
  destruct (lex_start c) as [[st' toks']|]; [|discriminate].
  intros H. injection H as <- <-. discriminate.
Qed.

(** A text that gives no token is blank: it has no closing brace. *)
Lemma lex_no_token (t : string) :
  forall st, lex st t = Some [] -> st = LStart /\ occurs "}" t = false.
Proof.
  induction t as [|c t IH]; intros st; cbn [lex occurs].
  - destruct st; cbn [lex_end]; intros H; try discriminate; auto.
    + destruct (number_token acc); discriminate.
    + destruct (word_token acc); discriminate.
  - destruct (lex_step st c) as [[st' toks]|] eqn:Hstep; [|discriminate].
    destruct (lex st' t) as [toks'|] eqn:Hrest; cbn [option_map]; [|discriminate].
    intros H. injection H as H. apply app_eq_nil in H. destruct H as [-> ->].
    destruct (IH st' Hrest) as [-> Hocc]. rewrite Hocc, orb_false_r.
    destruct st; cbn [lex_step] in Hstep.
    + split; [reflexivity|]. unfold lex_start in Hstep.
      destruct (is_ws c) eqn:Hws.
      * destruct (Ascii.eqb "}" c) eqn:Hc; [|reflexivity].
        apply Ascii.eqb_eq in Hc. subst c. discriminate Hws.
      * repeat match type of Hstep with
               | (if ?b then _ else _) = _ => destruct b; try discriminate Hstep
               end.
    + repeat match type of Hstep with
             | (if ?b then _ else _) = _ => destruct b; try discriminate Hstep
             end.
    + repeat match type of Hstep with
             | (if ?b then _ else _) = _ => destruct b; try discriminate Hstep
             end.
    + repeat match type of Hstep with
             | (if ?b then _ else _) = _ => destruct b; try discriminate Hstep
             end.
    + destruct (is_number_char c); [discriminate Hstep|].
      apply close_then_tokens in Hstep. congruence.
    + destruct (is_lower c); [discriminate Hstep|].
      apply close_then_tokens in Hstep. congruence.
Qed.

Lemma complete_begun v stack stack' mode' :
  complete v stack = Some (stack', mode') -> value_begun stack' mode' = true.
Proof.
  unfold complete. destruct stack as [|[items|props [k|]] below]; intros H;
    try discriminate; injection H as <- <-; reflexivity.
Qed.

(** Once a container is open the parser never comes back to where nothing
    has been read. *)
Lemma parse_step_begun stack mode tok stack' mode' :
  value_begun stack mode = true ->
  parse_step stack mode tok = Some (stack', mode') ->
  value_begun stack' mode' = true.
Proof.
  intros Hbegun Hstep.
  destruct mode; cbn [parse_step] in Hstep; try discriminate Hstep;
    destruct stack as [|frame below]; try discriminate Hbegun;
    destruct tok; cbn [parse_value_token parse_key_token parse_close] in Hstep;
    try discriminate Hstep;
    try (injection Hstep as <- <-; reflexivity);
    try (apply complete_begun in Hstep; exact Hstep);
    destruct frame as [items|props pending];
    try discriminate Hstep;
    try (injection Hstep as <- <-; reflexivity);
    try (apply complete_begun in Hstep; exact Hstep);
    destruct pending; try discriminate Hstep;
    try (injection Hstep as <- <-; reflexivity);
    try (apply complete_begun in Hstep; exact Hstep).
Qed.

Lemma parse_run_begun (toks : list Token) :
  forall stack mode stack' mode',
    value_begun stack mode = true ->
    parse_run stack mode toks = Some (stack', mode') ->
    value_begun stack' mode' = true.
Proof.
  induction toks as [|tok toks IH]; intros stack mode stack' mode' Hbegun Hrun;
    cbn [parse_run] in Hrun.
  - now injection Hrun as <- <-.
  - destruct (parse_step stack mode tok) as [[stack1 mode1]|] eqn:Hstep;
      [|discriminate].
    exact (IH _ _ _ _ (parse_step_begun _ _ _ _ _ Hbegun Hstep) Hrun).
Qed.

(** A single value does not end the text once a container is open. *)
Lemma value_token_does_not_end stack mode v w :
  value_begun stack mode = true ->
  parse_tokens stack mode [TValue v] = Some w -> False.
Proof.
  intros Hbegun Hparse. cbn [parse_tokens] in Hparse.
  destruct (parse_step stack mode (TValue v)) as [[stack' mode']|] eqn:Hstep;
    [|discriminate].
  destruct stack' as [|f s']; [|destruct mode'; discriminate].
  destruct mode; cbn [parse_step parse_value_token parse_key_token parse_close] in Hstep;
    try discriminate Hstep;
    destruct stack as [|[items|props [k|]] below]; try discriminate Hbegun;
    cbn [complete] in Hstep; discriminate Hstep.
Qed.

(** A text that starts with an opening brace and parses is complete:
    whatever follows it, a closing brace included, makes a text that does
    not parse. *)
Lemma no_text_after_object (rest t : string) (v : JsVal) :
  JSON_parse (String "{" rest) = Normal v ->
  occurs "}" t = true ->
  JSON_parse (String "{" rest ++ t) = Throw syntax_error.
Proof.
  unfold JSON_parse. intros Hparse Ht.
  rewrite lex_whole in Hparse. rewrite lex_app.
  destruct (lex_run LStart (String "{" rest)) as [[st toks]|] eqn:Hrun;
    [|reflexivity].
  assert (Hfirst : exists more, toks = TLBrace :: more).
  { cbn [lex_run lex_step] in Hrun.
    replace (lex_start "{") with (Some (LStart, [TLBrace])) in Hrun by reflexivity.
    destruct (lex_run LStart rest) as [[st' toks']|]; [|discriminate].
    injection Hrun as <- <-. eauto. }
  destruct Hfirst as [more ->].
  destruct (lex_end st) as [ending|] eqn:Hend; cbn [option_map] in Hparse;
    [|discriminate].
  rewrite parse_tokens_app in Hparse.
  destruct (lex st t) as [toks_t|] eqn:Hlex; cbn [option_map]; [|reflexivity].
  rewrite parse_tokens_app.
  destruct (parse_run [] MValue (TLBrace :: more)) as [[stack mode]|] eqn:Hprun;
    [|reflexivity].
  assert (Hbegun : value_begun stack mode = true).
  { cbn [parse_run parse_step parse_value_token] in Hprun.
    exact (parse_run_begun more [FObject [] None] MKeyOrClose stack mode eq_refl Hprun). }
  destruct st; cbn [lex_end] in Hend; try discriminate Hend.
  - injection Hend as <-. cbn [parse_tokens] in Hparse.
    destruct stack; [|destruct (parse_tokens _ _ _); discriminate || reflexivity].
    destruct mode; try discriminate Hparse.
    destruct toks_t as [|tok toks_t]; [|reflexivity].
    destruct (lex_no_token t LStart Hlex) as [_ Hocc]. congruence.
  - exfalso. unfold number_token in Hend.
    destruct (number_of_chars (rev acc)); cbn [option_map] in Hend; [|discriminate].
    injection Hend as <-.
    destruct (parse_tokens stack mode [TValue (to_double q)]) as [w|] eqn:Hp;
      [|discriminate].
    exact (value_token_does_not_end _ _ _ _ Hbegun Hp).
  - exfalso. unfold word_token in Hend.
    repeat match type of Hend with
           | context [if ?b then _ else _] => destruct b
           end; cbn [option_map] in Hend; try discriminate Hend;
      injection Hend as <-;
      match type of Hparse with
      | context [parse_tokens stack mode ?l] =>
          destruct (parse_tokens stack mode l) as [w|] eqn:Hp; [|discriminate]
      end;
      exact (value_token_does_not_end _ _ _ _ Hbegun Hp).
Qed.

Lemma append_associative (x y z : string) : (x ++ y) ++ z = x ++ (y ++ z).
Proof.
  induction x as [|c x IH]; cbn [append]; [reflexivity | now rewrite IH].
Qed.

(** An object followed by text with a closing brace in it: the candidate
    runs to the last of these braces, and neither the text nor the
    candidate parses. *)
Lemma object_with_stray_brace (rest prose : string) (v : JsVal) :
  JSON_parse ("{" ++ rest) = Normal v ->
  occurs "}" prose = true ->
  exists stray after,
    prose = stray ++ "}" ++ after
    /\ occurs "}" after = false
    /\ match_brace_block ("{" ++ rest ++ prose) = Some ("{" ++ rest ++ stray ++ "}")
    /\ safeParseJSON (JStr ("{" ++ rest ++ prose))
       = Normal (Failure "Found JSON-like block but failed to parse"
                   (JStr ("{" ++ rest ++ stray ++ "}"))).
Proof.
  intros Hparse Hprose.
  destruct (upto_last_close prose) as [p|] eqn:Hlast.
  2:{ apply upto_last_close_none in Hlast. congruence. }
  destruct (upto_last_close_some _ _ Hlast) as (stray & after & -> & Hafter & ->).
  exists stray, after. split; [reflexivity|]. split; [exact Hafter|].
  assert (Hblock : match_brace_block ("{" ++ rest ++ stray ++ "}" ++ after)
                   = Some ("{" ++ rest ++ stray ++ "}")).
  { apply match_brace_block_spec. exists EmptyString, (rest ++ stray), after.
    cbn [append]. rewrite !append_associative. auto. }
  split; [exact Hblock|].
  change ("{" ++ rest) with (String "{" rest) in Hparse.
  assert (Hwhole : JSON_parse ("{" ++ rest ++ stray ++ "}" ++ after)
                   = Throw syntax_error).
  { exact (no_text_after_object rest (stray ++ "}" ++ after) v Hparse Hprose). }
  assert (Hcandidate : JSON_parse ("{" ++ rest ++ stray ++ "}") = Throw syntax_error).
  { apply (no_text_after_object rest (stray ++ "}") v Hparse).
    rewrite occurs_app, occurs_head. apply orb_true_r. }
  rewrite safeParseJSON_string by discriminate.
  now rewrite Hwhole, Hblock, Hcandidate.
Qed.

(** C7 (as the code has it). When the whole text does not parse, the
    candidate [safeParseJSON] tries is the substring from the first opening
    brace to the last closing brace of the text; for every text where that
    substring parses, [safeParseJSON] returns [Success] of its value.  An
    object followed by prose with a closing brace in it is not recovered:
    the candidate runs to the last of these braces, and the result is the
    failure "Found JSON-like block but failed to parse" with the
    candidate. *)
Theorem greedy_brace_block :
  (forall text m,
      match_brace_block text = Some m <->
      exists pre mid post,
        text = pre ++ "{" ++ mid ++ "}" ++ post
        /\ occurs "{" pre = false
        /\ occurs "}" post = false
        /\ m = "{" ++ mid ++ "}")
  /\ (forall text e m v,
        JSON_parse text = Throw e ->
        match_brace_block text = Some m ->
        JSON_parse m = Normal v ->
        safeParseJSON (JStr text) = Normal (Success v))
  /\ (forall rest prose v,
        JSON_parse ("{" ++ rest) = Normal v ->
        occurs "}" prose = true ->
        exists stray after,
          prose = stray ++ "}" ++ after
          /\ occurs "}" after = false
          /\ match_brace_block ("{" ++ rest ++ prose)
             = Some ("{" ++ rest ++ stray ++ "}")
          /\ safeParseJSON (JStr ("{" ++ rest ++ prose))
             = Normal (Failure "Found JSON-like block but failed to parse"
                         (JStr ("{" ++ rest ++ stray ++ "}")))).
Proof.
  split; [exact match_brace_block_spec|]. split; [|exact object_with_stray_brace].
  intros text e m v Hparse Hblock Hm.
  rewrite safeParseJSON_string, Hparse, Hblock, Hm; [reflexivity|].
  apply truthy_string. exact (match_brace_block_nonempty _ _ Hblock).
Qed.

Lemma greedy_brace_block_witness :
  (JSON_parse (quoted "} {'a':1} oops {") = Throw syntax_error
   /\ match_brace_block (quoted "} {'a':1} oops {") = Some (quoted "{'a':1}")
   /\ JSON_parse (quoted "{'a':1}") = Normal (JObj [("a", JNum 1)])
   /\ safeParseJSON (JStr (quoted "} {'a':1} oops {"))
      = Normal (Success (JObj [("a", JNum 1)])))
  /\ (JSON_parse ("{" ++ quoted "'a':1}") = Normal (JObj [("a", JNum 1)])
      /\ occurs "}" " (see } below)" = true
      /\ exists stray after,
           " (see } below)" = stray ++ "}" ++ after
           /\ occurs "}" after = false
           /\ match_brace_block ("{" ++ quoted "'a':1}" ++ " (see } below)")
              = Some ("{" ++ quoted "'a':1}" ++ stray ++ "}")
           /\ safeParseJSON (JStr ("{" ++ quoted "'a':1}" ++ " (see } below)"))
              = Normal (Failure "Found JSON-like block but failed to parse"
                          (JStr ("{" ++ quoted "'a':1}" ++ stray ++ "}")))).
Proof.
  split.
  - split; [vm_compute; reflexivity|].
    split; [vm_compute; reflexivity|].
    split; [vm_compute; reflexivity|].
    apply (proj1 (proj2 greedy_brace_block)
             (quoted "} {'a':1} oops {") syntax_error
             (quoted "{'a':1}") (JObj [("a", JNum 1)]));
      vm_compute; reflexivity.
  - split; [vm_compute; reflexivity|]. split; [reflexivity|].
    apply (proj2 (proj2 greedy_brace_block)
             (quoted "'a':1}") " (see } below)" (JObj [("a", JNum 1)])).
    + vm_compute. reflexivity.
    + reflexivity.
Defined.

(** C7 as stated fails on an object followed by prose with a stray closing
    brace: the block that ends at the matching brace parses, but the code
    tries the block that ends at the last brace, which does not. *)
Lemma matching_brace_counterexample :
  JSON_parse (quoted "{'a':1} oops }") = Throw syntax_error
  /\ spec_brace_block (quoted "{'a':1} oops }") = Some (quoted "{'a':1}")
  /\ JSON_parse (quoted "{'a':1}") = Normal (JObj [("a", JNum 1)])
  /\ match_brace_block (quoted "{'a':1} oops }") = Some (quoted "{'a':1} oops }")
  /\ safeParseJSON (JStr (quoted "{'a':1} oops }"))
     = Normal (Failure "Found JSON-like block but failed to parse"
                 (JStr (quoted "{'a':1} oops }")))
  /\ safeParseJSON (JStr (quoted "{'a':1} oops }"))
     <> Normal (Success (JObj [("a", JNum 1)])).
Proof.
  repeat split; try (vm_compute; reflexivity).
  vm_compute. discriminate.
Qed.

(** ** POST /evaluate *)

Lemma evaluate_catch_status (error : JsVal) :
  status (evaluate_catch error)
  = if overloaded (error_code error) then 503%Z else 500%Z.
Proof.
  unfold evaluate_catch. destruct (overloaded (error_code error)); reflexivity.
Qed.

(** The terminal error of [withRetries] is an overload for the handler. *)
Lemma retries_exhausted_overloaded :
  overloaded (error_code retries_exhausted) = true.
Proof. reflexivity. Qed.

(** Once the remote call has answered, the handler answers too, with one
    of three shapes. *)
Lemma respond_to_cases (response : JsVal) :
  exists text,
    extractTextFromResponse response = Normal text
    /\ ((truthy text = false
         /\ exists debug,
              respond_to response
              = Normal {| status := 502;
                          body :=
                            JObj [("success", JBool false);
                                  ("error", JStr "Could not extract text from model response");
                                  ("debug", debug)] |})
        \/ (truthy text = true
            /\ exists data,
                 safeParseJSON text = Normal (Success data)
                 /\ respond_to response
                    = Normal {| status := 200;
                                body := JObj [("success", JBool true);
                                              ("evaluation", data)] |})
        \/ (truthy text = true
            /\ exists reason raw,
                 safeParseJSON text = Normal (Failure reason raw)
                 /\ respond_to response
                    = Normal {| status := 200;
                                body := JObj [("success", JBool false);
                                              ("error", JStr reason);
                                              ("raw", js_coalesce raw text)] |})).
Proof.
  unfold respond_to. rewrite extractTextFromResponse_shapes.
  eexists. split; [reflexivity|]. cbn [and_then].
  match goal with |- context [truthy ?t] => destruct (truthy t) eqn:Htext end;
    cbn [negb].
  - match goal with |- context [safeParseJSON ?t] =>
      destruct (safeParseJSON_normal t) as [[data|reason raw] Hparse]
    end; rewrite Hparse; cbn [and_then].
    + right; left. eauto.
    + right; right. eauto 6.
  - left. eauto.
Qed.

Lemma respond_to_status (response : JsVal) :
  exists res,
    respond_to response = Normal res
    /\ (status res = 200%Z \/ status res = 502%Z).
Proof.
  destruct (respond_to_cases response)
    as (text & _ & [(_ & debug & ->)|[(_ & data & _ & ->)|(_ & reason & raw & _ & ->)]]);
    eexists; split; try reflexivity; simpl; auto.
Qed.

(** What the handler does with the answer of the remote call, in the
    words of the three shapes. *)
Lemma respond_to_shape (response : JsVal) :
  exists text res,
    extractTextFromResponse response = Normal text
    /\ respond_to response = Normal res
    /\ match truthy text, safeParseJSON text with
       | false, _ =>
           exists debug,
             res = {| status := 502;
                      body := JObj [("success", JBool false);
                                    ("error", JStr "Could not extract text from model response");
                                    ("debug", debug)] |}
       | true, Normal (Success data) =>
           res = {| status := 200;
                    body := JObj [("success", JBool true); ("evaluation", data)] |}
       | true, Normal (Failure reason raw) =>
           res = {| status := 200;
                    body := JObj [("success", JBool false);
                                  ("error", JStr reason);
                                  ("raw", js_coalesce raw text)] |}
       | true, Throw _ => False
       end.
Proof.
  destruct (respond_to_cases response)
    as (text & Htext
        & [(Hfalsy & debug & Hres)
          |[(Htruthy & data & Hparse & Hres)
           |(Htruthy & reason & raw & Hparse & Hres)]]);
    exists text; eexists; (split; [exact Htext|]); (split; [exact Hres|]).
  - rewrite Hfalsy. eauto.
  - rewrite Htruthy, Hparse. reflexivity.
  - rewrite Htruthy, Hparse. reflexivity.
Qed.

(** The conversion of a value to a text throws nothing but its
    [TypeError]. *)
Lemma ToString_throws : forall v e, ToString v = Throw e -> e = cannot_convert.
Proof.
  fix IH 1. intros [ | |b|q|negative| |s|items|props] e; cbn [ToString];
    try discriminate.
  - induction items as [|x rest IHrest]; [discriminate|].
    intros Hjoin.
    destruct (nullish x) eqn:Hx; cbn [and_then] in Hjoin.
    + match type of Hjoin with
      | and_then ?j _ = _ => destruct j as [sr|e'] eqn:Hrest
      end; cbn [and_then] in Hjoin; [discriminate|].
      injection Hjoin as <-. now apply IHrest.
    + destruct (ToString x) as [sx|e'] eqn:Hsx; cbn [and_then] in Hjoin.
      * match type of Hjoin with
        | and_then ?j _ = _ => destruct j as [sr|e''] eqn:Hrest
        end; cbn [and_then] in Hjoin; [discriminate|].
        injection Hjoin as <-. now apply IHrest.
      * injection Hjoin as <-. exact (IH x e' Hsx).
  - destruct (has_own "toString" props); [|discriminate].
    intros H. now injection H as <-.
Qed.

(** A value that is not an object has a text. *)
Lemma ToString_primitive (v : JsVal) :
  primitive v = true -> exists s, ToString v = Normal s.
Proof. destruct v; cbn [primitive ToString]; intros H; try discriminate; eauto. Qed.

Lemma prompt_of_throws (req_body e : JsVal) :
  prompt_of req_body = Throw e -> e = cannot_convert.
Proof.
  unfold prompt_of. intros H.
  destruct (ToString (get req_body (Field "topic"))) as [t|e1] eqn:Ht;
    cbn [and_then] in H.
  2:{ injection H as <-. exact (ToString_throws _ _ Ht). }
  destruct (ToString (get req_body (Field "question"))) as [q|e2] eqn:Hq;
    cbn [and_then] in H.
  2:{ injection H as <-. exact (ToString_throws _ _ Hq). }
  destruct (ToString (get req_body (Field "answer"))) as [a|e3] eqn:Ha;
    cbn [and_then] in H; [discriminate|].
  injection H as <-. exact (ToString_throws _ _ Ha).
Qed.

(** A prompt is built exactly when the three values have a text. *)
Lemma prompt_of_normal (req_body : JsVal) (prompt : Prompt) :
  prompt_of req_body = Normal prompt <->
  exists topic question answer,
    ToString (get req_body (Field "topic")) = Normal topic
    /\ ToString (get req_body (Field "question")) = Normal question
    /\ ToString (get req_body (Field "answer")) = Normal answer
    /\ prompt = prompt_text topic question answer.
Proof.
  unfold prompt_of. split.
  - intros H.
    destruct (ToString (get req_body (Field "topic"))) as [t|e1];
      cbn [and_then] in H; [|discriminate].
    destruct (ToString (get req_body (Field "question"))) as [q|e2];
      cbn [and_then] in H; [|discriminate].
    destruct (ToString (get req_body (Field "answer"))) as [a|e3];
      cbn [and_then] in H; [|discriminate].
    injection H as <-. exists t, q, a. auto.
  - intros (t & q & a & -> & -> & -> & ->). reflexivity.
Qed.

Lemma prompt_of_primitives (req_body : JsVal) :
  primitive (get req_body (Field "topic")) = true ->
  primitive (get req_body (Field "question")) = true ->
  primitive (get req_body (Field "answer")) = true ->
  exists prompt, prompt_of req_body = Normal prompt.
Proof.
  intros Ht Hq Ha.
  destruct (ToString_primitive _ Ht) as [t Ht'].
  destruct (ToString_primitive _ Hq) as [q Hq'].
  destruct (ToString_primitive _ Ha) as [a Ha'].
  exists (prompt_text t q a). apply prompt_of_normal. exists t, q, a. auto.
Qed.

(** What the [catch] block answers to the [TypeError] of the prompt. *)
Lemma evaluate_catch_cannot_convert :
  evaluate_catch cannot_convert
  = {| status := 500;
       body := JObj [("success", JBool false);
                     ("error", JStr "Cannot convert object to primitive value")] |}.
Proof. reflexivity. Qed.

Section EvaluateFacts.

Variable generateContent : Prompt -> History -> Completion JsVal.
Variable Math_random : History -> Q.


(** A body that cannot be destructured goes to the [catch] block. *)
Lemma evaluate_no_body req_body h :
  nullish req_body = true ->
  evaluate generateContent Math_random req_body h
  = Some (Normal (evaluate_catch (cannot_destructure req_body)),
          EvError (cannot_destructure req_body) :: h).
Proof.
  intros Hbody.
  unfold evaluate, catch, evaluate_try, bind, lift. rewrite Hbody. reflexivity.
Qed.

(** A request that fails the validation is answered at once. *)
Lemma evaluate_rejected req_body h :
  nullish req_body = false ->
  missing_required req_body = true ->
  evaluate generateContent Math_random req_body h
  = Some (Normal missing_fields_response, h).
Proof.
  intros Hbody Hmissing.
  unfold evaluate, catch, evaluate_try, bind, lift. rewrite Hbody, Hmissing.
  reflexivity.
Qed.

(** A request whose prompt cannot be built goes to the [catch] block
    before the remote call. *)
Lemma evaluate_no_prompt req_body h e :
  nullish req_body = false ->
  missing_required req_body = false ->
  prompt_of req_body = Throw e ->
  evaluate generateContent Math_random req_body h
  = Some (Normal (evaluate_catch e), EvError e :: h).
Proof.
  intros Hbody Hvalid Hprompt.
  unfold evaluate, catch, evaluate_try, bind, lift.
  rewrite Hbody, Hvalid, Hprompt. reflexivity.
Qed.

(** A request that passes the validation and has a prompt is answered from
    the outcome of the remote call. *)
Lemma evaluate_validated req_body prompt h :
  nullish req_body = false ->
  missing_required req_body = false ->
  prompt_of req_body = Normal prompt ->
  evaluate generateContent Math_random req_body h
  = match withRetries (generateContent prompt) Math_random no_options h with
    | Some (Normal response, h1) =>
        match respond_to response with
        | Normal res => Some (Normal res, h1)
        | Throw error => Some (Normal (evaluate_catch error), EvError error :: h1)
        end
    | Some (Throw error, h1) =>
        Some (Normal (evaluate_catch error), EvError error :: h1)
    | None => None
    end.
Proof.
  intros Hbody Hvalid Hprompt.
  unfold evaluate, catch, evaluate_try, bind, lift.
  rewrite Hbody, Hvalid, Hprompt.
  destruct (withRetries _ _ _ h) as [[[response|error] h1]|]; reflexivity.
Qed.

End EvaluateFacts.

(** The loop only adds to the history, and a loop that is entered invokes
    the operation. *)
Lemma loop_invocations_mono fn Math_random options fuel :
  forall attempt h c h',
    retry_loop fn Math_random options fuel attempt h = Some (c, h') ->
    (invocations h <= invocations h')%nat.
Proof.
  induction fuel as [|fuel IH]; intros attempt h c h' Hrun.
  - simpl in Hrun. destruct (js_lt _ _); [discriminate|].
    injection Hrun as <- <-. lia.
  - destruct (js_lt (inject_Z attempt) (retries_ options)) eqn:Hcond.
    2:{ rewrite (loop_exit _ _ _ _ _ _ Hcond) in Hrun. injection Hrun as <- <-. lia. }
    destruct (fn h) as [v|err] eqn:Hfn.
    { rewrite (loop_success _ _ _ _ _ _ _ Hcond Hfn) in Hrun.
      injection Hrun as <- <-. simpl. lia. }
    destruct (retryable (error_status err)) eqn:Hretry.
    2:{ rewrite (loop_fatal _ _ _ _ _ _ _ Hcond Hfn Hretry) in Hrun.
        injection Hrun as <- <-. simpl. lia. }
    rewrite (loop_retry _ _ _ _ _ _ _ Hcond Hfn Hretry) in Hrun.
    apply IH in Hrun. rewrite invocations_after_retry in Hrun. lia.
Qed.

Lemma withRetries_invokes fn Math_random options h c h' :
  0 < retries_ options ->
  withRetries fn Math_random options h = Some (c, h') ->
  (invocations h + 1 <= invocations h')%nat.
Proof.
  intros Hbudget Hrun. unfold withRetries in Hrun.
  assert (Hceil : (0 < Qceiling (retries_ options))%Z).
  { rewrite Zlt_Qlt. eapply Qlt_le_trans; [exact Hbudget | apply Qle_ceiling]. }
  destruct (Z.to_nat (Qceiling (retries_ options))) as [|fuel] eqn:Hfuel; [lia|].
  assert (Hcond : js_lt (inject_Z 0) (retries_ options) = true)
    by now apply js_lt_true.
  destruct (fn h) as [v|err] eqn:Hfn.
  { rewrite (loop_success _ _ _ _ _ _ _ Hcond Hfn) in Hrun.
    injection Hrun as <- <-. simpl. lia. }
  destruct (retryable (error_status err)) eqn:Hretry.
  2:{ rewrite (loop_fatal _ _ _ _ _ _ _ Hcond Hfn Hretry) in Hrun.
      injection Hrun as <- <-. simpl. lia. }
  rewrite (loop_retry _ _ _ _ _ _ _ Hcond Hfn Hretry) in Hrun.
  apply loop_invocations_mono in Hrun.
  rewrite invocations_after_retry in Hrun. lia.
Qed.

(** Whatever the fuel, the loop invokes the operation no more often than
    its condition [attempt < retries] lets it. *)
Lemma loop_attempt_bound fn Math_random options fuel :
  forall attempt h c h',
    retry_loop fn Math_random options fuel attempt h = Some (c, h') ->
    (Z.of_nat (invocations h')
     <= Z.of_nat (invocations h)
        + Z.max 0 (Qceiling (retries_ options) - attempt))%Z.
Proof.
  induction fuel as [|fuel IH]; intros attempt h c h' Hrun.
  - simpl in Hrun. destruct (js_lt _ _); [discriminate|].
    injection Hrun as <- <-. lia.
  - destruct (js_lt (inject_Z attempt) (retries_ options)) eqn:Hcond.
    2:{ rewrite (loop_exit _ _ _ _ _ _ Hcond) in Hrun. injection Hrun as <- <-. lia. }
    assert (Hroom : (attempt < Qceiling (retries_ options))%Z).
    { rewrite Zlt_Qlt. apply js_lt_true in Hcond.
      eapply Qlt_le_trans; [exact Hcond | apply Qle_ceiling]. }
    destruct (fn h) as [v|err] eqn:Hfn.
    { rewrite (loop_success _ _ _ _ _ _ _ Hcond Hfn) in Hrun.
      injection Hrun as <- <-. simpl invocations. lia. }
    destruct (retryable (error_status err)) eqn:Hretry.
    2:{ rewrite (loop_fatal _ _ _ _ _ _ _ Hcond Hfn Hretry) in Hrun.
        injection Hrun as <- <-. simpl invocations. lia. }
    rewrite (loop_retry _ _ _ _ _ _ _ Hcond Hfn Hretry) in Hrun.
    apply IH in Hrun. rewrite invocations_after_retry in Hrun. lia.
Qed.

(** How the loop ends: on an invocation, with what that invocation
    returned or with its error, which is not retryable; or by giving up,
    when the invocations made have used up the budget. *)
Lemma loop_ends fn Math_random options fuel :
  forall attempt h c h',
    retry_loop fn Math_random options fuel attempt h = Some (c, h') ->
    (exists h0,
        h' = EvInvoke c :: h0 /\ fn h0 = c
        /\ match c with
           | Normal _ => True
           | Throw err => retryable (error_status err) = false
           end)
    \/ (c = Throw retries_exhausted
        /\ retries_ options
           <= inject_Z (attempt + (Z.of_nat (invocations h') - Z.of_nat (invocations h)))).
Proof.
  induction fuel as [|fuel IH]; intros attempt h c h' Hrun.
  - simpl in Hrun.
    destruct (js_lt (inject_Z attempt) (retries_ options)) eqn:Hcond; [discriminate|].
    injection Hrun as <- <-. right. split; [reflexivity|].
    apply js_lt_false in Hcond.
    replace (attempt + (Z.of_nat (invocations h) - Z.of_nat (invocations h)))%Z
      with attempt by lia.
    exact Hcond.
  - destruct (js_lt (inject_Z attempt) (retries_ options)) eqn:Hcond.
    2:{ rewrite (loop_exit _ _ _ _ _ _ Hcond) in Hrun. injection Hrun as <- <-.
        right. split; [reflexivity|]. apply js_lt_false in Hcond.
        replace (attempt + (Z.of_nat (invocations h) - Z.of_nat (invocations h)))%Z
          with attempt by lia.
        exact Hcond. }
    destruct (fn h) as [v|err] eqn:Hfn.
    { rewrite (loop_success _ _ _ _ _ _ _ Hcond Hfn) in Hrun.
      injection Hrun as <- <-. left. exists h. auto. }
    destruct (retryable (error_status err)) eqn:Hretry.
    2:{ rewrite (loop_fatal _ _ _ _ _ _ _ Hcond Hfn Hretry) in Hrun.
        injection Hrun as <- <-. left. exists h. auto. }
    rewrite (loop_retry _ _ _ _ _ _ _ Hcond Hfn Hretry) in Hrun.
    destruct (IH _ _ _ _ Hrun) as [Hlast|[-> Hcount]]; [now left|].
    right. split; [reflexivity|].
    rewrite invocations_after_retry in Hcount.
    replace (attempt + (Z.of_nat (invocations h') - Z.of_nat (invocations h)))%Z
      with (attempt + 1 + (Z.of_nat (invocations h') - Z.of_nat (S (invocations h))))%Z
      by lia.
    exact Hcount.
Qed.

(** With the default budget, giving up comes after exactly four
    invocations. *)
Lemma default_gives_up_after_four fn Math_random h c h' :
  withRetries fn Math_random no_options h = Some (c, h') ->
  (exists h0,
      h' = EvInvoke c :: h0 /\ fn h0 = c
      /\ match c with
         | Normal _ => True
         | Throw err => retryable (error_status err) = false
         end)
  \/ (c = Throw retries_exhausted /\ invocations h' = (invocations h + 4)%nat).
Proof.
  intros Hrun. unfold withRetries in Hrun.
  pose proof (loop_attempt_bound _ _ _ _ _ _ _ _ Hrun) as Hupper.
  pose proof (loop_invocations_mono _ _ _ _ _ _ _ _ Hrun) as Hmono.
  destruct (loop_ends _ _ _ _ _ _ _ _ Hrun) as [Hlast|[-> Hlower]]; [now left|].
  right. split; [reflexivity|].
  change (Qceiling (retries_ no_options)) with 4%Z in Hupper.
  change (retries_ no_options) with (inject_Z 4) in Hlower.
  rewrite <- Zle_Qle in Hlower. lia.
Qed.

(** [k] retryable failures within the budget, then an invocation that
    settles the call, with a value or with an error that is not retryable:
    the loop ends on that invocation. *)
Lemma loop_settles fn Math_random options (c : Completion JsVal) (k : nat) :
  match c with
  | Normal _ => True
  | Throw err => retryable (error_status err) = false
  end ->
  forall fuel attempt h,
    inject_Z (attempt + Z.of_nat k) < retries_ options ->
    (0 <= attempt)%Z ->
    (k < fuel)%nat ->
    (forall h', (invocations h' < invocations h + k)%nat ->
                exists err, fn h' = Throw err /\ retryable (error_status err) = true) ->
    (forall h', invocations h' = (invocations h + k)%nat -> fn h' = c) ->
    exists h0,
      retry_loop fn Math_random options fuel attempt h = Some (c, EvInvoke c :: h0)
      /\ invocations h0 = (invocations h + k)%nat.
Proof.
  intros Hclass.
  induction k as [|k IH]; intros fuel attempt h Hin Hpos Hfuel Hfails Hend.
  - destruct fuel as [|fuel]; [lia|].
    assert (Hcond : js_lt (inject_Z attempt) (retries_ options) = true).
    { apply js_lt_true. now rewrite Z.add_0_r in Hin. }
    assert (Hfn : fn h = c) by (apply Hend; lia).
    exists h. split; [|lia].
    destruct c as [v|err].
    + exact (loop_success _ _ _ _ _ _ _ Hcond Hfn).
    + exact (loop_fatal _ _ _ _ _ _ _ Hcond Hfn Hclass).
  - destruct fuel as [|fuel]; [lia|].
    assert (Hcond : js_lt (inject_Z attempt) (retries_ options) = true).
    { apply js_lt_true. eapply Qle_lt_trans; [|exact Hin].
      rewrite <- Zle_Qle. lia. }
    destruct (Hfails h) as (err & Hfn & Hretry); [lia|].
    rewrite (loop_retry _ _ _ _ _ _ _ Hcond Hfn Hretry).
    destruct (IH fuel (attempt + 1)%Z (after_retry Math_random options attempt err h))
      as (h0 & Hrun & Hcount).
    + now replace (attempt + 1 + Z.of_nat k)%Z with (attempt + Z.of_nat (S k))%Z by lia.
    + lia.
    + lia.
    + intros h'' Hlt. apply Hfails.
      rewrite invocations_after_retry in Hlt. lia.
    + intros h'' Heq. apply Hend.
      rewrite invocations_after_retry in Heq. lia.
    + exists h0. split; [exact Hrun|].
      rewrite Hcount, invocations_after_retry. lia.
Qed.

Lemma overloaded_iff (code : JsVal) :
  overloaded code = true <->
  (exists q, code = JNum q /\ q == 429)
  \/ code = JStr "RESOURCE_EXHAUSTED"
  \/ (exists s, code = JStr s /\ includes s "overloaded" = true).
Proof.
  unfold overloaded. rewrite !orb_true_iff, andb_true_iff. split.
  - intros [[H|H]|[Hty H]]; destruct code; simpl in *; try discriminate.
    + left. exists q. split; [reflexivity | now apply Qeq_bool_iff].
    + right; left. apply String.eqb_eq in H. now subst.
    + right; right. eauto.
  - intros [(q & -> & Hq)|[->|(s & -> & Hs)]]; simpl; auto.
    left; left. now apply Qeq_bool_iff.
Qed.

(** The code the [catch] block tests is the first truthy one of the status,
    the code of the inner error and the message. *)
Lemma error_code_first_truthy (error : JsVal) :
  error_code error
  = if truthy (opt_chain error [Field "status"])
    then opt_chain error [Field "status"]
    else if truthy (opt_chain error [Field "error"; Field "code"])
         then opt_chain error [Field "error"; Field "code"]
         else opt_chain error [Field "message"].
Proof.
  unfold error_code, js_or.
  destruct (truthy (opt_chain error [Field "status"])) eqn:Hs;
    repeat (rewrite ?Hs; cbv beta iota); reflexivity.
Qed.

(** Every request gets a response, with one of five status codes. *)
Lemma evaluate_total generateContent Math_random req_body h :
  exists res h',
    evaluate generateContent Math_random req_body h = Some (Normal res, h')
    /\ (status res = 200 \/ status res = 400 \/ status res = 502
        \/ status res = 503 \/ status res = 500)%Z.
Proof.
  assert (Hcatch : forall error,
             (status (evaluate_catch error) = 200 \/ status (evaluate_catch error) = 400
              \/ status (evaluate_catch error) = 502
              \/ status (evaluate_catch error) = 503
              \/ status (evaluate_catch error) = 500)%Z).
  { intros error. rewrite evaluate_catch_status.
    destruct (overloaded (error_code error)); auto. }
  destruct (nullish req_body) eqn:Hbody.
  { rewrite evaluate_no_body by assumption. eauto. }
  destruct (missing_required req_body) eqn:Hvalid.
  { rewrite evaluate_rejected by assumption. do 2 eexists. split; [reflexivity|].
    simpl. auto. }
  destruct (prompt_of req_body) as [prompt|e] eqn:Hprompt.
  2:{ rewrite (evaluate_no_prompt _ _ _ _ _ Hbody Hvalid Hprompt). eauto. }
  rewrite (evaluate_validated _ _ _ _ _ Hbody Hvalid Hprompt).
  destruct (withRetries_total (generateContent prompt)
              Math_random no_options h) as ([response|error] & h1 & ->).
  - destruct (respond_to_status response) as (res & -> & Hstatus).
    do 2 eexists. split; [reflexivity|]. tauto.
  - eauto.
Qed.

(** After [k] rate limits, [k] below four, the remote call settles: the
    handler answers from what that last invocation did. *)
Lemma evaluate_settled generateContent Math_random req_body prompt h
      (k : nat) (outcome : Completion JsVal) :
  nullish req_body = false ->
  missing_required req_body = false ->
  prompt_of req_body = Normal prompt ->
  (k < 4)%nat ->
  (forall h0, (invocations h0 < invocations h + k)%nat ->
              exists err, generateContent prompt h0 = Throw err
                          /\ retryable (error_status err) = true) ->
  (forall h0, invocations h0 = (invocations h + k)%nat ->
              generateContent prompt h0 = outcome) ->
  match outcome with
  | Normal _ => True
  | Throw error => retryable (error_status error) = false
  end ->
  exists h0,
    invocations h0 = (invocations h + k)%nat
    /\ evaluate generateContent Math_random req_body h
       = match outcome with
         | Normal response =>
             match respond_to response with
             | Normal res => Some (Normal res, EvInvoke outcome :: h0)
             | Throw error =>
                 Some (Normal (evaluate_catch error),
                       EvError error :: EvInvoke outcome :: h0)
             end
         | Throw error =>
             Some (Normal (evaluate_catch error),
                   EvError error :: EvInvoke outcome :: h0)
         end.
Proof.
  intros Hbody Hvalid Hprompt Hk Hfails Hend Hclass.
  rewrite (evaluate_validated _ _ _ _ _ Hbody Hvalid Hprompt).
  destruct (loop_settles (generateContent prompt) Math_random no_options outcome k
              Hclass 4 0 h)
    as (h0 & Hrun & Hcount); try assumption; try lia.
  { change (retries_ no_options) with (inject_Z 4). rewrite <- Zlt_Qlt. lia. }
  unfold withRetries.
  change (Z.to_nat (Qceiling (retries_ no_options))) with 4%nat.
  rewrite Hrun. exists h0. split; [exact Hcount|].
  destruct outcome; reflexivity.
Qed.

(** Four rate limits in a row: the handler answers 503. *)
Lemma evaluate_exhausted generateContent Math_random req_body prompt h :
  nullish req_body = false ->
  missing_required req_body = false ->
  prompt_of req_body = Normal prompt ->
  (forall h0, (invocations h0 < invocations h + 4)%nat ->
              exists err, generateContent prompt h0 = Throw err
                          /\ retryable (error_status err) = true) ->
  exists h',
    evaluate generateContent Math_random req_body h
    = Some (Normal
      {| status := 503;
         body :=
           JObj [("success", JBool false);
                 ("error",
                  JStr "AI model is temporarily overloaded. Please try again in a few seconds.")] |}, h')
    /\ invocations h' = (invocations h + 4)%nat.
Proof.
  intros Hbody Hvalid Hprompt Hfails.
  rewrite (evaluate_validated _ _ _ _ _ Hbody Hvalid Hprompt).
  destruct (loop_exhausts (generateContent prompt) Math_random
              no_options 4 4 (Qeq_refl _) 4 0 h eq_refl (le_n _) Hfails)
    as (h1 & Hrun & Hcount).
  unfold withRetries.
  change (Z.to_nat (Qceiling (retries_ no_options))) with 4%nat.
  rewrite Hrun. eexists. split; [reflexivity|]. simpl. exact Hcount.
Qed.

(** C9 (as the code has it). Every request gets exactly one response, with
    status 200, 400, 502, 503 or 500, and no exception leaves the handler.
    For a request that passes the validation and has a prompt:
    - when the remote call, after fewer than four rate limits, returns a
      response, the answer is 502 if no text is extracted from it, 200 with
      [success: false], the reason and the raw text if the text does not
      parse, and 200 with [success: true] and the parsed evaluation if it
      does;
    - when the remote call, after fewer than four rate limits, fails with an
      error that is not retryable, the answer is 503 if the code of the
      error is an overload and 500 with the message of the error otherwise,
      the code being the first truthy one of [error.status],
      [error.error.code] and [error.message], and an overload being 429,
      "RESOURCE_EXHAUSTED" or a string that includes "overloaded";
    - when the remote call is rate limited four times in a row, the answer
      is 503;
    - and nothing else happens: the answer comes from the last invocation
      of the remote call, or from giving up after four invocations.
    A request that passes the validation but has no prompt is answered 500
    before any remote call. *)
Theorem evaluate_response_shapes :
  (forall generateContent Math_random req_body h,
      exists res h',
        evaluate generateContent Math_random req_body h = Some (Normal res, h')
        /\ (status res = 200 \/ status res = 400 \/ status res = 502
            \/ status res = 503 \/ status res = 500)%Z)
  /\ (forall generateContent Math_random req_body prompt h k outcome,
        nullish req_body = false ->
        missing_required req_body = false ->
        prompt_of req_body = Normal prompt ->
        (k < 4)%nat ->
        (forall h0, (invocations h0 < invocations h + k)%nat ->
                    exists err, generateContent prompt h0 = Throw err
                                /\ retryable (error_status err) = true) ->
        (forall h0, invocations h0 = (invocations h + k)%nat ->
                    generateContent prompt h0 = outcome) ->
        match outcome with
        | Normal _ => True
        | Throw error => retryable (error_status error) = false
        end ->
        exists res h',
          evaluate generateContent Math_random req_body h = Some (Normal res, h')
          /\ invocations h' = (invocations h + k + 1)%nat
          /\ match outcome with
             | Throw error =>
                 let code :=
                   if truthy (opt_chain error [Field "status"])
                   then opt_chain error [Field "status"]
                   else if truthy (opt_chain error [Field "error"; Field "code"])
                        then opt_chain error [Field "error"; Field "code"]
                        else opt_chain error [Field "message"] in
                 if overloaded code
                 then res =
                   {| status := 503;
                      body :=
                        JObj [("success", JBool false);
                              ("error",
                               JStr "AI model is temporarily overloaded. Please try again in a few seconds.")] |}
                 else res = {| status := 500;
                               body := JObj [("success", JBool false);
                                             ("error",
                                              js_coalesce (opt_chain error [Field "message"])
                                                          (JStr "Server error"))] |}
             | Normal response =>
                 exists text,
                   extractTextFromResponse response = Normal text
                   /\ match truthy text, safeParseJSON text with
                      | false, _ =>
                          exists debug,
                            res = {| status := 502;
                                     body :=
                                       JObj [("success", JBool false);
                                             ("error",
                                              JStr "Could not extract text from model response");
                                             ("debug", debug)] |}
                      | true, Normal (Success data) =>
                          res = {| status := 200;
                                   body := JObj [("success", JBool true);
                                                 ("evaluation", data)] |}
                      | true, Normal (Failure reason raw) =>
                          res = {| status := 200;
                                   body := JObj [("success", JBool false);
                                                 ("error", JStr reason);
                                                 ("raw", js_coalesce raw text)] |}
                      | true, Throw _ => False
                      end
             end)
  /\ (forall generateContent Math_random req_body prompt h,
        nullish req_body = false ->
        missing_required req_body = false ->
        prompt_of req_body = Normal prompt ->
        (forall h0, (invocations h0 < invocations h + 4)%nat ->
                    exists err, generateContent prompt h0 = Throw err
                                /\ retryable (error_status err) = true) ->
        exists h',
          evaluate generateContent Math_random req_body h
          = Some (Normal
            {| status := 503;
               body :=
                 JObj [("success", JBool false);
                       ("error",
                        JStr "AI model is temporarily overloaded. Please try again in a few seconds.")] |}, h')
          /\ invocations h' = (invocations h + 4)%nat)
  /\ (forall generateContent Math_random req_body prompt h res h',
        nullish req_body = false ->
        missing_required req_body = false ->
        prompt_of req_body = Normal prompt ->
        evaluate generateContent Math_random req_body h = Some (res, h') ->
        (exists outcome h0,
            generateContent prompt h0 = outcome
            /\ match outcome with
               | Normal _ => h' = EvInvoke outcome :: h0
               | Throw error =>
                   h' = EvError error :: EvInvoke outcome :: h0
                   /\ retryable (error_status error) = false
               end)
        \/ (res = Normal
          {| status := 503;
             body :=
               JObj [("success", JBool false);
                     ("error",
                      JStr "AI model is temporarily overloaded. Please try again in a few seconds.")] |}
            /\ invocations h' = (invocations h + 4)%nat))
  /\ (forall generateContent Math_random req_body h e,
        nullish req_body = false ->
        missing_required req_body = false ->
        prompt_of req_body = Throw e ->
        evaluate generateContent Math_random req_body h
        = Some (Normal {| status := 500;
                          body := JObj [("success", JBool false);
                                        ("error",
                                         JStr "Cannot convert object to primitive value")] |},
                EvError e :: h))
  /\ (forall code,
        overloaded code = true <->
        (exists q, code = JNum q /\ q == 429)
        \/ code = JStr "RESOURCE_EXHAUSTED"
        \/ (exists s, code = JStr s /\ includes s "overloaded" = true)).
Proof.
  split; [exact evaluate_total|].
  split; [|split; [exact evaluate_exhausted|split; [|split; [|exact overloaded_iff]]]].
  - intros generateContent Math_random req_body prompt h k outcome
           Hbody Hvalid Hprompt Hk Hfails Hend Hclass.
    destruct (evaluate_settled generateContent Math_random req_body prompt h k outcome
                Hbody Hvalid Hprompt Hk Hfails Hend Hclass) as (h0 & Hcount & Hrun).
    rewrite Hrun. destruct outcome as [response|error].
    + destruct (respond_to_shape response) as (text & res & Htext & -> & Hshape).
      exists res. eexists. split; [reflexivity|].
      split; [simpl; lia|]. exists text. split; [exact Htext | exact Hshape].
    + exists (evaluate_catch error). eexists. split; [reflexivity|].
      split; [simpl; lia|]. cbv zeta. rewrite <- error_code_first_truthy.
      unfold evaluate_catch. destruct (overloaded (error_code error)); reflexivity.
  - intros generateContent Math_random req_body prompt h res h'
           Hbody Hvalid Hprompt Hrun.
    rewrite (evaluate_validated _ _ _ _ _ Hbody Hvalid Hprompt) in Hrun.
    destruct (withRetries (generateContent prompt) Math_random no_options h)
      as [[outcome h1]|] eqn:Hremote; [|discriminate Hrun].
    destruct (default_gives_up_after_four _ _ _ _ _ Hremote)
      as [(h0 & -> & Hfn & Hclass)|[-> Hcount]].
    + left. exists outcome, h0. split; [exact Hfn|].
      destruct outcome as [response|error].
      * destruct (respond_to_status response) as (res0 & Hres & _).
        rewrite Hres in Hrun. now injection Hrun as <- <-.
      * injection Hrun as <- <-. auto.
    + right. injection Hrun as <- <-. split; [reflexivity|]. exact Hcount.
  - intros generateContent Math_random req_body h e Hbody Hvalid Hprompt.
    rewrite (evaluate_no_prompt _ _ _ _ _ Hbody Hvalid Hprompt).
    now rewrite (prompt_of_throws _ _ Hprompt).
Qed.

Lemma evaluate_response_shapes_witness :
  exists res h',
    evaluate (remote_fails_after 1 service_unavailable) (constant_random 0)
             (sample_request (JStr "Object.")) []
    = Some (Normal res, h')
    /\ invocations h' = 2%nat
    /\ res = {| status := 500;
                body := JObj [("success", JBool false);
                              ("error",
                               JStr "The model is overloaded. Please try again later.")] |}.
Proof.
  destruct (proj1 (proj2 evaluate_response_shapes)
              (remote_fails_after 1 service_unavailable) (constant_random 0)
              (sample_request (JStr "Object."))
              (prompt_text "Java" "What is OOP?" "Object.") [] 1%nat
              (Throw service_unavailable))
    as (res & h' & Hrun & Hcount & Hshape).
  - reflexivity.
  - reflexivity.
  - reflexivity.
  - lia.
  - intros h0 Hlt. exists rate_limited. split; [|reflexivity].
    unfold remote_fails_after. simpl in Hlt. apply Nat.ltb_lt in Hlt. now rewrite Hlt.
  - intros h0 Heq. unfold remote_fails_after. simpl in Heq. now rewrite Heq.
  - reflexivity.
  - exists res, h'. split; [exact Hrun|]. split; [exact Hcount | exact Hshape].
Defined.

(** C9 as stated fails on an error that has a status: the message of the
    error includes "overloaded", but the code the handler tests is the
    status, 503, and the answer is 500. *)
Lemma overloaded_message_counterexample :
  includes (string_of (get service_unavailable (Field "message"))) "overloaded" = true
  /\ exists res h',
       evaluate (remote_fails service_unavailable) (constant_random 0)
                (sample_request (JStr "Object.")) []
       = Some (Normal res, h')
       /\ invocations h' = 1%nat
       /\ status res = 500%Z
       /\ status res <> 503%Z.
Proof.
  split; [reflexivity|].
  eexists. eexists. split; [vm_compute; reflexivity|].
  repeat split. discriminate.
Qed.

(** C8 (as the code has it). A request whose topic or question is missing
    or empty (falsy), or whose answer is absent ([undefined]), is answered
    at once with 400 and the remote call is not made: the history is left
    as it was. *)
Theorem evaluate_rejects_missing_fields
  (generateContent : Prompt -> History -> Completion JsVal)
  (Math_random : History -> Q) (req_body : JsVal) (h : History) :
  nullish req_body = false ->
  truthy (get req_body (Field "topic")) = false
  \/ truthy (get req_body (Field "question")) = false
  \/ get req_body (Field "answer") = JUndefined ->
  exists res,
    evaluate generateContent Math_random req_body h = Some (Normal res, h)
    /\ status res = 400%Z.
Proof.
  intros Hbody Hmissing. exists missing_fields_response. split; [|reflexivity].
  apply evaluate_rejected; [exact Hbody|].
  unfold missing_required.
  destruct Hmissing as [H|[H|H]]; rewrite H; cbn [negb orb typeof];
    rewrite ?orb_true_r; reflexivity.
Qed.

Lemma evaluate_rejects_missing_fields_witness :
  get (sample_request JUndefined) (Field "answer") = JUndefined
  /\ exists res,
       evaluate (remote_answers (candidate_response (JStr sample_evaluation)))
                (constant_random 0) (sample_request JUndefined) []
       = Some (Normal res, [])
       /\ status res = 400%Z.
Proof.
  split; [reflexivity|].
  apply (evaluate_rejects_missing_fields
           (remote_answers (candidate_response (JStr sample_evaluation)))
           (constant_random 0) (sample_request JUndefined) []).
  - reflexivity.
  - right; right. reflexivity.
Defined.

(** C8 as stated fails on an empty answer: the request passes the
    validation, the remote call is made and the response is not a 400. *)
Lemma evaluate_empty_answer_counterexample :
  missing_or_empty (get (sample_request (JStr EmptyString)) (Field "answer")) = true
  /\ exists res h',
       evaluate (remote_answers (candidate_response (JStr sample_evaluation)))
                (constant_random 0) (sample_request (JStr EmptyString)) []
       = Some (Normal res, h')
       /\ status res = 200%Z
       /\ status res <> 400%Z
       /\ invocations h' = 1%nat.
Proof.
  split; [reflexivity|].
  eexists. eexists. split; [vm_compute; reflexivity|].
  repeat split. discriminate.
Qed.

(** C10. The validation is asymmetric.  A falsy topic or question (the
    empty string, 0, [null], or an absent property) is rejected with 400
    whatever the answer, and nothing is called; the answer is rejected only
    when it is [undefined]: with a truthy topic and question, any other
    answer passes the validation and is never answered 400.  The remote
    call is then made whenever the three values have a text, as they have
    when none of them is an object: with a topic and a question that are
    not objects, an empty, [null] or numeric answer reaches the remote
    call.  When one of the three has no text the request is answered 500
    and nothing is called. *)
Theorem evaluate_validation_asymmetric
  (generateContent : Prompt -> History -> Completion JsVal)
  (Math_random : History -> Q) (req_body : JsVal) (h : History) :
  nullish req_body = false ->
  (truthy (get req_body (Field "topic")) = false
   \/ truthy (get req_body (Field "question")) = false
   \/ get req_body (Field "answer") = JUndefined ->
   exists res,
     evaluate generateContent Math_random req_body h = Some (Normal res, h)
     /\ status res = 400%Z
     /\ body res
        = JObj [("success", JBool false);
                ("error", JStr "Missing required fields: topic, question, answer")])
  /\ (truthy (get req_body (Field "topic")) = true ->
      truthy (get req_body (Field "question")) = true ->
      get req_body (Field "answer") <> JUndefined ->
      (exists res h',
          evaluate generateContent Math_random req_body h = Some (Normal res, h')
          /\ status res <> 400%Z)
      /\ (forall prompt,
            prompt_of req_body = Normal prompt ->
            exists res h',
              evaluate generateContent Math_random req_body h = Some (Normal res, h')
              /\ (invocations h + 1 <= invocations h')%nat)
      /\ (primitive (get req_body (Field "topic")) = true ->
          primitive (get req_body (Field "question")) = true ->
          primitive (get req_body (Field "answer")) = true ->
          exists prompt, prompt_of req_body = Normal prompt)
      /\ (primitive (get req_body (Field "topic")) = true ->
          primitive (get req_body (Field "question")) = true ->
          get req_body (Field "answer") = JStr EmptyString
          \/ get req_body (Field "answer") = JNull
          \/ (exists q, get req_body (Field "answer") = JNum q) ->
          exists res h',
            evaluate generateContent Math_random req_body h = Some (Normal res, h')
            /\ status res <> 400%Z
            /\ (invocations h + 1 <= invocations h')%nat)
      /\ (forall e,
            prompt_of req_body = Throw e ->
            evaluate generateContent Math_random req_body h
            = Some (Normal {| status := 500;
                              body := JObj [("success", JBool false);
                                            ("error",
                                             JStr "Cannot convert object to primitive value")] |},
                    EvError e :: h)))
  /\ truthy (JStr EmptyString) = false
  /\ truthy (JNum 0) = false
  /\ truthy JNull = false
  /\ primitive (JStr EmptyString) = true
  /\ primitive JNull = true
  /\ (forall q, primitive (JNum q) = true).
Proof.
  intros Hbody. split; [|split; [|repeat split]].
  - intros Hmissing. exists missing_fields_response.
    split; [|split; reflexivity].
    apply evaluate_rejected; [exact Hbody|].
    unfold missing_required.
    destruct Hmissing as [H|[H|H]]; rewrite H; cbn [negb orb typeof];
      rewrite ?orb_true_r; reflexivity.
  - intros Htopic Hquestion Hanswer.
    assert (Hvalid : missing_required req_body = false).
    { unfold missing_required. rewrite Htopic, Hquestion. cbn [negb orb].
      destruct (get req_body (Field "answer")); try reflexivity. congruence. }
    assert (Hcalled : forall prompt,
               prompt_of req_body = Normal prompt ->
               exists res h',
                 evaluate generateContent Math_random req_body h = Some (Normal res, h')
                 /\ status res <> 400%Z
                 /\ (invocations h + 1 <= invocations h')%nat).
    { intros prompt Hprompt.
      rewrite (evaluate_validated _ _ _ _ _ Hbody Hvalid Hprompt).
      destruct (withRetries_total (generateContent prompt)
                  Math_random no_options h) as (outcome & h1 & Hrun).
      rewrite Hrun.
      assert (Hcalls : (invocations h + 1 <= invocations h1)%nat).
      { eapply withRetries_invokes; [|exact Hrun]. reflexivity. }
      destruct outcome as [response|error].
      + destruct (respond_to_status response) as (res & -> & Hstatus).
        exists res, h1. split; [reflexivity|]. split; [|exact Hcalls].
        destruct Hstatus as [-> | ->]; discriminate.
      + exists (evaluate_catch error), (EvError error :: h1).
        split; [reflexivity|]. split; [|exact Hcalls].
        rewrite evaluate_catch_status.
        destruct (overloaded (error_code error)); discriminate. }
    assert (Hthrown : forall e,
               prompt_of req_body = Throw e ->
               evaluate generateContent Math_random req_body h
               = Some (Normal (evaluate_catch cannot_convert), EvError e :: h)).
    { intros e Hprompt. rewrite (evaluate_no_prompt _ _ _ _ _ Hbody Hvalid Hprompt).
      now rewrite (prompt_of_throws _ _ Hprompt). }
    split; [|split; [|split; [|split]]].
    + destruct (prompt_of req_body) as [prompt|e] eqn:Hprompt.
      * destruct (Hcalled prompt eq_refl) as (res & h' & Hrun & Hstatus & _). eauto.
      * rewrite (Hthrown e eq_refl). do 2 eexists. split; [reflexivity|]. discriminate.
    + intros prompt Hprompt.
      destruct (Hcalled prompt Hprompt) as (res & h' & Hrun & _ & Hcalls). eauto.
    + apply prompt_of_primitives.
    + intros Pt Pq Hcases.
      destruct (prompt_of_primitives req_body Pt Pq) as [prompt Hprompt].
      { destruct Hcases as [-> |[-> |[q ->]]]; reflexivity. }
      exact (Hcalled prompt Hprompt).
    + exact Hthrown.
Qed.

Lemma evaluate_validation_asymmetric_witness :
  (exists res,
      evaluate (remote_answers (candidate_response (JStr sample_evaluation)))
               (constant_random 0)
               (JObj [("topic", JStr EmptyString); ("question", JStr "What is OOP?");
                      ("answer", JStr "Object.")]) []
      = Some (Normal res, [])
      /\ status res = 400%Z)
  /\ (exists res h',
         evaluate (remote_answers (candidate_response (JStr sample_evaluation)))
                  (constant_random 0) (sample_request (JStr EmptyString)) []
         = Some (Normal res, h')
         /\ (invocations [] + 1 <= invocations h')%nat).
Proof.
  split.
  - destruct (proj1 (evaluate_validation_asymmetric
                       (remote_answers (candidate_response (JStr sample_evaluation)))
                       (constant_random 0)
                       (JObj [("topic", JStr EmptyString);
                              ("question", JStr "What is OOP?");
                              ("answer", JStr "Object.")]) [] eq_refl))
      as (res & Hrun & Hstatus & _); [left; reflexivity|].
    exists res. split; [exact Hrun | exact Hstatus].
  - destruct (proj1 (proj2 (evaluate_validation_asymmetric
                              (remote_answers (candidate_response (JStr sample_evaluation)))
                              (constant_random 0) (sample_request (JStr EmptyString)) []
                              eq_refl)))
      as (_ & _ & _ & Hcalled & _); [reflexivity | reflexivity | discriminate |].
    destruct (Hcalled eq_refl eq_refl (or_introl eq_refl))
      as (res & h' & Hrun & _ & Hcalls).
    exists res, h'. split; [exact Hrun | exact Hcalls].
Defined.

(** * Further properties of the retry controller *)

(** X1. Whatever the operation does, [withRetries] never invokes it more
    than [ceil(retries)] times. *)
Theorem withRetries_attempt_bound
  (fn : History -> Completion JsVal) (Math_random : History -> Q)
  (options : RetryOptions) (h : History) (c : Completion JsVal) (h' : History) :
  withRetries fn Math_random options h = Some (c, h') ->
  (invocations h' <= invocations h + Z.to_nat (Qceiling (retries_ options)))%nat.
Proof.
  intros Hrun. apply loop_attempt_bound in Hrun. lia.
Qed.

Lemma withRetries_attempt_bound_witness :
  exists c h',
    withRetries (fails_then 2 (JStr "done")) (constant_random 0) no_options []
    = Some (c, h')
    /\ invocations h' = 3%nat
    /\ (invocations h' <= invocations [] + Z.to_nat (Qceiling (retries_ no_options)))%nat.
Proof.
  eexists. eexists. split; [vm_compute; reflexivity|]. split; [reflexivity|].
  eapply (withRetries_attempt_bound (fails_then 2 (JStr "done")) (constant_random 0)
            no_options []).
  vm_compute. reflexivity.
Defined.

(** Where the outcome of the loop comes from. *)
Lemma loop_provenance fn Math_random options fuel :
  forall attempt h c h',
    retry_loop fn Math_random options fuel attempt h = Some (c, h') ->
    c = Throw retries_exhausted
    \/ exists h0,
         h' = EvInvoke c :: h0 /\ fn h0 = c
         /\ match c with
            | Normal _ => True
            | Throw err => retryable (error_status err) = false
            end.
Proof.
  induction fuel as [|fuel IH]; intros attempt h c h' Hrun.
  - simpl in Hrun. destruct (js_lt _ _); [discriminate|].
    injection Hrun as <- <-. now left.
  - destruct (js_lt (inject_Z attempt) (retries_ options)) eqn:Hcond.
    2:{ rewrite (loop_exit _ _ _ _ _ _ Hcond) in Hrun. injection Hrun as <- <-.
        now left. }
    destruct (fn h) as [v|err] eqn:Hfn.
    { rewrite (loop_success _ _ _ _ _ _ _ Hcond Hfn) in Hrun.
      injection Hrun as <- <-. right. exists h. auto. }
    destruct (retryable (error_status err)) eqn:Hretry.
    2:{ rewrite (loop_fatal _ _ _ _ _ _ _ Hcond Hfn Hretry) in Hrun.
        injection Hrun as <- <-. right. exists h. auto. }
    rewrite (loop_retry _ _ _ _ _ _ _ Hcond Hfn Hretry) in Hrun.
    exact (IH _ _ _ _ Hrun).
Qed.

(** X2. [withRetries] makes nothing up and lets no retryable error out: a
    value it returns is the value its last invocation of the operation
    returned, and an error it throws is either its own terminal error or
    the error of its last invocation, whose status is not retryable. *)
Theorem withRetries_provenance
  (fn : History -> Completion JsVal) (Math_random : History -> Q)
  (options : RetryOptions) (h : History) (c : Completion JsVal) (h' : History) :
  withRetries fn Math_random options h = Some (c, h') ->
  match c with
  | Normal v => exists h0, h' = EvInvoke (Normal v) :: h0 /\ fn h0 = Normal v
  | Throw err =>
      err = retries_exhausted
      \/ exists h0,
           h' = EvInvoke (Throw err) :: h0 /\ fn h0 = Throw err
           /\ retryable (error_status err) = false
  end.
Proof.
  intros Hrun. apply loop_provenance in Hrun.
  destruct Hrun as [->|(h0 & -> & Hfn & Hclass)].
  - now left.
  - destruct c as [v|err]; [|right]; exists h0; auto.
Qed.

Lemma withRetries_provenance_witness :
  exists h0,
    withRetries (fails_then 1 (JNum 7)) (constant_random 0) no_options []
    = Some (Normal (JNum 7), EvInvoke (Normal (JNum 7)) :: h0)
    /\ fails_then 1 (JNum 7) h0 = Normal (JNum 7).
Proof.
  eexists. split; [vm_compute; reflexivity|].
  match goal with
  | |- fails_then _ _ ?h0 = _ =>
      destruct (withRetries_provenance (fails_then 1 (JNum 7)) (constant_random 0)
                  no_options [] (Normal (JNum 7))
                  (EvInvoke (Normal (JNum 7)) :: h0))
        as (h1 & Heq & Hfn); [vm_compute; reflexivity|]
  end.
  injection Heq as <-. exact Hfn.
Defined.

(** How the waits of the loop are counted against its invocations. *)
Lemma loop_waits_count fn Math_random options fuel :
  forall attempt h c h',
    retry_loop fn Math_random options fuel attempt h = Some (c, h') ->
    (exists h0,
        h' = EvInvoke c :: h0
        /\ (List.length (sleeps h') + invocations h + 1
            = List.length (sleeps h) + invocations h')%nat)
    \/ (c = Throw retries_exhausted
        /\ (List.length (sleeps h') + invocations h
            = List.length (sleeps h) + invocations h')%nat
        /\ (h' = h \/ exists ms h0, h' = EvSleep ms :: h0)).
Proof.
  induction fuel as [|fuel IH]; intros attempt h c h' Hrun.
  - simpl in Hrun. destruct (js_lt _ _); [discriminate|].
    injection Hrun as <- <-. right. auto.
  - destruct (js_lt (inject_Z attempt) (retries_ options)) eqn:Hcond.
    2:{ rewrite (loop_exit _ _ _ _ _ _ Hcond) in Hrun. injection Hrun as <- <-.
        right. auto. }
    destruct (fn h) as [v|err] eqn:Hfn.
    { rewrite (loop_success _ _ _ _ _ _ _ Hcond Hfn) in Hrun.
      injection Hrun as <- <-. left. exists h. split; [reflexivity|].
      simpl. lia. }
    destruct (retryable (error_status err)) eqn:Hretry.
    2:{ rewrite (loop_fatal _ _ _ _ _ _ _ Hcond Hfn Hretry) in Hrun.
        injection Hrun as <- <-. left. exists h. split; [reflexivity|].
        simpl. lia. }
    rewrite (loop_retry _ _ _ _ _ _ _ Hcond Hfn Hretry) in Hrun.
    assert (Hsl : List.length (sleeps (after_retry Math_random options attempt err h))
                  = S (List.length (sleeps h))).
    { simpl. rewrite length_app. simpl. lia. }
    destruct (IH _ _ _ _ Hrun) as [(h0 & -> & Hcount)|(-> & Hcount & Hlast)].
    + left. exists h0. split; [reflexivity|].
      rewrite Hsl, invocations_after_retry in Hcount. lia.
    + right. split; [reflexivity|]. split.
      * rewrite Hsl, invocations_after_retry in Hcount. lia.
      * right. destruct Hlast as [->|Hlast]; [|exact Hlast].
        unfold after_retry. eauto.
Qed.

(** X3. Every retryable failure is followed by a wait, the last one too:
    when [withRetries] gives up after the loop it has waited as many times
    as it has invoked the operation, and the last thing it did, if it did
    anything, was to wait; when it ends on an invocation (a value, or an
    error that is not retryable) it has waited one time less. *)
Theorem withRetries_waits_count
  (fn : History -> Completion JsVal) (Math_random : History -> Q)
  (options : RetryOptions) (h : History) (c : Completion JsVal) (h' : History) :
  withRetries fn Math_random options h = Some (c, h') ->
  (exists h0,
      h' = EvInvoke c :: h0
      /\ (List.length (sleeps h') + invocations h + 1
          = List.length (sleeps h) + invocations h')%nat)
  \/ (c = Throw retries_exhausted
      /\ (List.length (sleeps h') + invocations h
          = List.length (sleeps h) + invocations h')%nat
      /\ (h' = h \/ exists ms h0, h' = EvSleep ms :: h0)).
Proof.
  intros Hrun. exact (loop_waits_count _ _ _ _ _ _ _ _ Hrun).
Qed.

Lemma withRetries_waits_count_witness :
  exists h',
    withRetries (always_fails rate_limited) (constant_random 0) no_options []
    = Some (Throw retries_exhausted, h')
    /\ invocations h' = 4%nat
    /\ List.length (sleeps h') = 4%nat
    /\ exists ms h0, h' = EvSleep ms :: h0.
Proof.
  eexists. split; [vm_compute; reflexivity|].
  split; [reflexivity|]. split; [reflexivity|].
  match goal with
  | |- exists ms h0, ?h' = _ =>
      destruct (withRetries_waits_count (always_fails rate_limited)
                  (constant_random 0) no_options [] (Throw retries_exhausted) h')
        as [(h0 & Heq & _)|(_ & _ & [Heq|Hlast])]; [vm_compute; reflexivity| | |]
  end.
  - discriminate Heq.
  - discriminate Heq.
  - exact Hlast.
Defined.






Lemma total_app (l1 l2 : list Q) :
  fold_right Qplus 0 (l1 ++ l2)%list
  == fold_right Qplus 0 l1 + fold_right Qplus 0 l2.
Proof.
  induction l1 as [|x l1 IH]; simpl.
  - now rewrite Qplus_0_l.
  - rewrite IH. apply Qplus_assoc.
Qed.

Lemma default_backoffs :
  backoff_delay no_options 1 = 500
  /\ backoff_delay no_options 2 = 1000
  /\ backoff_delay no_options 3 = 2000
  /\ backoff_delay no_options 4 = 4000.
Proof. repeat split; vm_compute; reflexivity. Qed.

Lemma default_waits_sum
  (fn : History -> Completion JsVal) (Math_random : History -> Q)
  (h : History) (c : Completion JsVal) (h' : History) :
  (forall h0, 0 <= Math_random h0 /\ Math_random h0 < 1) ->
  withRetries fn Math_random no_options h = Some (c, h') ->
  total_wait h' <= total_wait h + 8296.
Proof.
  intros Hrange Hrun.
  pose proof (loop_attempt_bound _ _ _ _ _ _ _ _ Hrun) as Hbound.
  pose proof (loop_waits_count _ _ _ _ _ _ _ _ Hrun) as Hcount.
  destruct (loop_waits fn Math_random no_options Hrange _ _ _ _ _ Hrun)
    as (waits & Hsleeps & _ & Hwaits).
  assert (Hlen : (List.length waits <= 4)%nat).
  { assert (Hl : List.length (sleeps h')
                 = (List.length (sleeps h) + List.length waits)%nat)
      by (rewrite Hsleeps; apply length_app).
    change (Qceiling (retries_ no_options)) with 4%Z in Hbound.
    destruct Hcount as [(_ & _ & Hc)|(_ & Hc & _)]; lia. }
  unfold total_wait. rewrite Hsleeps, total_app.
  apply Qplus_le_r.
  assert (Hj : forall j, (0 <= j <= 199)%Z -> inject_Z j <= 199).
  { intros j Hj. change 199 with (inject_Z 199). rewrite <- Zle_Qle. lia. }
  assert (Hnth : forall i d, nth_error waits i = Some d ->
             exists j, inject_Z j <= 199
               /\ d = backoff_delay no_options (0 + 1 + Z.of_nat i) + inject_Z j).
  { intros i d Hd. destruct (Hwaits i d Hd) as (j & Hjr & Hdj). eauto. }
  destruct default_backoffs as (B1 & B2 & B3 & B4).
  destruct waits as [|d1 [|d2 [|d3 [|d4 [|d5 rest]]]]]; simpl in Hlen; try lia;
    simpl fold_right.
  - lra.
  - destruct (Hnth 0%nat d1 eq_refl) as (j1 & H1 & ->).
    change (0 + 1 + Z.of_nat 0)%Z with 1%Z. rewrite B1. lra.
  - destruct (Hnth 0%nat d1 eq_refl) as (j1 & H1 & ->).
    destruct (Hnth 1%nat d2 eq_refl) as (j2 & H2 & ->).
    change (0 + 1 + Z.of_nat 0)%Z with 1%Z.
    change (0 + 1 + Z.of_nat 1)%Z with 2%Z. rewrite B1, B2. lra.
  - destruct (Hnth 0%nat d1 eq_refl) as (j1 & H1 & ->).
    destruct (Hnth 1%nat d2 eq_refl) as (j2 & H2 & ->).
    destruct (Hnth 2%nat d3 eq_refl) as (j3 & H3 & ->).
    change (0 + 1 + Z.of_nat 0)%Z with 1%Z.
    change (0 + 1 + Z.of_nat 1)%Z with 2%Z.
    change (0 + 1 + Z.of_nat 2)%Z with 3%Z. rewrite B1, B2, B3. lra.
  - destruct (Hnth 0%nat d1 eq_refl) as (j1 & H1 & ->).
    destruct (Hnth 1%nat d2 eq_refl) as (j2 & H2 & ->).
    destruct (Hnth 2%nat d3 eq_refl) as (j3 & H3 & ->).
    destruct (Hnth 3%nat d4 eq_refl) as (j4 & H4 & ->).
    change (0 + 1 + Z.of_nat 0)%Z with 1%Z.
    change (0 + 1 + Z.of_nat 1)%Z with 2%Z.
    change (0 + 1 + Z.of_nat 2)%Z with 3%Z.
    change (0 + 1 + Z.of_nat 3)%Z with 4%Z. rewrite B1, B2, B3, B4. lra.
Qed.

(** X5. With the default options a call of [withRetries] waits at most
    8296 milliseconds in all (500 + 1000 + 2000 + 4000 of backoff and four
    jitters of at most 199), whatever the operation and the draws. *)
Theorem default_total_wait_bound
  (fn : History -> Completion JsVal) (Math_random : History -> Q)
  (h : History) (c : Completion JsVal) (h' : History) :
  (forall h0, 0 <= Math_random h0 /\ Math_random h0 < 1) ->
  withRetries fn Math_random no_options h = Some (c, h') ->
  total_wait h' <= total_wait h + 8296.
Proof. exact (default_waits_sum fn Math_random h c h'). Qed.

Lemma default_total_wait_bound_witness :
  exists c h',
    withRetries (always_fails rate_limited) (constant_random (199 # 200)) no_options []
    = Some (c, h')
    /\ total_wait h' == 8296
    /\ total_wait h' <= total_wait [] + 8296.
Proof.
  do 2 eexists. split; [vm_compute; reflexivity|]. split; [reflexivity|].
  eapply (default_total_wait_bound (always_fails rate_limited)
            (constant_random (199 # 200)) []).
  - intros h0. split; vm_compute; discriminate || reflexivity.
  - vm_compute. reflexivity.
Defined.

(** * Further properties of the handler *)

(** X6. One request costs at most four invocations of the remote call and,
    with draws in the unit interval, at most 8296 milliseconds of waiting,
    whatever the request and whatever the remote call does. *)
Theorem evaluate_cost_bound
  (generateContent : Prompt -> History -> Completion JsVal)
  (Math_random : History -> Q) (req_body : JsVal)
  (h : History) (res : Completion Response) (h' : History) :
  evaluate generateContent Math_random req_body h = Some (res, h') ->
  (invocations h' <= invocations h + 4)%nat
  /\ ((forall h0, 0 <= Math_random h0 /\ Math_random h0 < 1) ->
      total_wait h' <= total_wait h + 8296).
Proof.
  intros Hrun.
  assert (Hzero : total_wait h <= total_wait h + 8296) by lra.
  destruct (nullish req_body) eqn:Hbody.
  { rewrite evaluate_no_body in Hrun by assumption. injection Hrun as <- <-.
    split; [simpl; lia | intros _; exact Hzero]. }
  destruct (missing_required req_body) eqn:Hvalid.
  { rewrite evaluate_rejected in Hrun by assumption. injection Hrun as <- <-.
    split; [lia | intros _; exact Hzero]. }
  destruct (prompt_of req_body) as [prompt|e] eqn:Hprompt.
  2:{ rewrite (evaluate_no_prompt _ _ _ _ _ Hbody Hvalid Hprompt) in Hrun.
      injection Hrun as <- <-. split; [simpl; lia | intros _; exact Hzero]. }
  rewrite (evaluate_validated _ _ _ _ _ Hbody Hvalid Hprompt) in Hrun.
  destruct (withRetries (generateContent prompt) Math_random
              no_options h) as [[outcome h1]|] eqn:Hremote; [|discriminate Hrun].
  pose proof (loop_attempt_bound _ _ _ _ _ _ _ _ Hremote) as Hbound.
  change (Qceiling (retries_ no_options)) with 4%Z in Hbound.
  assert (Hh' : h' = h1 \/ exists error, h' = EvError error :: h1).
  { destruct outcome as [response|error].
    - destruct (respond_to response); injection Hrun as <- <-; eauto.
    - injection Hrun as <- <-; eauto. }
  split.
  - destruct Hh' as [->|(error & ->)]; simpl; lia.
  - intros Hrange.
    pose proof (default_waits_sum _ _ _ _ _ Hrange Hremote) as Hwait.
    destruct Hh' as [->|(error & ->)]; exact Hwait.
Qed.

Lemma evaluate_cost_bound_witness :
  exists res h',
    evaluate (remote_fails rate_limited) (constant_random (199 # 200))
             (sample_request (JStr "Object.")) []
    = Some (res, h')
    /\ invocations h' = 4%nat
    /\ total_wait h' == 8296
    /\ (invocations h' <= invocations [] + 4)%nat.
Proof.
  do 2 eexists. split; [vm_compute; reflexivity|].
  split; [vm_compute; reflexivity|]. split; [vm_compute; reflexivity|].
  refine (proj1 (evaluate_cost_bound (remote_fails rate_limited)
                   (constant_random (199 # 200))
                   (sample_request (JStr "Object.")) [] _ _ _)).
  vm_compute. reflexivity.
Defined.

(** X7. A remote call that fails with a retryable status at each of its
    first four invocations: a request that passes the validation and has a
    prompt is answered 503 with the fixed overload message, after exactly
    four invocations. *)
Theorem evaluate_overload_end_to_end
  (generateContent : Prompt -> History -> Completion JsVal)
  (Math_random : History -> Q) (req_body : JsVal) (prompt : Prompt) (h : History) :
  nullish req_body = false ->
  missing_required req_body = false ->
  prompt_of req_body = Normal prompt ->
  (forall h0, (invocations h0 < invocations h + 4)%nat ->
              exists err, generateContent prompt h0 = Throw err
                          /\ retryable (error_status err) = true) ->
  exists h',
    evaluate generateContent Math_random req_body h
    = Some (Normal
      {| status := 503;
         body :=
           JObj [("success", JBool false);
                 ("error",
                  JStr "AI model is temporarily overloaded. Please try again in a few seconds.")] |}, h')
    /\ invocations h' = (invocations h + 4)%nat.
Proof.
  exact (evaluate_exhausted generateContent Math_random req_body prompt h).
Qed.

Lemma evaluate_overload_end_to_end_witness :
  exists h',
    evaluate (remote_fails (JObj [("code", JStr "TOO_MANY_REQUESTS")]))
             (constant_random 0) (sample_request (JStr "Object.")) []
    = Some (Normal
      {| status := 503;
         body :=
           JObj [("success", JBool false);
                 ("error",
                  JStr "AI model is temporarily overloaded. Please try again in a few seconds.")] |}, h')
    /\ invocations h' = (invocations [] + 4)%nat.
Proof.
  apply (evaluate_overload_end_to_end
           (remote_fails (JObj [("code", JStr "TOO_MANY_REQUESTS")]))
           (constant_random 0) (sample_request (JStr "Object."))
           (prompt_text "Java" "What is OOP?" "Object.") []).
  - reflexivity.
  - reflexivity.
  - reflexivity.
  - intros h0 _. eexists. split; reflexivity.
Defined.

(** X8. A remote call that is rate limited [k] times, [k] below four, and
    then answers with a response whose text parses: a request that passes
    the validation and has a prompt is answered 200 with [success: true]
    and the parsed evaluation, after [k + 1] invocations. *)
Theorem evaluate_recovers_end_to_end
  (generateContent : Prompt -> History -> Completion JsVal)
  (Math_random : History -> Q) (req_body : JsVal) (prompt : Prompt) (h : History)
  (k : nat) (response text data : JsVal) :
  nullish req_body = false ->
  missing_required req_body = false ->
  prompt_of req_body = Normal prompt ->
  (k < 4)%nat ->
  (forall h0, (invocations h0 < invocations h + k)%nat ->
              exists err, generateContent prompt h0 = Throw err
                          /\ retryable (error_status err) = true) ->
  (forall h0, invocations h0 = (invocations h + k)%nat ->
              generateContent prompt h0 = Normal response) ->
  extractTextFromResponse response = Normal text ->
  truthy text = true ->
  safeParseJSON text = Normal (Success data) ->
  exists h',
    evaluate generateContent Math_random req_body h
    = Some (Normal {| status := 200;
                      body := JObj [("success", JBool true);
                                    ("evaluation", data)] |}, h')
    /\ invocations h' = (invocations h + k + 1)%nat.
Proof.
  intros Hbody Hvalid Hprompt Hk Hfails Hok Htext Htruthy Hparse.
  destruct (evaluate_settled generateContent Math_random req_body prompt h k
              (Normal response) Hbody Hvalid Hprompt Hk Hfails Hok I)
    as (h0 & Hcount & Hrun).
  rewrite Hrun. unfold respond_to. rewrite Htext. cbn [and_then].
  rewrite Htruthy. cbn [negb]. rewrite Hparse. cbn [and_then].
  eexists. split; [reflexivity|]. simpl. lia.
Qed.

Lemma evaluate_recovers_end_to_end_witness :
  exists h',
    evaluate (fun _ => fails_then 2 (candidate_response (JStr sample_evaluation)))
             (constant_random 0) (sample_request (JStr "Object.")) []
    = Some (Normal {| status := 200;
                      body := JObj [("success", JBool true);
                                    ("evaluation",
                                     JObj [("score", JNum 7);
                                           ("feedback", JStr "ok")])] |}, h')
    /\ invocations h' = (invocations [] + 2 + 1)%nat.
Proof.
  apply (evaluate_recovers_end_to_end
           (fun _ => fails_then 2 (candidate_response (JStr sample_evaluation)))
           (constant_random 0) (sample_request (JStr "Object."))
           (prompt_text "Java" "What is OOP?" "Object.") [] 2
           (candidate_response (JStr sample_evaluation)) (JStr sample_evaluation)).
  - reflexivity.
  - reflexivity.
  - reflexivity.
  - lia.
  - intros h0 Hlt. exists rate_limited. split; [|reflexivity].
    unfold fails_then. simpl in Hlt. apply Nat.ltb_lt in Hlt. now rewrite Hlt.
  - intros h0 Heq. unfold fails_then. simpl in Heq. now rewrite Heq.
  - reflexivity.
  - reflexivity.
  - vm_compute. reflexivity.
Defined.

(** X10. A remote call whose first failure is not retryable is not tried
    again: a request that passes the validation and has a prompt is
    answered by the [catch] block after that one invocation and no wait.
    The answer is 503 when the handler reads the error as an overload, and
    otherwise 500 with the message of the error, or "Server error" when it
    has none. *)
Theorem evaluate_fatal_end_to_end
  (generateContent : Prompt -> History -> Completion JsVal)
  (Math_random : History -> Q) (req_body : JsVal) (prompt : Prompt)
  (h : History) (err : JsVal) :
  nullish req_body = false ->
  missing_required req_body = false ->
  prompt_of req_body = Normal prompt ->
  generateContent prompt h = Throw err ->
  retryable (error_status err) = false ->
  evaluate generateContent Math_random req_body h
  = Some (Normal (evaluate_catch err), EvError err :: EvInvoke (Throw err) :: h)
  /\ (overloaded (error_code err) = true ->
      evaluate_catch err
      =
        {| status := 503;
           body :=
             JObj [("success", JBool false);
                   ("error",
                    JStr "AI model is temporarily overloaded. Please try again in a few seconds.")] |})
  /\ (overloaded (error_code err) = false ->
      evaluate_catch err
      = {| status := 500;
           body := JObj [("success", JBool false);
                         ("error", js_coalesce (opt_chain err [Field "message"])
                                               (JStr "Server error"))] |}).
Proof.
  intros Hbody Hvalid Hprompt Hfn Hfatal.
  rewrite (evaluate_validated _ _ _ _ _ Hbody Hvalid Hprompt).
  unfold withRetries.
  change (Z.to_nat (Qceiling (retries_ no_options))) with 4%nat.
  rewrite (loop_fatal (generateContent prompt) Math_random no_options
             3 0 h err eq_refl Hfn Hfatal).
  split; [reflexivity|]. unfold evaluate_catch.
  split; intros ->; reflexivity.
Qed.

Lemma evaluate_fatal_end_to_end_witness :
  evaluate (remote_fails (new_Error "backend overloaded")) (constant_random 0)
           (sample_request (JStr "Object.")) []
  = Some (Normal (evaluate_catch (new_Error "backend overloaded")),
          [EvError (new_Error "backend overloaded");
           EvInvoke (Throw (new_Error "backend overloaded"))])
  /\ status (evaluate_catch (new_Error "backend overloaded")) = 503%Z.
Proof.
  destruct (evaluate_fatal_end_to_end
              (remote_fails (new_Error "backend overloaded")) (constant_random 0)
              (sample_request (JStr "Object."))
              (prompt_text "Java" "What is OOP?" "Object.") []
              (new_Error "backend overloaded")
              eq_refl eq_refl eq_refl eq_refl eq_refl) as (Hrun & Hoverload & _).
  split; [exact Hrun | now rewrite (Hoverload eq_refl)].
Defined.

(** * Further properties of the parser and of the extractor *)

Lemma match_brace_block_idempotent (text m : string) :
  match_brace_block text = Some m -> match_brace_block m = Some m.
Proof.
  intros Hm. apply match_brace_block_spec in Hm.
  destruct Hm as (pre & mid & post & _ & _ & _ & ->).
  apply match_brace_block_spec. exists EmptyString, mid, EmptyString.
  repeat split.
Qed.

(** X11. The raw block of a "Found JSON-like block but failed to parse"
    failure is a part of the text that starts with the first opening brace
    and ends with the last closing brace, and parsing it again changes
    nothing: it gives the same failure with the same block. *)
Theorem block_failure_is_final (s : string) (raw : JsVal) :
  safeParseJSON (JStr s)
  = Normal (Failure "Found JSON-like block but failed to parse" raw) ->
  (exists pre mid post,
      s = pre ++ "{" ++ mid ++ "}" ++ post
      /\ occurs "{" pre = false
      /\ occurs "}" post = false
      /\ raw = JStr ("{" ++ mid ++ "}"))
  /\ safeParseJSON raw
     = Normal (Failure "Found JSON-like block but failed to parse" raw).
Proof.
  intros Hfail.
  destruct s as [|c s'] eqn:Hs; [discriminate Hfail|]. rewrite <- Hs in *.
  assert (Hne : s <> EmptyString) by (rewrite Hs; discriminate).
  rewrite (safeParseJSON_string s Hne) in Hfail.
  destruct (JSON_parse s) as [v|e]; [discriminate Hfail|].
  destruct (match_brace_block s) as [m|] eqn:Hblock; [|discriminate Hfail].
  destruct (JSON_parse m) as [v|e'] eqn:Hm; [discriminate Hfail|].
  injection Hfail as <-. split.
  - apply match_brace_block_spec in Hblock.
    destruct Hblock as (pre & mid & post & H1 & H2 & H3 & ->). eauto 8.
  - assert (Hmne : m <> EmptyString).
    { apply match_brace_block_spec in Hblock.
      destruct Hblock as (pre & mid & post & _ & _ & _ & ->). discriminate. }
    rewrite (safeParseJSON_string m Hmne), Hm.
    now rewrite (match_brace_block_idempotent _ _ Hblock), Hm.
Qed.

Lemma block_failure_is_final_witness :
  safeParseJSON (JStr (quoted "Result: {'score':5, invalid} done"))
  = Normal (Failure "Found JSON-like block but failed to parse"
              (JStr (quoted "{'score':5, invalid}")))
  /\ safeParseJSON (JStr (quoted "{'score':5, invalid}"))
     = Normal (Failure "Found JSON-like block but failed to parse"
                 (JStr (quoted "{'score':5, invalid}"))).
Proof.
  assert (Hrun : safeParseJSON (JStr (quoted "Result: {'score':5, invalid} done"))
                 = Normal (Failure "Found JSON-like block but failed to parse"
                             (JStr (quoted "{'score':5, invalid}"))))
    by (vm_compute; reflexivity).
  split; [exact Hrun|].
  exact (proj2 (block_failure_is_final _ _ Hrun)).
Defined.

Lemma first_nonempty_cases (matches : list JsVal) :
  first_nonempty matches = JNull \/ truthy (first_nonempty matches) = true.
Proof.
  induction matches as [|v rest IH]; simpl; [now left|].
  destruct (truthy v) eqn:Hv; [now right | exact IH].
Qed.

(** X12. The extractor skips a shape whose value is falsy and goes on to
    the next one, so what it returns is a truthy value, [null], or the
    empty string when the response is itself the empty string: the
    handler's test [!text] fails for nothing else. *)
Theorem extractText_falsy_result (response text : JsVal) :
  extractTextFromResponse response = Normal text ->
  truthy text = false ->
  text = JNull \/ (response = JStr EmptyString /\ text = JStr EmptyString).
Proof.
  intros Hrun Hfalsy. rewrite extractTextFromResponse_shapes in Hrun.
  injection Hrun as <-.
  destruct (strict_eq response (JStr EmptyString)) eqn:Hempty.
  - right. destruct response; simpl in Hempty; try discriminate.
    apply String.eqb_eq in Hempty. now subst.
  - left. unfold spec_extractText in *.
    destruct (first_nonempty_cases (spec_shapes response)) as [H|H];
      [exact H | congruence].
Qed.

Lemma extractText_falsy_result_witness :
  extractTextFromResponse
    (JObj [("candidates", JArr [JObj [("content", JObj [("text", JNum 0)])]]);
           ("text", JStr EmptyString)])
  = Normal JNull.
Proof.
  destruct (extractText_falsy_result
              (JObj [("candidates", JArr [JObj [("content", JObj [("text", JNum 0)])]]);
                     ("text", JStr EmptyString)])
              JNull eq_refl eq_refl) as [_|[H _]]; [reflexivity | discriminate H].
Defined.

(** * The authentication and history routes *)

Lemma prefix_slice (p s : string) :
  String.prefix p s = true -> s = p ++ slice_from (String.length p) s.
Proof.
  revert s. induction p as [|a p IH]; intros s Hp; [reflexivity|].
  destruct s as [|b s]; [discriminate|]. cbn [String.prefix] in Hp.
  destruct (ascii_dec a b) as [->|]; [|discriminate].
  cbn [append String.length slice_from]. f_equal. now apply IH.
Qed.

Lemma prefix_append (p s : string) : String.prefix p (p ++ s) = true.
Proof.
  induction p as [|a p IH]; [destruct s; reflexivity|].
  cbn [append String.prefix].
  destruct (ascii_dec a a); [exact IH | congruence].
Qed.

Lemma slice_append (p s : string) : slice_from (String.length p) (p ++ s) = s.
Proof. induction p as [|a p IH]; [reflexivity | exact IH]. Qed.

(** What the middleware does with a header that carries a token. *)
Lemma authMiddleware_bearer (S : Services) (token : string) :
  token <> EmptyString ->
  authMiddleware S (JStr ("Bearer " ++ token))
  = match jwt_verify S token with
    | Normal payload =>
        if nullish payload
        then Normal (Respond (failure 401 "Invalid or expired token"))
        else Normal (Next (get payload (Field "userId")))
    | Throw _ => Normal (Respond (failure 401 "Invalid or expired token"))
    end.
Proof.
  intros Htoken. unfold authMiddleware.
  replace (js_or (JStr ("Bearer " ++ token)) (JStr EmptyString))
    with (JStr ("Bearer " ++ token)) by reflexivity.
  rewrite (prefix_append "Bearer " token).
  change 7%nat with (String.length "Bearer ").
  rewrite (slice_append "Bearer " token).
  apply truthy_string in Htoken. rewrite Htoken. cbn [negb string_of].
  destruct (jwt_verify S token) as [payload|e]; [|reflexivity].
  cbn [and_then chain]. destruct (nullish payload); reflexivity.
Qed.

(** What the middleware does with every other header that is a string, or
    with no header. *)
Lemma authMiddleware_no_token (S : Services) (authorization : JsVal) :
  (truthy authorization = false
   \/ exists h, authorization = JStr h
                /\ (String.prefix "Bearer " h = false \/ h = "Bearer ")) ->
  authMiddleware S authorization
  = Normal (Respond (failure 401 "Missing auth token")).
Proof.
  intros [Hfalsy|(h & -> & Hh)]; unfold authMiddleware, js_or.
  - rewrite Hfalsy. reflexivity.
  - destruct (truthy (JStr h)) eqn:Htruthy; [|reflexivity].
    destruct Hh as [Hprefix| ->]; [rewrite Hprefix|]; reflexivity.
Qed.

Lemma authMiddleware_next_cases (S : Services) (authorization userId : JsVal) :
  authMiddleware S authorization = Normal (Next userId)
  <-> exists token payload,
        authorization = JStr ("Bearer " ++ token)
        /\ token <> EmptyString
        /\ jwt_verify S token = Normal payload
        /\ nullish payload = false
        /\ userId = get payload (Field "userId").
Proof.
  split.
  - intros Hnext.
    destruct (truthy authorization) eqn:Htruthy.
    2:{ rewrite authMiddleware_no_token in Hnext by auto. discriminate. }
    destruct authorization as [ | |b|q|negative| |h|items|props];
      try (unfold authMiddleware, js_or in Hnext; rewrite Htruthy in Hnext;
           discriminate).
    destruct (String.prefix "Bearer " h) eqn:Hprefix.
    2:{ rewrite authMiddleware_no_token in Hnext by eauto. discriminate. }
    apply prefix_slice in Hprefix. cbn [String.length] in Hprefix.
    destruct (slice_from 7 h) as [|c token] eqn:Hslice.
    { rewrite authMiddleware_no_token in Hnext; [discriminate|].
      right. exists h. split; [reflexivity|]. right. exact Hprefix. }
    rewrite Hprefix, authMiddleware_bearer in Hnext by discriminate.
    exists (String c token).
    destruct (jwt_verify S (String c token)) as [payload|e] eqn:Hverify;
      [|discriminate Hnext].
    exists payload. destruct (nullish payload) eqn:Hpayload; [discriminate Hnext|].
    injection Hnext as <-.
    split; [now rewrite Hprefix|]. split; [discriminate|]. auto.
  - intros (token & payload & -> & Htoken & Hverify & Hpayload & ->).
    now rewrite authMiddleware_bearer, Hverify, Hpayload.
Qed.

(** X13. The middleware calls [next()] exactly for a header of the form
    [Bearer <token>] whose token is not empty and verifies to a payload,
    and the user id it passes on is the [userId] of that payload. *)
Theorem authMiddleware_next_iff (S : Services) (authorization userId : JsVal) :
  authMiddleware S authorization = Normal (Next userId)
  <-> exists token payload,
        authorization = JStr ("Bearer " ++ token)
        /\ token <> EmptyString
        /\ jwt_verify S token = Normal payload
        /\ nullish payload = false
        /\ userId = get payload (Field "userId").
Proof. exact (authMiddleware_next_cases S authorization userId). Qed.

Lemma authMiddleware_next_iff_witness :
  authMiddleware sample_services (JStr "Bearer token-1") = Normal (Next (JStr "u1")).
Proof.
  apply (proj2 (authMiddleware_next_iff sample_services (JStr "Bearer token-1")
                  (JStr "u1"))).
  exists "token-1", (JObj [("userId", JStr "u1")]).
  split; [reflexivity|]. split; [discriminate|]. auto.
Defined.

(** X14. For a header that is a string, or absent, the middleware never
    throws and answers nothing but 401: a request it does not pass on is
    answered "Missing auth token" or "Invalid or expired token". *)
Theorem authMiddleware_rejects_with_401 (S : Services) (authorization : JsVal) :
  String.eqb (typeof authorization) "string" = true
  \/ authorization = JUndefined ->
  (exists userId, authMiddleware S authorization = Normal (Next userId))
  \/ authMiddleware S authorization
     = Normal (Respond (failure 401 "Missing auth token"))
  \/ authMiddleware S authorization
     = Normal (Respond (failure 401 "Invalid or expired token")).
Proof.
  intros [Hty| ->].
  2:{ right; left. apply authMiddleware_no_token. now left. }
  destruct (typeof_string _ Hty) as [h ->].
  destruct (String.prefix "Bearer " h) eqn:Hprefix.
  2:{ right; left. apply authMiddleware_no_token. eauto. }
  apply prefix_slice in Hprefix. cbn [String.length] in Hprefix.
  destruct (slice_from 7 h) as [|c token] eqn:Hslice.
  { right; left. apply authMiddleware_no_token. eauto. }
  rewrite Hprefix, authMiddleware_bearer by discriminate.
  destruct (jwt_verify S (String c token)) as [payload|e]; [|now right; right].
  destruct (nullish payload); [now right; right | left; eauto].
Qed.

Lemma authMiddleware_rejects_with_401_witness :
  authMiddleware sample_services (JStr "Bearer forged")
  = Normal (Respond (failure 401 "Invalid or expired token")).
Proof.
  destruct (authMiddleware_rejects_with_401 sample_services (JStr "Bearer forged")
              (or_introl eq_refl)) as [(userId & H)|[H|H]].
  - discriminate H.
  - discriminate H.
  - exact H.
Defined.

(** Finds the calls a route has added to the trace. *)
Ltac added_calls :=
  first
    [ exists (@nil Call); split; [reflexivity|]
    | eexists [_]; split; [reflexivity|]
    | eexists [_; _]; split; [reflexivity|]
    | eexists [_; _; _]; split; [reflexivity|]
    | eexists [_; _; _; _]; split; [reflexivity|]
    | eexists [_; _; _; _; _]; split; [reflexivity|] ].

Ltac run_route H :=
  repeat match type of H with
  | context [match ?c with Normal _ => _ | Throw _ => _ end] =>
      let E := fresh "Hcall" in destruct c eqn:E
  | context [if ?b then _ else _] =>
      let E := fresh "Hif" in destruct b eqn:E
  end.

(** A handler behind the middleware runs only for a verified token, with
    the user id of its payload. *)
Lemma behind_auth_cases (S : Services) (authorization : JsVal)
      (handler : JsVal -> Route Response) (t : Trace)
      (res : Completion Response) (t' : Trace) :
  behind_auth S authorization handler t = (res, t') ->
  t' = t
  \/ exists token payload,
       authorization = JStr ("Bearer " ++ token)
       /\ jwt_verify S token = Normal payload
       /\ handler (get payload (Field "userId")) t = (res, t').
Proof.
  unfold behind_auth. intros Hrun.
  destruct (authMiddleware S authorization) as [[r|userId]|e] eqn:Hgate.
  - injection Hrun as <- <-. now left.
  - apply authMiddleware_next_cases in Hgate.
    destruct Hgate as (token & payload & -> & _ & Hverify & _ & ->).
    right. eauto.
  - injection Hrun as <- <-. now left.
Qed.

(** X15. The history routes reach the database only for a request whose
    token verifies, and then only for the sessions of the user of that
    token: every database call they add to the trace is a call on the
    sessions collection for the [userId] of the verified payload. *)
Theorem history_routes_access_control
  (S : Services) (authorization req_body : JsVal) (t : Trace)
  (res : Completion Response) (t' : Trace) :
  history_get S authorization t = (res, t')
  \/ history_post S authorization req_body t = (res, t')
  \/ history_delete S authorization t = (res, t') ->
  exists new,
    t' = (new ++ t)%list
    /\ forall c, In c new -> database_call c = true ->
         exists token payload,
           authorization = JStr ("Bearer " ++ token)
           /\ jwt_verify S token = Normal payload
           /\ session_call_user c = Some (get payload (Field "userId")).
Proof.
  intros Hrun.
  assert (Hcases :
    t' = t
    \/ exists token payload new,
         t' = (new ++ t)%list
         /\ authorization = JStr ("Bearer " ++ token)
         /\ jwt_verify S token = Normal payload
         /\ forall c, In c new -> database_call c = true ->
              session_call_user c = Some (get payload (Field "userId"))).
  { destruct Hrun as [Hrun|[Hrun|Hrun]];
      apply behind_auth_cases in Hrun;
      (destruct Hrun as [->|(token & payload & -> & Hverify & Hrun)]; [now left|]);
      right; exists token, payload;
      unfold route_catch, route_bind, call, done in Hrun;
      run_route Hrun; injection Hrun as <- <-;
      added_calls;
      (split; [reflexivity|]); (split; [exact Hverify|]);
      intros c Hin Hdb; simpl in Hin;
      repeat (destruct Hin as [<-|Hin]; [try reflexivity; discriminate Hdb|]);
      destruct Hin. }
  destruct Hcases as [->|(token & payload & new & -> & -> & Hverify & Hnew)].
  - exists []. split; [reflexivity|]. intros c [].
  - exists new. split; [reflexivity|]. intros c Hin Hdb.
    exists token, payload. auto.
Qed.

Lemma history_routes_access_control_witness :
  exists new,
    snd (history_post sample_services (JStr "Bearer token-1")
           (JObj [("topic", JStr "Java"); ("results", JStr "none")]) [])
    = (new ++ [])%list
    /\ forall c, In c new -> database_call c = true ->
         exists token payload,
           JStr "Bearer token-1" = JStr ("Bearer " ++ token)
           /\ jwt_verify sample_services token = Normal payload
           /\ session_call_user c = Some (get payload (Field "userId")).
Proof.
  apply (history_routes_access_control sample_services (JStr "Bearer token-1")
           (JObj [("topic", JStr "Java"); ("results", JStr "none")]) []
           (fst (history_post sample_services (JStr "Bearer token-1")
                   (JObj [("topic", JStr "Java"); ("results", JStr "none")]) []))).
  right; left. reflexivity.
Defined.

(** X16. Registration stores nothing but the hash: a user is created only
    after [User.findOne] has found no user with that email, and the
    [passwordHash] given to [User.create] is what [bcrypt.hash] answered for
    the password of the request, with the name and email of the request. *)
Theorem register_stores_only_hash
  (S : Services) (req_body : JsVal) (t : Trace)
  (res : Completion Response) (t' : Trace) :
  register S req_body t = (res, t') ->
  exists new,
    t' = (new ++ t)%list
    /\ forall name email stored,
         In (CCreateUser name email stored) new ->
         name = get (js_or req_body (JObj [])) (Field "name")
         /\ email = get (js_or req_body (JObj [])) (Field "email")
         /\ (exists existing,
                User_findOne S t email = Normal existing
                /\ truthy existing = false)
         /\ bcrypt_hash S (CFindUser email :: t)
              (get (js_or req_body (JObj [])) (Field "password"))
            = Normal stored.
Proof.
  unfold register, route_catch, route_bind, call, done, settle. intros Hrun.
  run_route Hrun; injection Hrun as <- <-; added_calls;
    intros name email stored Hin; simpl in Hin;
    repeat (destruct Hin as [Hin|Hin]; [try discriminate Hin|]);
    try contradiction;
    injection Hin as <- <- <-; eauto 6.
Qed.

Lemma register_stores_only_hash_witness :
  exists res new,
    register sample_services
      (JObj [("name", JStr "Bob"); ("email", JStr "bob@example.com");
             ("password", JStr "hunter2")]) []
    = (res, (new ++ [])%list)
    /\ In (CCreateUser (JStr "Bob") (JStr "bob@example.com") (JStr "[hunter2]")) new
    /\ bcrypt_hash sample_services [CFindUser (JStr "bob@example.com")] (JStr "hunter2")
       = Normal (JStr "[hunter2]").
Proof.
  destruct (register_stores_only_hash sample_services
              (JObj [("name", JStr "Bob"); ("email", JStr "bob@example.com");
                     ("password", JStr "hunter2")]) []
              (Normal (session_opened
                         (JObj [("_id", JStr "u2"); ("name", JStr "Bob");
                                ("email", JStr "bob@example.com");
                                ("passwordHash", JStr "[hunter2]")])
                         (JStr "token-1")))
              [CSign (JStr "u2");
               CCreateUser (JStr "Bob") (JStr "bob@example.com") (JStr "[hunter2]");
               CHash (JStr "hunter2"); CFindUser (JStr "bob@example.com")])
    as (new & Hnew & Hcreate); [vm_compute; reflexivity|].
  rewrite app_nil_r in Hnew. subst new.
  do 2 eexists. split; [rewrite app_nil_r; vm_compute; reflexivity|].
  assert (Hin : In (CCreateUser (JStr "Bob") (JStr "bob@example.com")
                      (JStr "[hunter2]"))
                   [CSign (JStr "u2");
                    CCreateUser (JStr "Bob") (JStr "bob@example.com") (JStr "[hunter2]");
                    CHash (JStr "hunter2"); CFindUser (JStr "bob@example.com")])
    by (simpl; auto).
  split; [exact Hin | exact (proj2 (proj2 (proj2 (Hcreate _ _ _ Hin))))].
Defined.

(** X17. A login that fails on the email and one that fails on the password
    cannot be told apart: when [User.findOne] finds no user, and when
    [bcrypt.compare] answers false, the response is the same 401
    "Invalid credentials", and no token is signed. *)
Theorem login_failures_indistinguishable
  (S : Services) (req_body : JsVal) (t : Trace) (user : JsVal) :
  truthy (get (js_or req_body (JObj [])) (Field "email")) = true ->
  truthy (get (js_or req_body (JObj [])) (Field "password")) = true ->
  User_findOne S t (get (js_or req_body (JObj [])) (Field "email")) = Normal user ->
  truthy user = false
  \/ (exists ok,
         bcrypt_compare S
           (CFindUser (get (js_or req_body (JObj [])) (Field "email")) :: t)
           (get (js_or req_body (JObj [])) (Field "password"))
           (get user (Field "passwordHash"))
         = Normal ok
         /\ truthy ok = false) ->
  fst (login S req_body t) = Normal (failure 401 "Invalid credentials")
  /\ exists new,
       snd (login S req_body t) = (new ++ t)%list
       /\ forall userId, ~ In (CSign userId) new.
Proof.
  intros Hemail Hpassword Hfind Hfails.
  unfold login, route_catch, route_bind, call, done.
  rewrite Hemail, Hpassword. cbn [negb orb]. rewrite Hfind.
  destruct (truthy user) eqn:Huser; cbn [negb].
  - destruct Hfails as [Hf|(ok & Hcompare & Hok)]; [discriminate Hf|].
    rewrite Hcompare, Hok. cbn [negb fst snd]. split; [reflexivity|].
    added_calls. intros userId Hin. simpl in Hin.
    destruct Hin as [Hin|[Hin|[]]]; discriminate Hin.
  - cbn [fst snd]. split; [reflexivity|].
    added_calls. intros userId Hin. simpl in Hin.
    destruct Hin as [Hin|[]]; discriminate Hin.
Qed.

Lemma login_failures_indistinguishable_witness :
  fst (login sample_services
         (JObj [("email", JStr "nobody@example.com"); ("password", JStr "secret")]) [])
  = Normal (failure 401 "Invalid credentials")
  /\ fst (login sample_services
            (JObj [("email", JStr "alice@example.com"); ("password", JStr "wrong")]) [])
     = Normal (failure 401 "Invalid credentials").
Proof.
  split.
  - apply (login_failures_indistinguishable sample_services
             (JObj [("email", JStr "nobody@example.com"); ("password", JStr "secret")])
             [] JNull); try reflexivity. now left.
  - apply (login_failures_indistinguishable sample_services
             (JObj [("email", JStr "alice@example.com"); ("password", JStr "wrong")])
             [] alice); try reflexivity.
    right. exists (JBool false). split; reflexivity.
Defined.



(** * The client *)

Lemma lookup_set_prop_same (k : string) (v : JsVal) (props : list (string * JsVal)) :
  lookup k (set_prop k v props) = v.
Proof.
  induction props as [|[k' v'] props IH]; cbn [set_prop lookup].
  - now rewrite String.eqb_refl.
  - destruct (String.eqb k k') eqn:Hk; cbn [lookup]; rewrite Hk;
      [reflexivity | exact IH].
Qed.

Lemma lookup_set_prop_other (k k' : string) (v : JsVal)
      (props : list (string * JsVal)) :
  String.eqb k k' = false ->
  lookup k (set_prop k' v props) = lookup k props.
Proof.
  intros Hk. induction props as [|[k0 v0] props IH]; cbn [set_prop lookup].
  - now rewrite Hk.
  - destruct (String.eqb k' k0) eqn:Hk0; cbn [lookup].
    + apply String.eqb_eq in Hk0. subst k0. now rewrite Hk.
    + destruct (String.eqb k k0); [reflexivity | exact IH].
Qed.

Lemma set_prop_unchanged (k : string) (v : JsVal) (props : list (string * JsVal)) :
  lookup k props = v -> v <> JUndefined -> set_prop k v props = props.
Proof.
  intros Hv Hdef. induction props as [|[k' v'] props IH];
    cbn [set_prop lookup] in *.
  - congruence.
  - destruct (String.eqb k k'); [now subst | f_equal; exact (IH Hv)].
Qed.

Lemma as_points_array (v : JsVal) : exists items, as_points v = JArr items.
Proof.
  unfold as_points. destruct v; simpl; eauto;
    match goal with |- context [if ?b then _ else _] => destruct b end; eauto.
Qed.

Lemma as_points_fixed (items : list JsVal) : as_points (JArr items) = JArr items.
Proof. reflexivity. Qed.

(** The two lists of a normalized evaluation. *)
Lemma normalizeEval_lists (ev : JsVal) :
  truthy ev = true ->
  exists props,
    normalizeEval ev = JObj props
    /\ lookup "mistakes" props = as_points (get ev (Field "mistakes"))
    /\ lookup "missing_points" props = as_points (get ev (Field "missing_points")).
Proof.
  intros Hev. unfold normalizeEval. rewrite Hev. cbn [negb].
  eexists. split; [reflexivity|]. split.
  - rewrite lookup_set_prop_other by reflexivity. apply lookup_set_prop_same.
  - apply lookup_set_prop_same.
Qed.

(** X19. A normalized evaluation has arrays for [mistakes] and
    [missing_points]: the array of the evaluation itself when it is one, a
    single truthy value wrapped in an array, and the empty array otherwise.
    No evaluation (a falsy value) is normalized to [null].  Every other
    property of an evaluation object is kept as it was, and normalizing
    again changes nothing. *)
Theorem normalizeEval_normal_form (ev : JsVal) :
  (truthy ev = true ->
   forall k,
     k = "mistakes" \/ k = "missing_points" ->
     get (normalizeEval ev) (Field k)
     = match get ev (Field k) with
       | JArr items => JArr items
       | v => if truthy v then JArr [v] else JArr []
       end)
  /\ (truthy ev = false -> normalizeEval ev = JNull)
  /\ (forall props k,
        ev = JObj props ->
        String.eqb k "mistakes" = false ->
        String.eqb k "missing_points" = false ->
        get (normalizeEval ev) (Field k) = get ev (Field k))
  /\ normalizeEval (normalizeEval ev) = normalizeEval ev.
Proof.
  split; [|split; [|split]].
  - intros Hev k Hk.
    destruct (normalizeEval_lists ev Hev) as (props & -> & Hm & Hp).
    cbn [get]. destruct Hk as [-> | ->]; [rewrite Hm | rewrite Hp];
      unfold as_points;
      match goal with |- context [Array_isArray ?v] => destruct v end;
      reflexivity.
  - intros Hev. unfold normalizeEval. now rewrite Hev.
  - intros props k -> Hk1 Hk2. unfold normalizeEval. cbn [truthy negb get own_properties].
    now rewrite !lookup_set_prop_other.
  - destruct (truthy ev) eqn:Hev.
    2:{ unfold normalizeEval. rewrite Hev. reflexivity. }
    destruct (normalizeEval_lists ev Hev) as (props & Hnorm & Hm & Hp).
    rewrite Hnorm. unfold normalizeEval at 1. cbn [truthy negb get own_properties].
    destruct (as_points_array (get ev (Field "mistakes"))) as [ms Hms].
    destruct (as_points_array (get ev (Field "missing_points"))) as [ps Hps].
    rewrite Hm, Hp, Hms, Hps, !as_points_fixed.
    rewrite (set_prop_unchanged "mistakes" (JArr ms) props)
      by (congruence || discriminate).
    rewrite (set_prop_unchanged "missing_points" (JArr ps) props)
      by (congruence || discriminate).
    reflexivity.
Qed.

Lemma normalizeEval_normal_form_witness :
  get (normalizeEval (JObj [("score", JNum 7); ("mistakes", JStr "none")]))
      (Field "mistakes")
  = JArr [JStr "none"]
  /\ get (normalizeEval (JObj [("score", JNum 7); ("mistakes", JStr "none")]))
         (Field "missing_points")
     = JArr []
  /\ get (normalizeEval (JObj [("score", JNum 7); ("mistakes", JStr "none")]))
         (Field "score")
     = JNum 7.
Proof.
  destruct (normalizeEval_normal_form
              (JObj [("score", JNum 7); ("mistakes", JStr "none")]))
    as (Hlists & _ & Hkept & _).
  split; [exact (Hlists eq_refl "mistakes" (or_introl eq_refl))|].
  split; [exact (Hlists eq_refl "missing_points" (or_intror eq_refl))|].
  exact (Hkept [("score", JNum 7); ("mistakes", JStr "none")] "score"
               eq_refl eq_refl eq_refl).
Defined.

(** X20. [topWeaknesses] never throws and returns at most three points:
    the first three of an array of missing points, a single missing point on
    its own, and none for no evaluation. *)
Theorem topWeaknesses_at_most_three (ev : JsVal) :
  exists tops,
    topWeaknesses ev = Normal (JArr tops)
    /\ (List.length tops <= 3)%nat
    /\ (truthy ev = false -> tops = [])
    /\ (truthy ev = true ->
        exists points,
          as_points (get ev (Field "missing_points")) = JArr points
          /\ tops = firstn 3 points).
Proof.
  unfold topWeaknesses. destruct (truthy ev) eqn:Hev.
  - destruct (normalizeEval_lists ev Hev) as (props & -> & _ & Hp).
    destruct (as_points_array (get ev (Field "missing_points"))) as [ps Hps].
    cbn [truthy negb get]. rewrite Hp, Hps. cbn [truthy negb slice_0_3].
    exists (firstn 3 ps). split; [reflexivity|]. split; [apply firstn_le_length|].
    split; [discriminate|]. intros _. exists ps. auto.
  - unfold normalizeEval. rewrite Hev. cbn [negb truthy].
    exists []. split; [reflexivity|]. split; [simpl; lia|].
    split; [reflexivity | discriminate].
Qed.

Lemma topWeaknesses_at_most_three_witness :
  topWeaknesses
    (JObj [("missing_points",
            JArr [JStr "a"; JStr "b"; JStr "c"; JStr "d"; JStr "e"])])
  = Normal (JArr [JStr "a"; JStr "b"; JStr "c"]).
Proof.
  destruct (topWeaknesses_at_most_three
              (JObj [("missing_points",
                      JArr [JStr "a"; JStr "b"; JStr "c"; JStr "d"; JStr "e"])]))
    as (tops & Hrun & _ & _ & Htops).
  destruct (Htops eq_refl) as (points & Hpoints & ->).
  injection Hpoints as <-. exact Hrun.
Defined.

Lemma map_completion_app (f : JsVal -> Completion JsVal) (a b : list JsVal) :
  map_completion f (a ++ b)
  = and_then (map_completion f a) (fun ya =>
    and_then (map_completion f b) (fun yb => Normal (ya ++ yb)%list)).
Proof.
  induction a as [|x a IH]; cbn [app map_completion and_then].
  - destruct (map_completion f b); reflexivity.
  - destruct (f x) as [y|e]; cbn [and_then]; [|reflexivity].
    rewrite IH. destruct (map_completion f a) as [ya|e]; cbn [and_then];
      [|reflexivity].
    destruct (map_completion f b); reflexivity.
Qed.

(** What [score_or_null] returns is a number or [null]: the scores that
    [filter(Boolean)] keeps are numbers. *)
Lemma score_or_null_number (r s : JsVal) :
  score_or_null r = Normal s ->
  s = JNull \/ String.eqb (typeof s) "number" = true.
Proof.
  unfold score_or_null.
  destruct (chain r [Field "evaluation"]) as [evaluation|e]; cbn [and_then];
    [|discriminate].
  destruct (truthy evaluation); cbn [andb].
  - destruct (String.eqb (typeof (get evaluation (Field "score"))) "number") eqn:Hty;
      intros H; injection H as <-; auto.
  - intros H; injection H as <-; auto.
Qed.

(** A result that counts for nothing in the session score. *)
Lemma score_or_null_falsy (r : JsVal) :
  nullish r = false ->
  truthy (get r (Field "evaluation")) = false
  \/ String.eqb (typeof (get (get r (Field "evaluation")) (Field "score"))) "number"
     = false
  \/ (exists q, get (get r (Field "evaluation")) (Field "score") = JNum q /\ q == 0) ->
  exists s, score_or_null r = Normal s /\ truthy s = false.
Proof.
  intros Hr Hcases. unfold score_or_null. cbn [chain]. rewrite Hr. cbn [and_then].
  destruct Hcases as [H|[H|(q & H & Hq)]].
  - rewrite H. cbn [andb]. eauto.
  - rewrite H, andb_false_r. eauto.
  - rewrite H. cbn [typeof]. destruct (truthy (get r (Field "evaluation")));
      cbn [andb]; [|eauto].
    replace (String.eqb "number" "number") with true by reflexivity.
    exists (JNum q). split; [reflexivity|]. cbn [truthy].
    now rewrite (Qeq_eq_bool _ _ Hq).
Qed.

(** X21. A result whose score is 0 counts for nothing in the session
    score, exactly like a result without an evaluation or without a numeric
    score: [filter(Boolean)] drops it before the average is taken, so
    putting it into a session or taking it out leaves the score as it is. *)
Theorem calculateSessionScore_ignores_zero (before after : list JsVal) (r : JsVal) :
  nullish r = false ->
  truthy (get r (Field "evaluation")) = false
  \/ String.eqb (typeof (get (get r (Field "evaluation")) (Field "score"))) "number"
     = false
  \/ (exists q, get (get r (Field "evaluation")) (Field "score") = JNum q /\ q == 0) ->
  calculateSessionScore (before ++ r :: after)
  = calculateSessionScore (before ++ after).
Proof.
  intros Hr Hcases.
  destruct (score_or_null_falsy r Hr Hcases) as (s & Hs & Hfalsy).
  unfold calculateSessionScore. rewrite !map_completion_app.
  destruct (map_completion score_or_null before) as [ya|e]; cbn [and_then];
    [|reflexivity].
  cbn [map_completion]. rewrite Hs. cbn [and_then].
  destruct (map_completion score_or_null after) as [yb|e]; cbn [and_then];
    [|reflexivity].
  rewrite !filter_app. cbn [filter]. rewrite Hfalsy. reflexivity.
Qed.

Lemma calculateSessionScore_ignores_zero_witness :
  calculateSessionScore [scored (JNum 10); scored (JNum 0)] = Normal (JNum 10)
  /\ calculateSessionScore [scored (JNum 10); scored (JNum 0)]
     = calculateSessionScore [scored (JNum 10)].
Proof.
  split; [reflexivity|].
  apply (calculateSessionScore_ignores_zero [scored (JNum 10)] [] (scored (JNum 0))).
  - reflexivity.
  - right; right. exists 0. split; reflexivity.
Defined.

Lemma map_completion_in (f : JsVal -> Completion JsVal) (items ys : list JsVal) :
  map_completion f items = Normal ys ->
  forall y, In y ys -> exists x, In x items /\ f x = Normal y.
Proof.
  revert ys. induction items as [|x items IH]; cbn [map_completion]; intros ys Hmap.
  - injection Hmap as <-. intros y [].
  - destruct (f x) as [y0|e] eqn:Hx; cbn [and_then] in Hmap; [|discriminate].
    destruct (map_completion f items) as [ys0|e]; cbn [and_then] in Hmap;
      [|discriminate].
    injection Hmap as <-. intros y [<-|Hin].
    + exists x. split; [now left | exact Hx].
    + destruct (IH ys0 eq_refl y Hin) as (x' & Hin' & Hx'). exists x'.
      split; [now right | exact Hx'].
Qed.

Lemma map_completion_length (f : JsVal -> Completion JsVal) (items ys : list JsVal) :
  map_completion f items = Normal ys -> List.length ys = List.length items.
Proof.
  revert ys. induction items as [|x items IH]; cbn [map_completion]; intros ys Hmap.
  - now injection Hmap as <-.
  - destruct (f x) as [y0|e]; cbn [and_then] in Hmap; [|discriminate].
    destruct (map_completion f items) as [ys0|e]; cbn [and_then] in Hmap;
      [|discriminate].
    injection Hmap as <-. cbn [List.length]. f_equal. now apply IH.
Qed.

(** *** The rounding of doubles *)

Lemma binade_lower (a : Q) : 0 < a -> 2 ^ binade a <= a.
Proof.
  intros Ha. unfold binade. destruct (Qle_bool 1 a) eqn:H1.
  - apply Qle_bool_iff in H1.
    assert (Hf : (1 <= Qfloor a)%Z).
    { change 1%Z with (Qfloor (inject_Z 1)). now apply Qfloor_resp_le. }
    apply Qle_trans with (inject_Z (Qfloor a)); [|apply Qfloor_le].
    rewrite <- (Zpower_Qpower 2) by apply Z.log2_nonneg.
    rewrite <- Zle_Qle. apply Z.log2_spec. lia.
  - assert (Hlt : a < 1).
    { apply Qnot_le_lt. intros H. apply Qle_bool_iff in H. congruence. }
    rewrite Qpower_opp.
    assert (Hpos : 0 < 2 ^ Z.log2_up (Qceiling (/ a))) by now apply Qpower_0_lt.
    apply (Qle_shift_inv_r (2 ^ Z.log2_up (Qceiling (/ a))) a Hpos).
    apply Qle_trans with (a * / a).
    + rewrite Qmult_inv_r; [apply Qle_refl|]. intros H. rewrite H in Ha.
      discriminate.
    + rewrite (Qmult_comm a (/ a)), (Qmult_comm a).
      apply Qmult_le_compat_r; [|now apply Qlt_le_weak].
      apply Qle_trans with (inject_Z (Qceiling (/ a))); [apply Qle_ceiling|].
      rewrite <- (Zpower_Qpower 2) by apply Z.log2_up_nonneg.
      rewrite <- Zle_Qle.
      assert (Hc : (1 < Qceiling (/ a))%Z).
      { rewrite Zlt_Qlt. apply Qlt_le_trans with (/ a); [|apply Qle_ceiling].
        apply Qlt_shift_inv_l; [exact Ha|]. now rewrite Qmult_1_l. }
      apply Z.log2_up_spec. exact Hc.
Qed.

Lemma round_half_even_cases (x : Q) :
  round_half_even x = Qfloor x
  \/ (round_half_even x = (Qfloor x + 1)%Z /\ inject_Z (Qfloor x) < x).
Proof.
  unfold round_half_even.
  destruct (Qcompare (x - inject_Z (Qfloor x)) (1 # 2)) eqn:Hc.
  - apply Qeq_alt in Hc. destruct (Z.even (Qfloor x)); [now left|].
    right. split; [reflexivity|]. lra.
  - now left.
  - apply Qgt_alt in Hc. right. split; [reflexivity|]. lra.
Qed.

Lemma round_half_even_nonneg (x : Q) : 0 <= x -> (0 <= round_half_even x)%Z.
Proof.
  intros Hx. assert (Hf : (0 <= Qfloor x)%Z).
  { change 0%Z with (Qfloor (inject_Z 0)). now apply Qfloor_resp_le. }
  destruct (round_half_even_cases x) as [-> | [-> _]]; lia.
Qed.

Lemma round_half_even_le (x : Q) (N : Z) :
  x <= inject_Z N -> (round_half_even x <= N)%Z.
Proof.
  intros Hx.
  assert (Hf : (Qfloor x <= N)%Z).
  { rewrite <- (Qfloor_Z N). now apply Qfloor_resp_le. }
  destruct (round_half_even_cases x) as [-> | [-> Hlt]]; [exact Hf|].
  assert (Hs : inject_Z (Qfloor x) < inject_Z N) by (eapply Qlt_le_trans; eauto).
  rewrite <- Zlt_Qlt in Hs. lia.
Qed.

Lemma to_double_bounded (q : Q) (z : Z) :
  0 <= q -> q <= inject_Z z -> (z < 2 ^ 53)%Z ->
  exists d, to_double q = JNum d /\ 0 <= d /\ d <= inject_Z z.
Proof.
  intros Hlo Hhi Hz. unfold to_double.
  assert (Habs : Qabs q == q) by now apply Qabs_pos.
  destruct (Qeq_bool (Qabs q) 0) eqn:Hzero.
  { exists 0. split; [reflexivity|]. split; [apply Qle_refl|].
    eapply Qle_trans; eauto. }
  assert (Hpos : 0 < Qabs q).
  { apply Qle_lt_or_eq in Hlo. destruct Hlo as [H|H]; [now rewrite Habs|].
    exfalso. apply Qeq_bool_neq in Hzero. apply Hzero. now rewrite Habs, <- H. }
  set (e := (Z.max (binade (Qabs q)) (-1022) - 52)%Z).
  assert (He : (e <= 0)%Z).
  { assert (Hb : (binade (Qabs q) < 53)%Z).
    { apply (Qpower_lt_compat_l_inv 2); [|reflexivity].
      eapply Qle_lt_trans; [apply binade_lower; exact Hpos|].
      rewrite Habs. eapply Qle_lt_trans; [exact Hhi|].
      rewrite <- (Zpower_Qpower 2) by lia. now rewrite <- Zlt_Qlt. }
    subst e. lia. }
  assert (Hulp : 0 < 2 ^ e) by now apply Qpower_0_lt.
  assert (Hwhole : inject_Z z == inject_Z (z * 2 ^ (- e)) * 2 ^ e).
  { rewrite inject_Z_mult, (Zpower_Qpower 2) by lia.
    rewrite <- Qmult_assoc, <- Qpower_plus by discriminate.
    replace (- e + e)%Z with 0%Z by lia. now rewrite Qmult_1_r. }
  set (m := round_half_even (Qabs q / 2 ^ e)).
  assert (Hm0 : (0 <= m)%Z).
  { apply round_half_even_nonneg. apply Qle_shift_div_l; [exact Hulp|].
    rewrite Qmult_0_l. now apply Qlt_le_weak. }
  assert (Hm1 : (m <= z * 2 ^ (- e))%Z).
  { apply round_half_even_le. apply Qle_shift_div_r; [exact Hulp|].
    rewrite <- Hwhole, Habs. exact Hhi. }
  assert (Hmag0 : 0 <= inject_Z m * 2 ^ e).
  { apply Qmult_le_0_compat; [|now apply Qlt_le_weak].
    change 0 with (inject_Z 0). now rewrite <- Zle_Qle. }
  assert (Hmag1 : inject_Z m * 2 ^ e <= inject_Z z).
  { rewrite Hwhole. apply Qmult_le_compat_r; [|now apply Qlt_le_weak].
    now rewrite <- Zle_Qle. }
  assert (Hsign : Qle_bool 0 q = true) by now apply Qle_bool_iff.
  rewrite Hsign. cbn [negb].
  destruct (Qle_bool (2 ^ 1024) (inject_Z m * 2 ^ e)) eqn:Hover.
  { exfalso. apply Qle_bool_iff in Hover.
    assert (Hbig : inject_Z z < 2 ^ 1024).
    { apply Qlt_trans with (inject_Z (2 ^ 53)); [now rewrite <- Zlt_Qlt|].
      rewrite (Zpower_Qpower 2) by lia. apply Qpower_lt_compat_l; [lia | reflexivity]. }
    apply (Qlt_irrefl (inject_Z z)).
    eapply Qlt_le_trans; [exact Hbig|]. eapply Qle_trans; eauto. }
  eexists. split; [reflexivity|]. rewrite Qred_correct. split; assumption.
Qed.

(** The sum of scores between 0 and [hi] stays between 0 and their number
    times [hi]: that bound is a whole number below [2^53], which is a
    double, and rounding does not cross a double. *)
Lemma sum_in_range (hi : Z) (scores : list JsVal) :
  (0 <= hi)%Z ->
  (forall s, In s scores -> exists q, s = JNum q /\ 0 <= q /\ q <= inject_Z hi) ->
  forall (c : Z) (a : Q),
    (0 <= c)%Z -> 0 <= a -> a <= inject_Z (c * hi) ->
    ((c + Z.of_nat (List.length scores)) * hi < 2 ^ 53)%Z ->
    exists t,
      fold_left Number_add scores (JNum a) = JNum t
      /\ 0 <= t
      /\ t <= inject_Z ((c + Z.of_nat (List.length scores)) * hi).
Proof.
  intros Hhi. induction scores as [|s scores IH]; intros Hall c a Hc Ha0 Ha1 Hroom.
  - exists a. cbn [fold_left List.length Z.of_nat]. rewrite Z.add_0_r. auto.
  - destruct (Hall s (or_introl eq_refl)) as (q & -> & Hq0 & Hq1).
    cbn [fold_left Number_add].
    cbn [List.length] in *. rewrite Nat2Z.inj_succ in *.
    destruct (to_double_bounded (a + q) ((c + 1) * hi)) as (d & Hd & Hd0 & Hd1).
    + lra.
    + rewrite Z.mul_add_distr_r, Z.mul_1_l, inject_Z_plus. lra.
    + nia.
    + rewrite Hd.
      assert (Hroom' : ((c + 1 + Z.of_nat (List.length scores)) * hi < 2 ^ 53)%Z).
      { replace (c + 1 + Z.of_nat (List.length scores))%Z
          with (c + Z.succ (Z.of_nat (List.length scores)))%Z by lia.
        exact Hroom. }
      assert (Hc' : (0 <= c + 1)%Z) by lia.
      destruct (IH (fun w Hw => Hall w (or_intror Hw)) (c + 1)%Z d Hc' Hd0 Hd1 Hroom')
        as (t & Ht & Ht0 & Ht1).
      exists t. split; [exact Ht|]. split; [exact Ht0|].
      replace (c + Z.succ (Z.of_nat (List.length scores)))%Z
        with (c + 1 + Z.of_nat (List.length scores))%Z by lia.
      exact Ht1.
Qed.

(** X22. The session score is a whole number within the scale of the
    scores, in the arithmetic of doubles: when every score that counts is a
    finite number between 0 and a whole number [hi], and the number of
    results times [hi] is below [2^53], the session score is a whole number
    between 0 and [hi] (0 for a session with no score that counts). *)
Theorem calculateSessionScore_in_range
  (results : list JsVal) (hi : Z) (v : JsVal) :
  (0 <= hi)%Z ->
  (Z.of_nat (List.length results) * hi < 2 ^ 53)%Z ->
  (forall r s, In r results -> score_or_null r = Normal s -> truthy s = true ->
               exists q, s = JNum q /\ 0 <= q /\ q <= inject_Z hi) ->
  calculateSessionScore results = Normal v ->
  exists n, v = JNum (inject_Z n) /\ (0 <= n <= hi)%Z.
Proof.
  intros Hhi Hroom Hscale. unfold calculateSessionScore.
  destruct (map_completion score_or_null results) as [scores|e] eqn:Hmap;
    cbn [and_then]; [|discriminate].
  set (numeric := filter truthy scores).
  assert (Hnumeric : forall s, In s numeric ->
                       exists q, s = JNum q /\ 0 <= q /\ q <= inject_Z hi).
  { intros s Hin. apply filter_In in Hin. destruct Hin as [Hin Htruthy].
    destruct (map_completion_in _ _ _ Hmap s Hin) as (r & Hr & Hs). eauto. }
  assert (Hcount : (List.length numeric <= List.length results)%nat).
  { rewrite <- (map_completion_length _ _ _ Hmap). apply filter_length_le. }
  destruct (List.length numeric =? 0)%nat eqn:Hlen.
  - intros Hv. injection Hv as <-. exists 0%Z. split; [reflexivity | lia].
  - intros Hv. injection Hv as <-. apply Nat.eqb_neq in Hlen.
    assert (Hfits : (Z.of_nat (List.length numeric) * hi < 2 ^ 53)%Z) by nia.
    destruct (sum_in_range hi numeric Hhi Hnumeric 0 0) as (total & -> & Ht0 & Ht1).
    { lia. }
    { apply Qle_refl. }
    { apply Qle_refl. }
    { exact Hfits. }
    cbn [Number_div].
    set (len := inject_Z (Z.of_nat (List.length numeric))) in *.
    assert (Hpos : 0 < len).
    { subst len. change 0 with (inject_Z 0). rewrite <- Zlt_Qlt. lia. }
    assert (Havg_lo : 0 <= total / len).
    { apply Qle_shift_div_l; [exact Hpos|]. lra. }
    assert (Havg_hi : total / len <= inject_Z hi).
    { apply Qle_shift_div_r; [exact Hpos|].
      rewrite Z.add_0_l, inject_Z_mult in Ht1. fold len in Ht1. lra. }
    destruct (to_double_bounded (total / len) hi Havg_lo Havg_hi)
      as (avg & -> & Ha0 & Ha1); [nia|].
    cbn [Math_round]. eexists. split; [reflexivity|]. split.
    + change 0%Z with (Qfloor (inject_Z 0)). apply Qfloor_resp_le.
      change (inject_Z 0) with 0. lra.
    + assert (Hlt : inject_Z (Qfloor (avg + (1 # 2))) < inject_Z (hi + 1)).
      { eapply Qle_lt_trans; [apply Qfloor_le|].
        rewrite inject_Z_plus. change (inject_Z 1) with 1. lra. }
      rewrite <- Zlt_Qlt in Hlt. lia.
Qed.

Lemma calculateSessionScore_in_range_witness :
  calculateSessionScore
    [scored (to_double (7 # 5)); scored (to_double (14 # 5)); scored (to_double (33 # 10));
     scored (JStr "9")]
  = Normal (JNum 2)
  /\ exists n, JNum 2 = JNum (inject_Z n) /\ (0 <= n <= 10)%Z.
Proof.
  assert (Hrun : calculateSessionScore
                   [scored (to_double (7 # 5)); scored (to_double (14 # 5));
                    scored (to_double (33 # 10)); scored (JStr "9")]
                 = Normal (JNum 2)) by (vm_compute; reflexivity).
  split; [exact Hrun|].
  apply (calculateSessionScore_in_range
           [scored (to_double (7 # 5)); scored (to_double (14 # 5));
            scored (to_double (33 # 10)); scored (JStr "9")] 10 (JNum 2)).
  - lia.
  - reflexivity.
  - intros r s [<-|[<-|[<-|[<-|[]]]]] Hs Htruthy; vm_compute in Hs;
      injection Hs as <-; try discriminate Htruthy;
      eexists; (split; [reflexivity|]); split; vm_compute; discriminate.
  - exact Hrun.
Defined.

Lemma replace_char_app (c : ascii) (by_ a b : string) :
  replace_char c by_ (a ++ b) = replace_char c by_ a ++ replace_char c by_ b.
Proof.
  induction a as [|x a IH]; cbn [append replace_char]; [reflexivity|].
  rewrite IH. destruct (Ascii.eqb x c); cbn [append]; [|reflexivity].
  now rewrite append_associative.
Qed.

(** The three replacements in a row are one pass over the characters. *)
Lemma three_passes_one_pass (s : string) :
  replace_char ">" "&gt;" (replace_char "<" "&lt;" (replace_char "&" "&amp;" s))
  = escape_each s.
Proof.
  induction s as [|c s IH]; [reflexivity|].
  cbn [replace_char escape_each]. unfold html_entity.
  destruct (Ascii.eqb c "&") eqn:Hamp.
  { rewrite !replace_char_app, IH. reflexivity. }
  cbn [replace_char]. destruct (Ascii.eqb c "<") eqn:Hlt.
  { rewrite !replace_char_app, IH. reflexivity. }
  cbn [replace_char]. destruct (Ascii.eqb c ">") eqn:Hgt.
  { rewrite IH. reflexivity. }
  rewrite IH. reflexivity.
Qed.

Lemma escape_each_no_angle (s : string) :
  occurs "<" (escape_each s) = false /\ occurs ">" (escape_each s) = false.
Proof.
  induction s as [|c s [IHlt IHgt]]; [split; reflexivity|].
  cbn [escape_each]. rewrite !occurs_app, IHlt, IHgt, !orb_false_r.
  unfold html_entity.
  destruct (Ascii.eqb c "&") eqn:Hamp; [split; reflexivity|].
  destruct (Ascii.eqb c "<") eqn:Hlt; [split; reflexivity|].
  destruct (Ascii.eqb c ">") eqn:Hgt; [split; reflexivity|].
  cbn [occurs]. rewrite !orb_false_r.
  rewrite (Ascii.eqb_sym "<" c), (Ascii.eqb_sym ">" c), Hlt, Hgt. auto.
Qed.

(** X23. Whatever is interpolated through [escapeHtml] cannot open or close
    a tag: for every value, and whatever text [String] gives it, the result
    has no [<] and no [>] in it. *)
Theorem escapeHtml_no_angle_brackets (String_ : JsVal -> string) (s : JsVal) :
  occurs "<" (escapeHtml String_ s) = false
  /\ occurs ">" (escapeHtml String_ s) = false.
Proof.
  unfold escapeHtml.
  destruct (negb (truthy s) && negb (strict_eq s (JNum 0))); [split; reflexivity|].
  rewrite three_passes_one_pass. apply escape_each_no_angle.
Qed.

(** X24. The order of the three replacements is right: the ampersand goes
    first, so that no entity is escaped twice, and the result is each
    character of the text replaced by its own entity once.  A falsy value
    gives the empty text, except the number 0, which is written out. *)
Theorem escapeHtml_one_pass (String_ : JsVal -> string) (s : JsVal) :
  escapeHtml String_ s
  = if truthy s || strict_eq s (JNum 0) then escape_each (String_ s)
    else EmptyString.
Proof.
  unfold escapeHtml. rewrite three_passes_one_pass.
  destruct (truthy s); destruct (strict_eq s (JNum 0)); reflexivity.
Qed.

(** After the validation the handler never answers 400. *)
Lemma evaluate_validated_not_400 generateContent Math_random req_body h :
  nullish req_body = false ->
  missing_required req_body = false ->
  exists res h',
    evaluate generateContent Math_random req_body h = Some (Normal res, h')
    /\ status res <> 400%Z.
Proof.
  intros Hbody Hvalid.
  destruct (prompt_of req_body) as [prompt|e] eqn:Hprompt.
  2:{ rewrite (evaluate_no_prompt _ _ _ _ _ Hbody Hvalid Hprompt).
      do 2 eexists. split; [reflexivity|]. rewrite evaluate_catch_status.
      destruct (overloaded (error_code e)); discriminate. }
  rewrite (evaluate_validated _ _ _ _ _ Hbody Hvalid Hprompt).
  destruct (withRetries_total (generateContent prompt)
              Math_random no_options h) as ([response|error] & h1 & ->).
  - destruct (respond_to_status response) as (res & -> & Hstatus).
    do 2 eexists. split; [reflexivity|]. destruct Hstatus as [-> | ->]; discriminate.
  - do 2 eexists. split; [reflexivity|]. rewrite evaluate_catch_status.
    destruct (overloaded (error_code error)); discriminate.
Qed.

Lemma js_or_default_truthy (v d : JsVal) : truthy d = true -> truthy (js_or v d) = true.
Proof. intros Hd. unfold js_or. destruct (truthy v) eqn:Hv; assumption. Qed.

Lemma truthy_defined (v : JsVal) :
  truthy v = true -> String.eqb (typeof v) "undefined" = false.
Proof. destruct v; simpl; intros H; try discriminate; reflexivity. Qed.

(** X25. What the client posts always carries an answer: an empty
    transcript is sent as "(no answer given)".  Taken as the body of the
    request, a payload with a non-empty topic and question therefore
    passes the validation of the handler and is never answered 400. *)
Theorem client_payload_is_accepted
  (generateContent : Prompt -> History -> Completion JsVal)
  (Math_random : History -> Q)
  (topic difficulty question transcript : JsVal) (h : History) :
  truthy topic = true ->
  truthy question = true ->
  truthy (get (submit_payload topic difficulty question transcript) (Field "answer"))
  = true
  /\ (truthy transcript = false ->
      get (submit_payload topic difficulty question transcript) (Field "answer")
      = JStr "(no answer given)")
  /\ exists res h',
       evaluate generateContent Math_random
                (submit_payload topic difficulty question transcript) h
       = Some (Normal res, h')
       /\ status res <> 400%Z.
Proof.
  intros Htopic Hquestion.
  assert (Hanswer : truthy (js_or transcript (JStr "(no answer given)")) = true)
    by now apply js_or_default_truthy.
  split; [exact Hanswer|]. split.
  - intros Hempty. cbn. unfold js_or. now rewrite Hempty.
  - apply evaluate_validated_not_400; [reflexivity|].
    unfold missing_required, submit_payload. cbn [get lookup].
    cbn. rewrite Htopic, Hquestion. cbn [negb orb].
    now apply truthy_defined.
Qed.

Lemma client_payload_is_accepted_witness :
  get (submit_payload (JStr "Java") (JStr "Medium") (JStr "What is OOP?")
         (JStr EmptyString)) (Field "answer")
  = JStr "(no answer given)"
  /\ exists res h',
       evaluate (remote_answers (candidate_response (JStr sample_evaluation)))
                (constant_random 0)
                (submit_payload (JStr "Java") (JStr "Medium") (JStr "What is OOP?")
                   (JStr EmptyString)) []
       = Some (Normal res, h')
       /\ status res <> 400%Z.
Proof.
  destruct (client_payload_is_accepted
              (remote_answers (candidate_response (JStr sample_evaluation)))
              (constant_random 0)
              (JStr "Java") (JStr "Medium") (JStr "What is OOP?") (JStr EmptyString)
              [] eq_refl eq_refl) as (_ & Hdefault & Hrun).
  split; [exact (Hdefault eq_refl) | exact Hrun].
Defined.

(** X9. A request without a body: [/evaluate] destructures [req.body]
    as it is, fails inside the [try] block and answers 500 without calling
    the remote service, while [/auth/register] and [/auth/login] destructure
    [req.body || {}] and answer 400 without calling anything. *)
Theorem routes_without_body
  (generateContent : Prompt -> History -> Completion JsVal)
  (Math_random : History -> Q) (S : Services)
  (req_body : JsVal) (h : History) (t : Trace) :
  nullish req_body = true ->
  (exists res error,
      evaluate generateContent Math_random req_body h
      = Some (Normal res, EvError error :: h)
      /\ status res = 500%Z)
  /\ register S req_body t
     = (Normal (failure 400 "Name, email, and password are required"), t)
  /\ login S req_body t
     = (Normal (failure 400 "Email and password are required"), t).
Proof.
  intros Hbody. split.
  - rewrite (evaluate_no_body _ _ _ _ Hbody).
    do 2 eexists. split; [reflexivity|].
    destruct req_body; try discriminate Hbody; reflexivity.
  - destruct req_body; try discriminate Hbody; split; reflexivity.
Qed.

Lemma routes_without_body_witness :
  (exists res error,
      evaluate (remote_answers (candidate_response (JStr sample_evaluation)))
               (constant_random 0) JUndefined []
      = Some (Normal res, [EvError error])
      /\ status res = 500%Z)
  /\ register sample_services JUndefined []
     = (Normal (failure 400 "Name, email, and password are required"), [])
  /\ login sample_services JUndefined []
     = (Normal (failure 400 "Email and password are required"), []).
Proof.
  apply (routes_without_body
           (remote_answers (candidate_response (JStr sample_evaluation)))
           (constant_random 0) sample_services JUndefined [] []).
  reflexivity.
Defined.

(** X26. The handler and the retry controller read an error differently:
    an error whose [status] or [error.code] is 429 or "RESOURCE_EXHAUSTED"
    is retried and never leaves [withRetries].  So when the [catch] block of
    the handler finds one of these two codes in an error that came out of
    [withRetries], that error has no [status] and no [error.code]: the code
    is its [message]. *)
Theorem overload_code_comes_from_message
  (fn : History -> Completion JsVal) (Math_random : History -> Q)
  (options : RetryOptions) (h : History) (err : JsVal) (h' : History) :
  withRetries fn Math_random options h = Some (Throw err, h') ->
  strict_eq (error_code err) (JNum 429) = true
  \/ strict_eq (error_code err) (JStr "RESOURCE_EXHAUSTED") = true ->
  truthy (opt_chain err [Field "status"]) = false
  /\ truthy (opt_chain err [Field "error"; Field "code"]) = false
  /\ error_code err = opt_chain err [Field "message"].
Proof.
  intros Hrun Hcode. apply loop_provenance in Hrun.
  destruct Hrun as [Hexhausted|(h0 & _ & _ & Hfatal)].
  { injection Hexhausted as ->. destruct Hcode as [H|H]; discriminate H. }
  assert (Hagree :
    truthy (opt_chain err [Field "status"]) = true
    \/ truthy (opt_chain err [Field "error"; Field "code"]) = true ->
    error_status err = error_code err).
  { unfold error_status, error_code, js_or. intros [H|H].
    - repeat (rewrite H || cbv beta iota). reflexivity.
    - destruct (truthy (opt_chain err [Field "status"])) eqn:Hs;
        repeat (rewrite ?H, ?Hs; cbv beta iota); reflexivity. }
  assert (Hretry : retryable (error_code err) = true).
  { unfold retryable. destruct Hcode as [H|H]; rewrite H;
      cbn [orb]; now rewrite ?orb_true_r. }
  destruct (truthy (opt_chain err [Field "status"])) eqn:Hstatus.
  { rewrite Hagree in Hfatal by auto. congruence. }
  destruct (truthy (opt_chain err [Field "error"; Field "code"])) eqn:Hinner.
  { rewrite Hagree in Hfatal by auto. congruence. }
  split; [reflexivity|]. split; [reflexivity|].
  unfold error_code, js_or. now rewrite Hstatus, Hinner.
Qed.

Lemma overload_code_comes_from_message_witness :
  withRetries (always_fails (new_Error "RESOURCE_EXHAUSTED")) (constant_random 0)
              no_options []
  = Some (Throw (new_Error "RESOURCE_EXHAUSTED"),
          [EvInvoke (Throw (new_Error "RESOURCE_EXHAUSTED"))])
  /\ error_code (new_Error "RESOURCE_EXHAUSTED")
     = opt_chain (new_Error "RESOURCE_EXHAUSTED") [Field "message"].
Proof.
  split; [vm_compute; reflexivity|].
  destruct (overload_code_comes_from_message
              (always_fails (new_Error "RESOURCE_EXHAUSTED"))
              (constant_random 0) no_options []
              (new_Error "RESOURCE_EXHAUSTED")
              [EvInvoke (Throw (new_Error "RESOURCE_EXHAUSTED"))])
    as (_ & _ & Hcode).
  - vm_compute. reflexivity.
  - right. vm_compute. reflexivity.
  - exact Hcode.
Defined.
